(** * DMDataPushMailer: export-and-deliver pipeline

    A shallow embedding of [main.go]: the table exporter
    ([exportTableToExcel]), the MIME assembler and SMTP hand-over
    ([writeBody], [writeAttachment], [SendEmail]), the job body ([task]) and
    the start-up sequence ([main]), followed by the properties of the
    natural-language specification that concern them.

    Go strings are [string]; byte slices and [bytes.Buffer] contents are
    [list ascii]; a Go [error] that may be [nil] is [option error]; a
    function that returns a value or an error returns a [Result]. Go [int]
    values are [Z]: the only counters are cell coordinates, and a sheet
    refuses them long before 64 bits are used up. A [*bytes.Buffer] is an
    address in the heap of the record [World], so that two holders of the
    address see each other's reads. Everything outside the process
    (database, mail server, file system, random source, the order a map is
    ranged over) is an oracle of the record [Env].

    The parts of the Go library and of excelize that the program calls are
    laid out first, as far as the program uses them; then the program; then
    the vocabulary of the statements, the concrete inputs, and the proofs:
    first the properties the specification states, then further properties
    of the same functions. *)

From Stdlib Require Import ZArith NArith Lia List Ascii String Permutation.
From Stdlib Require Import DecimalString.
From Stdlib Require DecimalPos.
From stdpp Require Import gmap strings list.

Local Open Scope Z_scope.

(** ** Bytes and strings *)

Abbreviation bytes := (list ascii).

Definition error := string.

Definition bytes_of (s : string) : bytes := String.list_ascii_of_string s.
Definition string_of (b : bytes) : string := String.string_of_list_ascii b.

Definition CR : ascii := "013"%char.
Definition LF : ascii := "010"%char.
Definition CRLF : bytes := [CR; LF].
Definition crlf : string := String CR (String LF EmptyString).

Definition byte_val (b : ascii) : N := N_of_ascii b.

(** [fmt.Sprintf("%d", n)] *)
Definition itoa (n : Z) : string := NilZero.string_of_int (Z.to_int n).

(** [bytes.HasPrefix(l, p)] and [bytes.Contains(hay, needle)] *)
Fixpoint has_prefix (p l : bytes) : bool :=
  match p, l with
  | [], _ => true
  | a :: p', b :: l' => if Ascii.eqb a b then has_prefix p' l' else false
  | _ :: _, [] => false
  end.

Fixpoint contains (needle hay : bytes) : bool :=
  has_prefix needle hay ||
  match hay with
  | [] => false
  | _ :: hay' => contains needle hay'
  end.

(** ** [fmt.Sprintf("%x", b)]: two lower-case hexadecimal digits per byte *)

Module Hex.

Definition lowerhex : bytes := bytes_of "0123456789abcdef".
Definition upperhex : bytes := bytes_of "0123456789ABCDEF".

Definition digit (table : bytes) (n : N) : ascii :=
  nth (N.to_nat n) table "0"%char.

Definition encode_byte (table : bytes) (b : ascii) : bytes :=
  [digit table (N.shiftr (byte_val b) 4); digit table (N.land (byte_val b) 15)].

Definition encode (b : bytes) : bytes := flat_map (encode_byte lowerhex) b.

Definition digit_val (c : ascii) : option N :=
  let n := byte_val c in
  if ((48 <=? n) && (n <=? 57))%N then Some (n - 48)%N
  else if ((97 <=? n) && (n <=? 102))%N then Some (n - 87)%N
  else if ((65 <=? n) && (n <=? 70))%N then Some (n - 55)%N
  else None.

Definition decode_byte (hi lo : ascii) : option ascii :=
  match digit_val hi, digit_val lo with
  | Some h, Some l => Some (ascii_of_N (N.lor (N.shiftl h 4) l))
  | _, _ => None
  end.

End Hex.

(** ** [encoding/base64], [StdEncoding]

    [base64.NewEncoder(base64.StdEncoding, w)] followed by writes and
    [Close] hands [w] the standard, padded encoding of everything written,
    with no line breaks; [encode] is the block loop of [Encoding.Encode]. *)

Module Base64.

Definition encodeStd : bytes :=
  bytes_of "ABCDEFGHIJKLMNOPQRSTUVWXYZabcdefghijklmnopqrstuvwxyz0123456789+/".

Definition padChar : ascii := "="%char.

Definition enc (n : N) : ascii := nth (N.to_nat n) encodeStd "A"%char.

Definition sextet (val : N) (shift : N) : ascii :=
  enc (N.land (N.shiftr val shift) 63).

Fixpoint encode (src : bytes) : bytes :=
  match src with
  | [] => []
  | [a] =>
      let val := N.shiftl (byte_val a) 16 in
      [sextet val 18; sextet val 12; padChar; padChar]
  | [a; b] =>
      let val := N.lor (N.shiftl (byte_val a) 16) (N.shiftl (byte_val b) 8) in
      [sextet val 18; sextet val 12; sextet val 6; padChar]
  | a :: b :: c :: rest =>
      let val := N.lor (N.lor (N.shiftl (byte_val a) 16)
                              (N.shiftl (byte_val b) 8)) (byte_val c) in
      sextet val 18 :: sextet val 12 :: sextet val 6 :: sextet val 0
        :: encode rest
  end.

(** The inverse table of [Encoding.decodeMap]. *)
Definition dec (c : ascii) : option N :=
  let n := byte_val c in
  if ((65 <=? n) && (n <=? 90))%N then Some (n - 65)%N
  else if ((97 <=? n) && (n <=? 122))%N then Some (n - 71)%N
  else if ((48 <=? n) && (n <=? 57))%N then Some (n + 4)%N
  else if (n =? 43)%N then Some 62%N
  else if (n =? 47)%N then Some 63%N
  else None.

Definition byte_at (val : N) (shift : N) : ascii :=
  ascii_of_N (N.land (N.shiftr val shift) 255).

Definition quantum (a b c d : N) : N :=
  N.lor (N.lor (N.lor (N.shiftl a 18) (N.shiftl b 12)) (N.shiftl c 6)) d.

(** Strict decoding of padded standard base64 without line breaks. *)
Fixpoint decode (src : bytes) : option bytes :=
  match src with
  | [] => Some []
  | [a; b; c; d] =>
      match dec a, dec b with
      | Some x, Some y =>
          if Ascii.eqb d padChar then
            if Ascii.eqb c padChar then
              Some [byte_at (quantum x y 0 0) 16]
            else
              match dec c with
              | Some z =>
                  let v := quantum x y z 0 in Some [byte_at v 16; byte_at v 8]
              | None => None
              end
          else
            match dec c, dec d with
            | Some z, Some t =>
                let v := quantum x y z t in
                Some [byte_at v 16; byte_at v 8; byte_at v 0]
            | _, _ => None
            end
      | _, _ => None
      end
  | a :: b :: c :: d :: rest =>
      match dec a, dec b, dec c, dec d, decode rest with
      | Some x, Some y, Some z, Some t, Some out =>
          let v := quantum x y z t in
          Some (byte_at v 16 :: byte_at v 8 :: byte_at v 0 :: out)
      | _, _, _, _, _ => None
      end
  | _ => None
  end.

End Base64.

(** ** [mime/quotedprintable]: the [Writer] in text mode ([Binary] false)

    [qp_line] is [w.line[:w.i]], [qp_cr] is [w.cr] and [qp_out] collects
    what the writer has handed to the underlying [io.Writer]. [Write] groups
    literal bytes into runs before calling [write]; byte by byte the effect
    is the same, which is how it is laid out here. *)

Module QP.

Definition lineMaxLen : nat := 76.

Record Writer := mkWriter {
  qp_line : bytes;
  qp_cr : bool;
  qp_out : bytes
}.

Definition NewWriter : Writer := mkWriter [] false [].

Definition isWhitespace (b : ascii) : bool :=
  Ascii.eqb b " "%char || Ascii.eqb b "009"%char.

Definition flush (w : Writer) : Writer :=
  mkWriter [] (qp_cr w) (qp_out w ++ qp_line w).

Definition insertCRLF (w : Writer) : Writer :=
  flush (mkWriter (qp_line w ++ CRLF) (qp_cr w) (qp_out w)).

Definition insertSoftLineBreak (w : Writer) : Writer :=
  insertCRLF (mkWriter (qp_line w ++ ["="%char]) (qp_cr w) (qp_out w)).

Definition encode (b : ascii) (w : Writer) : Writer :=
  let w1 :=
    if (lineMaxLen - 1 - length (qp_line w) <? 3)%nat
    then insertSoftLineBreak w else w in
  mkWriter (qp_line w1 ++ "="%char :: Hex.encode_byte Hex.upperhex b)
           (qp_cr w1) (qp_out w1).

Definition checkLastByte (w : Writer) : Writer :=
  match last (qp_line w) with
  | None => w
  | Some b =>
      if isWhitespace b
      then encode b (mkWriter (removelast (qp_line w)) (qp_cr w) (qp_out w))
      else w
  end.

Definition write1 (b : ascii) (w : Writer) : Writer :=
  if Ascii.eqb b LF || Ascii.eqb b CR then
    if qp_cr w && Ascii.eqb b LF then mkWriter (qp_line w) false (qp_out w)
    else
      let w1 :=
        if Ascii.eqb b CR then mkWriter (qp_line w) true (qp_out w) else w in
      insertCRLF (checkLastByte w1)
  else
    let w1 :=
      if (length (qp_line w) =? lineMaxLen - 1)%nat
      then insertSoftLineBreak w else w in
    mkWriter (qp_line w1 ++ [b]) false (qp_out w1).

Definition literal (b : ascii) : bool :=
  ((33 <=? byte_val b) && (byte_val b <=? 126) && negb (Ascii.eqb b "="%char))%N
  || isWhitespace b
  || Ascii.eqb b LF || Ascii.eqb b CR.

Definition Write (p : bytes) (w : Writer) : Writer :=
  fold_left (fun w b => if literal b then write1 b w else encode b w) p w.

Definition Close (w : Writer) : Writer := flush (checkLastByte w).

(** Everything a writer opened on an empty sink emits for [p]. *)
Definition encode_all (p : bytes) : bytes := qp_out (Close (Write p NewWriter)).

(** Decoding as RFC 2045 section 6.7 describes it: [=XY] is the byte with
    that hexadecimal value, [=] before a line break is a soft break and
    vanishes, every other byte stands for itself. *)
Fixpoint decode (src : bytes) : option bytes :=
  match src with
  | [] => Some []
  | c :: rest =>
      if Ascii.eqb c "="%char then
        match rest with
        | a :: ((b :: rest2) as rest1) =>
            if Ascii.eqb a CR && Ascii.eqb b LF then decode rest2
            else if Ascii.eqb a LF then decode rest1
            else
              match Hex.decode_byte a b, decode rest2 with
              | Some x, Some out => Some (x :: out)
              | _, _ => None
              end
        | [a] => if Ascii.eqb a LF then Some [] else None
        | [] => None
        end
      else
        match decode rest with
        | Some out => Some (c :: out)
        | None => None
        end
  end.

End QP.

(** ** [mime/multipart]: the [Writer]

    [w_out] is the [bytes.Buffer] the writer was opened on; in [SendEmail]
    that buffer is also written to directly, so it is kept here, in the one
    place both see. [w_lastpart] tells whether a part has been created.
    Writes to a [bytes.Buffer] do not fail, so [CreatePart] and the part's
    [Write] return no error. *)

Module Multipart.

Record Writer := mkWriter {
  w_out : bytes;
  w_boundary : string;
  w_lastpart : bool
}.

Definition Boundary (w : Writer) : string := w_boundary w.

(** [slices.Sort(keys)] on the header keys: insertion into a sorted list. *)
Fixpoint insert_sorted (kv : string * list string)
    (l : list (string * list string)) : list (string * list string) :=
  match l with
  | [] => [kv]
  | kv' :: l' =>
      if String.leb (fst kv) (fst kv') then kv :: l
      else kv' :: insert_sorted kv l'
  end.

Definition sort_keys (h : list (string * list string)) :
    list (string * list string) :=
  fold_right insert_sorted [] h.

Definition header_line (k v : string) : string :=
  k +:+ ": " +:+ v +:+ crlf.

Definition header_lines (h : list (string * list string)) : string :=
  String.concat EmptyString
    (flat_map (fun kv => map (header_line (fst kv)) (snd kv)) (sort_keys h)).

(** [CreatePart]: the delimiter line (preceded by a line break when a part
    came before), the part's header lines in key order, a blank line. *)
Definition CreatePart (header : list (string * list string)) (w : Writer)
  : Writer :=
  let delim :=
    if w_lastpart w then crlf +:+ "--" +:+ w_boundary w +:+ crlf
    else "--" +:+ w_boundary w +:+ crlf in
  mkWriter (w_out w ++ bytes_of delim ++ bytes_of (header_lines header) ++ CRLF)
           (w_boundary w) true.

(** [part.Write] *)
Definition part_Write (d : bytes) (w : Writer) : Writer :=
  mkWriter (w_out w ++ d) (w_boundary w) (w_lastpart w).

(** [Writer.Close]: the closing delimiter. *)
Definition Close (w : Writer) : Writer :=
  mkWriter (w_out w ++ bytes_of (crlf +:+ "--" +:+ w_boundary w +:+ "--" +:+ crlf))
           (w_boundary w) false.

End Multipart.

(** ** [unicode/utf8]: the runes of a string

    [range_string s] is what [for i, r := range s] goes through: for each
    iteration the bytes of [s] it consumes, and whether the rune is U+10000
    or above. A well-formed UTF-8 sequence is one rune; any other byte is
    one rune (U+FFFD) of width 1. *)

Module Utf8.

Definition between (lo hi : N) (b : ascii) : bool :=
  ((lo <=? byte_val b) && (byte_val b <=? hi))%N.

Definition cont (b : ascii) : bool := between 128 191 b.

(** The range the second byte must lie in, and the sequence length, by
    first byte (the table [first] and [acceptRanges] of the package). *)
Definition lead (b0 : ascii) : option (N * N * nat) :=
  if between 194 223 b0 then Some (128, 191, 2%nat)%N
  else if between 224 224 b0 then Some (160, 191, 3%nat)%N
  else if between 237 237 b0 then Some (128, 159, 3%nat)%N
  else if between 225 239 b0 then Some (128, 191, 3%nat)%N
  else if between 240 240 b0 then Some (144, 191, 4%nat)%N
  else if between 241 243 b0 then Some (128, 191, 4%nat)%N
  else if between 244 244 b0 then Some (128, 143, 4%nat)%N
  else None.

(** The sequences of four bytes are the runes from U+10000 on. *)
Fixpoint range_string (s : bytes) : list (bytes * bool) :=
  match s with
  | [] => []
  | b0 :: t1 =>
      if (byte_val b0 <? 128)%N then ([b0], false) :: range_string t1
      else
        match lead b0, t1 with
        | Some (lo, hi, 2%nat), b1 :: t2 =>
            if between lo hi b1 then ([b0; b1], false) :: range_string t2
            else ([b0], false) :: range_string t1
        | Some (lo, hi, 3%nat), b1 :: b2 :: t3 =>
            if between lo hi b1 && cont b2
            then ([b0; b1; b2], false) :: range_string t3
            else ([b0], false) :: range_string t1
        | Some (lo, hi, 4%nat), b1 :: b2 :: b3 :: t4 =>
            if between lo hi b1 && cont b2 && cont b3
            then ([b0; b1; b2; b3], true) :: range_string t4
            else ([b0], false) :: range_string t1
        | _, _ => ([b0], false) :: range_string t1
        end
  end.

End Utf8.

(** ** [excelize]: the parts of a workbook the exporter touches

    A cell name such as ["B7"] is kept as the coordinates it denotes
    ([CellNameToCoordinates] inverts [CoordinatesToCellName] on every name
    the latter produces); [None] is a string that names no cell, which is
    what the caller holds after [CoordinatesToCellName] returned an error.
    A worksheet is the finite map from (column, row) to the text stored. *)

Module Excelize.

Definition TotalRows : Z := 1048576.
Definition MaxColumns : Z := 16384.
Definition TotalCellChars : Z := 32767.

Definition CellName := option (Z * Z).

Record File := mkFile {
  f_sheets : list (string * gmap (Z * Z) string);
  f_active : Z
}.

Definition NewFile : File := mkFile [("Sheet1", ∅)] 0.

Fixpoint sheet_index (name : string) (l : list (string * gmap (Z * Z) string))
  : option Z :=
  match l with
  | [] => None
  | (n, _) :: l' =>
      if String.eqb n name then Some 0
      else match sheet_index name l' with
           | Some i => Some (i + 1)
           | None => None
           end
  end.

(** [NewSheet]: the index of the sheet of that name, created if absent; a
    name that is empty or longer than 31 characters is refused. *)
Definition NewSheet (f : File) (name : string) : File * (Z + error) :=
  if String.eqb name EmptyString then (f, inr "the sheet name can not be blank")
  else if (31 <? String.length name)%nat
  then (f, inr "the sheet name length exceeds the 31 characters limit")
  else
    match sheet_index name (f_sheets f) with
    | Some i => (f, inl i)
    | None =>
        (mkFile (f_sheets f ++ [(name, ∅)]) (f_active f),
         inl (Z.of_nat (length (f_sheets f))))
    end.

Definition valid_coordinates (col row : Z) : bool :=
  (1 <=? col) && (col <=? MaxColumns) && (1 <=? row) && (row <=? TotalRows).

Definition CoordinatesToCellName (col row : Z) : CellName * option error :=
  if (col <? 1) || (row <? 1) then (None, Some "invalid cell reference")
  else if TotalRows <? row
  then (None, Some "row number exceeds maximum limit")
  else if MaxColumns <? col
  then (None, Some "the column number must be greater than or equal to 1 and less than or equal to 16384")
  else (Some (col, row), None).

(** The UTF-16 code units a rune takes: two from U+10000 on, else one. *)
Definition utf16_units (astral : bool) : Z := if astral then 2 else 1.

(** The loop of [countUTF16String], from the count [cnt] on. *)
Definition count_loop (cnt : Z) (l : list (bytes * bool)) : Z :=
  fold_left (fun cnt r => cnt + utf16_units (snd r)) l cnt.

Definition countUTF16String (s : string) : Z :=
  count_loop 0 (Utf8.range_string (bytes_of s)).

(** The loop of [truncateUTF16Units]: [s[:i]] at the first rune with which
    the count exceeds [length], all of [s] if there is none. *)
Fixpoint truncate_loop (cnt length : Z) (l : list (bytes * bool)) : bytes :=
  match l with
  | [] => []
  | (r, astral) :: l' =>
      let cnt := cnt + utf16_units astral in
      if length <? cnt then [] else r ++ truncate_loop cnt length l'
  end.

Definition truncateUTF16Units (s : string) (length : Z) : string :=
  string_of (truncate_loop 0 length (Utf8.range_string (bytes_of s))).

(** [setCellString]: text of more than [TotalCellChars] UTF-16 code units
    is cut (excelize v2.10 and later, the versions a build without a pinned
    version takes; v2.9 and earlier count and cut runes). *)
Definition setCellString (value : string) : string :=
  if TotalCellChars <? countUTF16String value
  then truncateUTF16Units value TotalCellChars
  else value.

Fixpoint set_in_sheet (name : string) (col row : Z) (value : string)
    (l : list (string * gmap (Z * Z) string))
  : option (list (string * gmap (Z * Z) string)) :=
  match l with
  | [] => None
  | (n, cells) :: l' =>
      if String.eqb n name
      then Some ((n, <[(col, row) := value]> cells) :: l')
      else match set_in_sheet name col row value l' with
           | Some l'' => Some ((n, cells) :: l'')
           | None => None
           end
  end.

(** [SetCellValue] with a string value. *)
Definition SetCellValue (f : File) (sheet : string) (cell : CellName)
    (value : string) : File * option error :=
  match cell with
  | Some (col, row) =>
      if valid_coordinates col row then
        match set_in_sheet sheet col row (setCellString value) (f_sheets f) with
        | Some sheets => (mkFile sheets (f_active f), None)
        | None => (f, Some "sheet does not exist")
        end
      else (f, Some "invalid cell reference")
  | None => (f, Some "invalid cell reference")
  end.

Definition SetActiveSheet (f : File) (index : Z) : File :=
  mkFile (f_sheets f) index.

(** Reading back: the cells of a sheet, one cell, and the number of cells
    stored in a row. *)
Fixpoint cells (f_sheets : list (string * gmap (Z * Z) string)) (name : string)
  : gmap (Z * Z) string :=
  match f_sheets with
  | [] => ∅
  | (n, c) :: l' => if String.eqb n name then c else cells l' name
  end.

Definition GetCell (f : File) (sheet : string) (col row : Z) : option string :=
  cells (f_sheets f) sheet !! (col, row).

Definition row_cells (f : File) (sheet : string) (row : Z) : gmap (Z * Z) string :=
  filter (fun kv => snd (fst kv) = row) (cells (f_sheets f) sheet).

End Excelize.

(** ** Results of fallible calls *)

Inductive Result (A : Type) : Type :=
| Ok (a : A)
| Err (e : error).
Arguments Ok {A} a.
Arguments Err {A} e.

(** ** [database/sql]: what a query hands back

    [rows_next] has one entry per [Next()] that returned true, holding what
    the following [Scan] meets: the row's cells ([None] for SQL NULL) or the
    driver's error. [rows_err] is [rows.Err()] once [Next()] returned false. *)

Module SQL.

Definition RawBytes := option bytes.

Record Rows := mkRows {
  rows_columns : Result (list string);
  rows_next : list (Result (list RawBytes));
  rows_err : option error
}.

(** [rows.Scan(dest...)] with [n] destinations of type [*RawBytes]. *)
Definition Scan (n : nat) (row : Result (list RawBytes)) : Result (list RawBytes) :=
  match row with
  | Err e => Err e
  | Ok cells =>
      if (length cells =? n)%nat then Ok cells
      else Err ("sql: expected " +:+ itoa (Z.of_nat (length cells))
                +:+ " destination arguments in Scan, not " +:+ itoa (Z.of_nat n))
  end.

Record DB := mkDB { db_dsn : string }.

End SQL.

(** ** Configuration ([Config] and its parts) *)

Record EmailConfig := mkEmailConfig {
  email_Host : string;
  email_Port : Z;
  email_Username : string;
  email_Password : string
}.

Record DBConfig := mkDBConfig {
  db_Host : string;
  db_Port : Z;
  db_Username : string;
  db_Password : string
}.

Record TableAttachmentConfig := mkTableAttachmentConfig {
  Table : string;
  Excel : string
}.

Record PostConfig := mkPostConfig {
  From : string;
  To : list string;
  Subject : string;
  Body : string;
  Attachment_ : list TableAttachmentConfig
}.

Record Config := mkConfig {
  Email : EmailConfig;
  DB : DBConfig;
  Post : list PostConfig;
  Time : string
}.

(** [Attachment]: [file] is the address of a [bytes.Buffer]. *)
Record Attachment := mkAttachment {
  fileName : string;
  mimeType : string;
  file : nat
}.

(** ** The outside world *)

Inductive Stage :=
| StDial | StGreeting | StAuth | StMail | StRcpt | StData | StWrite | StClose.

(** One SMTP exchange as [SendEmail] drives it. *)
Record Session := mkSession {
  s_addr : string;
  s_host : string;
  s_user : string;
  s_pass : string;
  s_from : string;
  s_to : string;
  s_data : bytes
}.

Record Env := mkEnv {
  (** [crypto/rand.Reader], byte by byte *)
  env_rand : nat -> ascii;
  (** the order the n-th [range] over a map visits its entries in *)
  env_range : nat -> nat;
  (** [sql.Open("dm", dsn)] and [db.Ping()] *)
  env_sql_open : string -> option error;
  env_ping : string -> option error;
  (** the n-th [db.Query] *)
  env_query : nat -> string -> Result SQL.Rows;
  (** [file.Write] into a fresh buffer, and [file.Close] *)
  env_xlsx_write : Excelize.File -> Result bytes;
  env_xlsx_close : Excelize.File -> option error;
  (** the n-th SMTP exchange: the stage that failed, if any *)
  env_smtp : nat -> Session -> option (Stage * error);
  (** [os.Open] and [json.Decode] of the configuration file *)
  env_read_config : string -> Result Config;
  (** the schedule parser behind [cron.AddFunc] *)
  env_cron_parse : string -> option error
}.

(** What a run leaves behind, in order: the database handle opened and
    closed, each call of [exportTableToExcel], each multipart writer opened
    by [SendEmail], each SMTP exchange with the stage that failed (if any),
    and the lines [task] logs when it gives up or completes. *)
Inductive Event :=
| EvOpenDB (dsn : string)
| EvCloseDB (dsn : string)
| EvExport (tableName : string)
| EvBuild (to boundary : string)
| EvSession (s : Session) (failed : option (Stage * error))
| EvConnectFailed (err : error)
| EvExportFailed (tableName : string) (err : error)
| EvSendFailed (recipient : string) (err : error)
| EvCompleted.

Record World := mkWorld {
  heap : gmap nat bytes;
  rand_pos : nat;
  ranges : nat;
  queries : nat;
  sessions : nat;
  trace : list Event
}.

Definition initial : World := mkWorld ∅ 0 0 0 0 [].

(** State passing. *)
Definition M (A : Type) : Type := World -> A * World.

Definition ret {A} (a : A) : M A := fun w => (a, w).

Definition bind {A B} (m : M A) (k : A -> M B) : M B :=
  fun w => let (a, w') := m w in k a w'.

Declare Scope go_scope.
Delimit Scope go_scope with go.
Notation "'do' x <- m ; k" := (bind m (fun x => k))
  (at level 10, x binder, m at level 100, k at level 200) : go_scope.
Notation "'run' m ; k" := (bind m (fun _ => k))
  (at level 10, m at level 100, k at level 200) : go_scope.
Local Open Scope go_scope.

Definition emit (e : Event) : M unit :=
  fun w => (tt, mkWorld (heap w) (rand_pos w) (ranges w) (queries w)
                        (sessions w) (trace w ++ [e])).

(** [new(bytes.Buffer)] filled with [data]. *)
Definition alloc (data : bytes) : M nat :=
  fun w => let p := fresh (dom (heap w)) in
           (p, mkWorld (<[p := data]> (heap w)) (rand_pos w) (ranges w)
                       (queries w) (sessions w) (trace w)).

(** The unread bytes of the buffer at [p]. *)
Definition contents (w : World) (p : nat) : bytes := default [] (heap w !! p).

(** [io.Copy(dst, p)]: [bytes.Buffer.WriteTo] hands over every unread byte
    and leaves the buffer empty. *)
Definition drain (p : nat) : M bytes :=
  fun w => (contents w p,
            mkWorld (<[p := []]> (heap w)) (rand_pos w) (ranges w)
                    (queries w) (sessions w) (trace w)).

Definition read_rand (n : nat) : Env -> M bytes :=
  fun env w => (map (fun i => env_rand env (rand_pos w + i)%nat) (seq 0 n),
                mkWorld (heap w) (rand_pos w + n)%nat (ranges w) (queries w)
                        (sessions w) (trace w)).

Definition next_range (env : Env) : M nat :=
  fun w => (env_range env (ranges w),
            mkWorld (heap w) (rand_pos w) (S (ranges w)) (queries w)
                    (sessions w) (trace w)).

Definition db_Query (env : Env) (db : SQL.DB) (query : string) : M (Result SQL.Rows) :=
  fun w => (env_query env (queries w) query,
            mkWorld (heap w) (rand_pos w) (ranges w) (S (queries w))
                    (sessions w) (trace w)).

Definition smtp_exchange (env : Env) (s : Session) : M (option (Stage * error)) :=
  fun w => let r := env_smtp env (sessions w) s in
           (r, mkWorld (heap w) (rand_pos w) (ranges w) (queries w)
                       (S (sessions w)) (trace w ++ [EvSession s r])).

(** A [range] over a map: the entries in the order picked by [seed]; every
    permutation of the entries is picked by some seed. *)
Definition insert_at {A} (i : nat) (x : A) (l : list A) : list A :=
  take i l ++ x :: drop i l.

Fixpoint go_range {A} (seed : nat) (entries : list A) : list A :=
  match entries with
  | [] => []
  | x :: rest =>
      let n := S (length rest) in
      insert_at (seed mod n) x (go_range (seed / n) rest)
  end.

(** ** The program *)

Definition dquote : string := String "034"%char EmptyString.

Definition xlsxMime : string :=
  "application/vnd.openxmlformats-officedocument.spreadsheetml.sheet".

(** [multipart.NewWriter(&buf)] on an empty buffer: the boundary is the
    hexadecimal form of 30 bytes of the random source. *)
Definition NewWriter (rnd : bytes) : Multipart.Writer :=
  Multipart.mkWriter [] (string_of (Hex.encode rnd)) false.

(** [buf.WriteString(s)] on the buffer the writer was opened on. *)
Definition buf_WriteString (s : string) (w : Multipart.Writer) : Multipart.Writer :=
  Multipart.mkWriter (Multipart.w_out w ++ bytes_of s)
                     (Multipart.w_boundary w) (Multipart.w_lastpart w).

Section Program.

Variable env : Env.

Definition writeBody (writer : Multipart.Writer) (body : string)
  : Multipart.Writer * option error :=
  let part :=
    Multipart.CreatePart
      [("Content-Type", ["text/plain; charset=utf-8"]);
       ("Content-Transfer-Encoding", ["quoted-printable"])] writer in
  let qp := QP.NewWriter in
  (* defer qp.Close() *)
  let qp := QP.Write (bytes_of body) qp in
  let qp := QP.Close qp in
  (Multipart.part_Write (QP.qp_out qp) part, None).

Definition writeAttachment (writer : Multipart.Writer) (attachment : nat)
    (fileName mimeType : string) : M (Multipart.Writer * option error) :=
  let part :=
    Multipart.CreatePart
      [("Content-Type", [mimeType]);
       ("Content-Transfer-Encoding", ["base64"]);
       ("Content-Disposition",
        ["attachment; filename=" +:+ dquote +:+ fileName +:+ dquote])] writer in
  (* encoder := base64.NewEncoder(...); defer encoder.Close() *)
  do src <- drain attachment;
  ret (Multipart.part_Write (Base64.encode src) part, None).

(** [for _, attachment := range attachments] of [SendEmail] *)
Fixpoint SendEmail_attachments (writer : Multipart.Writer)
    (attachments : list Attachment) : M (Multipart.Writer * option error) :=
  match attachments with
  | [] => ret (writer, None)
  | attachment :: rest =>
      do r <- writeAttachment writer (file attachment) (fileName attachment)
                              (mimeType attachment);
      match r with
      | (writer, Some err) => ret (writer, Some err)
      | (writer, None) => SendEmail_attachments writer rest
      end
  end.

(** [SendEmail] up to its [return]: the result and the multipart writer as
    the function leaves it, before the deferred calls run. *)
Definition SendEmail_run (smtpServer port username password from to subject
    body : string) (attachments : list Attachment)
  : M (option error * Multipart.Writer) :=
  do rnd <- read_rand 30 env;
  let writer := NewWriter rnd in
  run emit (EvBuild to (Multipart.Boundary writer));
  let headers :=
    [("From", from); ("To", to); ("Subject", subject);
     ("MIME-Version", "1.0");
     ("Content-Type", "multipart/mixed; boundary=" +:+ Multipart.Boundary writer)] in
  do seed <- next_range env;
  let writer :=
    fold_left (fun w kv => buf_WriteString (fst kv +:+ ": " +:+ snd kv +:+ crlf) w)
              (go_range seed headers) writer in
  let writer := buf_WriteString crlf writer in
  match writeBody writer body with
  | (writer, Some err) => ret (Some err, writer)
  | (writer, None) =>
      do r <- SendEmail_attachments writer attachments;
      match r with
      | (writer, Some err) => ret (Some err, writer)
      | (writer, None) =>
          let serverAddress := smtpServer +:+ ":" +:+ port in
          do failed <-
            smtp_exchange env
              (mkSession serverAddress smtpServer username password from to
                         (Multipart.w_out writer));
          match failed with
          | Some (_, err) => ret (Some err, writer)
          | None => ret (None, writer)
          end
      end
  end.

(** [SendEmail]: [defer writer.Close()] runs once the body has returned;
    the buffer it completes is local and dropped. *)
Definition SendEmail (smtpServer port username password from to subject
    body : string) (attachments : list Attachment) : M (option error) :=
  do r <- SendEmail_run smtpServer port username password from to subject
                        body attachments;
  let closed := Multipart.Close (snd r) in
  ret (fst r).

(** [for i, colName := range columns] of [exportTableToExcel] *)
Fixpoint export_header (f : Excelize.File) (sheetName : string) (i : Z)
    (columns : list string) : Excelize.File :=
  match columns with
  | [] => f
  | colName :: rest =>
      let (cell, _) := Excelize.CoordinatesToCellName (i + 1) 1 in
      let (f, _) := Excelize.SetCellValue f sheetName cell colName in
      export_header f sheetName (i + 1) rest
  end.

(** [for colNum, value := range values] *)
Fixpoint export_row (f : Excelize.File) (sheetName : string) (rowNum colNum : Z)
    (values : list SQL.RawBytes) : Excelize.File :=
  match values with
  | [] => f
  | value :: rest =>
      let (cell, _) := Excelize.CoordinatesToCellName (colNum + 1) rowNum in
      let (f, _) :=
        match value with
        | None => Excelize.SetCellValue f sheetName cell "NULL"
        | Some v => Excelize.SetCellValue f sheetName cell (string_of v)
        end in
      export_row f sheetName rowNum (colNum + 1) rest
  end.

(** [for rows.Next()] *)
Fixpoint export_rows (f : Excelize.File) (sheetName : string) (ncols : nat)
    (rowNum : Z) (next : list (Result (list SQL.RawBytes)))
  : Result Excelize.File :=
  match next with
  | [] => Ok f
  | row :: rest =>
      match SQL.Scan ncols row with
      | Err err => Err err
      | Ok values =>
          export_rows (export_row f sheetName rowNum 0 values) sheetName ncols
                      (rowNum + 1) rest
      end
  end.

Definition exportTableToExcel (db : SQL.DB) (tableName : string)
  : M (Result nat) :=
  run emit (EvExport tableName);
  let file := Excelize.NewFile in
  let sheetName := "Sheet1" in
  match Excelize.NewSheet file sheetName with
  | (_, inr err) => ret (Err err)
  | (file, inl index) =>
      let query := "SELECT * FROM " +:+ tableName in
      do q <- db_Query env db query;
      match q with
      | Err err => ret (Err err)
      | Ok rows =>
          match SQL.rows_columns rows with
          | Err err => ret (Err err)
          | Ok columns =>
              let file := export_header file sheetName 0 columns in
              match export_rows file sheetName (length columns) 2
                                (SQL.rows_next rows) with
              | Err err => ret (Err err)
              | Ok file =>
                  match SQL.rows_err rows with
                  | Some err => ret (Err err)
                  | None =>
                      let file := Excelize.SetActiveSheet file index in
                      match env_xlsx_write env file with
                      | Err err => ret (Err err)
                      | Ok data =>
                          do buffer <- alloc data;
                          match env_xlsx_close env file with
                          | Some err => ret (Err err)
                          | None => ret (Ok buffer)
                          end
                      end
                  end
              end
          end
      end
  end.

Definition createDMDB (username password host port : string)
  : M (Result SQL.DB) :=
  if String.eqb username EmptyString || String.eqb password EmptyString
     || String.eqb host EmptyString || String.eqb port EmptyString
  then ret (Err "invalid database credentials or host information")
  else
    let dataSourceName :=
      "dm://" +:+ username +:+ ":" +:+ password +:+ "@" +:+ host +:+ ":" +:+ port in
    match env_sql_open env dataSourceName with
    | Some err => ret (Err err)
    | None =>
        run emit (EvOpenDB dataSourceName);
        match env_ping env dataSourceName with
        | Some err => run emit (EvCloseDB dataSourceName); ret (Err err)
        | None => ret (Ok (SQL.mkDB dataSourceName))
        end
    end.

(** [for _, attachmentConfig := range post.Attachment]: [None] when the
    loop left [task] through [return]. *)
Fixpoint task_attachments (db : SQL.DB) (configs : list TableAttachmentConfig)
    (attachments : list Attachment) : M (option (list Attachment)) :=
  match configs with
  | [] => ret (Some attachments)
  | attachmentConfig :: rest =>
      do r <- exportTableToExcel db (Table attachmentConfig);
      match r with
      | Err err =>
          run emit (EvExportFailed (Table attachmentConfig) err);
          ret None
      | Ok attachment =>
          task_attachments db rest
            (attachments ++ [mkAttachment (Excel attachmentConfig) xlsxMime attachment])
      end
  end.

(** [for _, recipient := range post.To]: [false] when the loop left [task]
    through [return]. *)
Fixpoint task_recipients (config : Config) (post : PostConfig)
    (attachments : list Attachment) (recipients : list string) : M bool :=
  match recipients with
  | [] => ret true
  | recipient :: rest =>
      do err <- SendEmail (email_Host (Email config))
                          (itoa (email_Port (Email config)))
                          (email_Username (Email config))
                          (email_Password (Email config))
                          (From post) recipient (Subject post) (Body post)
                          attachments;
      match err with
      | Some err => run emit (EvSendFailed recipient err); ret false
      | None => task_recipients config post attachments rest
      end
  end.

(** [for _, post := range config.Post]: [false] when the loop left [task]
    through [return]. *)
Fixpoint task_posts (db : SQL.DB) (config : Config) (posts : list PostConfig)
  : M bool :=
  match posts with
  | [] => ret true
  | post :: rest =>
      do attachments <- task_attachments db (Attachment_ post) [];
      match attachments with
      | None => ret false
      | Some attachments =>
          do continue <- task_recipients config post attachments (To post);
          if continue then task_posts db config rest else ret false
      end
  end.

Definition task (config : Config) : M unit :=
  do r <- createDMDB (db_Username (DB config)) (db_Password (DB config))
                     (db_Host (DB config)) (itoa (db_Port (DB config)));
  match r with
  | Err err => emit (EvConnectFailed err)
  | Ok db =>
      (* defer db.Close() *)
      do completed <- task_posts db config (Post config);
      run (if completed : bool then emit EvCompleted else ret tt);
      emit (EvCloseDB (SQL.db_dsn db))
  end.





End Program.

(** ** Reading a message back

    A reader for the multipart bodies of RFC 2046 section 5.1.1, used to say
    what a mail client recovers from the bytes [SendEmail] hands over: the
    body is the dash-boundary line, the parts separated by delimiter lines,
    and the close-delimiter, which the grammar requires. *)

Module Reader.

(** The text before and after the first occurrence of [needle]. *)
Fixpoint split_at (needle hay : bytes) : option (bytes * bytes) :=
  if has_prefix needle hay then Some ([], drop (length needle) hay)
  else
    match hay with
    | [] => None
    | c :: rest =>
        match split_at needle rest with
        | Some (before, after) => Some (c :: before, after)
        | None => None
        end
    end.

Fixpoint lines (fuel : nat) (text : bytes) : list bytes :=
  match fuel with
  | O => [text]
  | S fuel =>
      match split_at CRLF text with
      | Some (line, rest) => line :: lines fuel rest
      | None => [text]
      end
  end.

Definition header (line : bytes) : option (string * string) :=
  match split_at (bytes_of ": ") line with
  | Some (name, value) => Some (string_of name, string_of value)
  | None => None
  end.

Definition headers (block : bytes) : list (string * string) :=
  omap header (lines (length block) block).

(** The header section of a message (RFC 5322, section 2.1): the lines up
    to the first empty line, without their CR LF, and the text after that
    empty line; [None] when no empty line ends the section. *)
Fixpoint header_section (fuel : nat) (text : bytes)
  : option (list bytes * bytes) :=
  match fuel with
  | O => None
  | S fuel =>
      match split_at CRLF text with
      | None => None
      | Some ([], rest) => Some ([], rest)
      | Some (line, rest) =>
          match header_section fuel rest with
          | Some (ls, after) => Some (line :: ls, after)
          | None => None
          end
      end
  end.

(** Whether [line] is a header line with the field name [name]. *)
Definition is_field (name : string) (line : bytes) : bool :=
  match header line with
  | Some (n, _) => String.eqb n name
  | None => false
  end.

Fixpoint field (name : string) (hs : list (string * string)) : option string :=
  match hs with
  | [] => None
  | (n, v) :: rest => if String.eqb n name then Some v else field name rest
  end.

Record Part := mkPart {
  part_headers : list (string * string);
  part_content : bytes
}.

Definition part (raw : bytes) : option Part :=
  match split_at (CRLF ++ CRLF) raw with
  | Some (hs, content) => Some (mkPart (headers hs) content)
  | None => None
  end.

(** The parts that follow a delimiter line, up to the close-delimiter;
    [None] when the text ends without one. *)
Fixpoint parts (fuel : nat) (delimiter : bytes) (text : bytes)
  : option (list bytes) :=
  match fuel with
  | O => None
  | S fuel =>
      match split_at delimiter text with
      | None => None
      | Some (raw, after) =>
          if has_prefix (bytes_of "--") after then Some [raw]
          else if has_prefix CRLF after then
            match parts fuel delimiter (drop 2 after) with
            | Some rest => Some (raw :: rest)
            | None => None
            end
          else None
      end
  end.

(** The value of the [boundary] parameter of a [Content-Type]. *)
Definition boundary_of (contentType : string) : option bytes :=
  match split_at (bytes_of "boundary=") (bytes_of contentType) with
  | Some (_, b) => Some b
  | None => None
  end.

Definition multipart (msg : bytes) : option (list Part) :=
  match split_at (CRLF ++ CRLF) msg with
  | None => None
  | Some (hs, body) =>
      match field "Content-Type" (headers hs) with
      | None => None
      | Some contentType =>
          match boundary_of contentType with
          | None => None
          | Some b =>
              let dash := bytes_of "--" ++ b in
              if has_prefix (dash ++ CRLF) body then
                match parts (length body) (CRLF ++ dash)
                            (drop (length dash + 2) body) with
                | Some raws => mapM part raws
                | None => None
                end
              else None
          end
      end
  end.

(** The content of a part with its transfer encoding undone. *)
Definition decoded (p : Part) : option bytes :=
  match field "Content-Transfer-Encoding" (part_headers p) with
  | Some enc =>
      if String.eqb enc "quoted-printable" then QP.decode (part_content p)
      else if String.eqb enc "base64" then Base64.decode (part_content p)
      else Some (part_content p)
  | None => Some (part_content p)
  end.

(** The [filename] parameter of a part's [Content-Disposition]. *)
Definition filename (p : Part) : option string :=
  match field "Content-Disposition" (part_headers p) with
  | None => None
  | Some d =>
      match split_at (bytes_of ("filename=" +:+ dquote)) (bytes_of d) with
      | None => None
      | Some (_, rest) =>
          match split_at (bytes_of dquote) rest with
          | Some (name, _) => Some (string_of name)
          | None => None
          end
      end
  end.

Definition attachment (p : Part) : option (string * bytes) :=
  match filename p, decoded p with
  | Some name, Some payload => Some (name, payload)
  | _, _ => None
  end.

(** A message as a client shows it: the text of the first part and the
    attachments after it, in order. *)
Definition mail (msg : bytes) : option (bytes * list (string * bytes)) :=
  match multipart msg with
  | Some (first :: rest) =>
      match decoded first, mapM attachment rest with
      | Some text, Some attachments => Some (text, attachments)
      | _, _ => None
      end
  | _ => None
  end.

End Reader.

(** * Vocabulary of the statements *)

Import Excelize.

(** ** The exporter *)

(** The workbook [exportTableToExcel] hands to [file.Write] for a result
    set with the column names [columns] whose rows scan as [next]: the
    header loop, the row loop and [SetActiveSheet], on a new file. *)
Definition workbook (columns : list string)
    (next : list (Result (list SQL.RawBytes))) : Result File :=
  match export_rows (export_header NewFile "Sheet1" 0 columns) "Sheet1"
                    (length columns) 2 next with
  | Ok f => Ok (SetActiveSheet f 0)
  | Err e => Err e
  end.

(** The text a data cell holds for a scanned value. *)
Definition rendered (v : SQL.RawBytes) : string :=
  match v with
  | None => "NULL"
  | Some b => setCellString (string_of b)
  end.

(** The world after an export that stopped before a buffer was made, and
    after one that made the buffer holding [d]. *)
Definition after_query (w : World) (tableName : string) : World :=
  mkWorld (heap w) (rand_pos w) (ranges w) (S (queries w)) (sessions w)
          (trace w ++ [EvExport tableName]).

Definition after_alloc (w : World) (tableName : string) (d : bytes) : World :=
  mkWorld (<[fresh (dom (heap w)) := d]> (heap w)) (rand_pos w) (ranges w)
          (S (queries w)) (sessions w) (trace w ++ [EvExport tableName]).

(** The ways the database can fail an export with error [e]: the query,
    the read of the column names, the scan of some row after rows that
    scanned well, or the iteration itself ([rows.Err()]). *)
Inductive DatabaseFailure (env : Env) (w : World) (tableName : string)
  : error -> Prop :=
| QueryFailed e :
    env_query env (queries w) ("SELECT * FROM " +:+ tableName) = Err e ->
    DatabaseFailure env w tableName e
| ColumnsFailed rows e :
    env_query env (queries w) ("SELECT * FROM " +:+ tableName) = Ok rows ->
    SQL.rows_columns rows = Err e ->
    DatabaseFailure env w tableName e
| ScanFailed rows columns good bad rest e :
    env_query env (queries w) ("SELECT * FROM " +:+ tableName) = Ok rows ->
    SQL.rows_columns rows = Ok columns ->
    SQL.rows_next rows = map Ok good ++ bad :: rest ->
    Forall (fun row => length row = length columns) good ->
    SQL.Scan (length columns) bad = Err e ->
    DatabaseFailure env w tableName e
| IterationFailed rows columns data e :
    env_query env (queries w) ("SELECT * FROM " +:+ tableName) = Ok rows ->
    SQL.rows_columns rows = Ok columns ->
    SQL.rows_next rows = map Ok data ->
    Forall (fun row => length row = length columns) data ->
    SQL.rows_err rows = Some e ->
    DatabaseFailure env w tableName e.

(** The spreadsheet library writes and closes every workbook. *)
Definition library_succeeds (env : Env) : Prop :=
  (forall f, exists d, env_xlsx_write env f = Ok d) /\
  (forall f, env_xlsx_close env f = None).

(** The n-th query is an export of [tableName] that goes through and
    serialises to [d]. *)
Definition exports (env : Env) (n : nat) (tableName : string) (d : bytes) : Prop :=
  exists rows columns doc,
    env_query env n ("SELECT * FROM " +:+ tableName) = Ok rows /\
    SQL.rows_columns rows = Ok columns /\
    workbook columns (SQL.rows_next rows) = Ok doc /\
    SQL.rows_err rows = None /\
    env_xlsx_write env doc = Ok d /\
    env_xlsx_close env doc = None.

(** *** The loops on the cells of the one sheet

    A file with the single sheet [Sheet1], and what the header loop and the
    row loop do to its cells. *)

Definition sheet1 (m : gmap (Z * Z) string) (a : Z) : File :=
  mkFile [("Sheet1", m)] a.

Definition put (m : gmap (Z * Z) string) (col row : Z) (v : string)
  : gmap (Z * Z) string :=
  if valid_coordinates col row then <[(col, row) := setCellString v]> m else m.

Fixpoint write_texts (m : gmap (Z * Z) string) (row col : Z)
    (texts : list string) : gmap (Z * Z) string :=
  match texts with
  | [] => m
  | t :: rest => write_texts (put m (col + 1) row t) row (col + 1) rest
  end.

Definition cell_text (value : SQL.RawBytes) : string :=
  match value with
  | None => "NULL"
  | Some v => string_of v
  end.

Fixpoint write_rows (m : gmap (Z * Z) string) (row : Z)
    (data : list (list SQL.RawBytes)) : gmap (Z * Z) string :=
  match data with
  | [] => m
  | values :: rest =>
      write_rows (write_texts m row 0 (map cell_text values)) (row + 1) rest
  end.

Abbreviation in_row r := (fun kv : Z * Z * string => snd (fst kv) = r).

(** ** The mail *)

(** The entries of the [headers] map of [SendEmail], as its literal lists
    them. *)
Definition top_headers (from to subject boundary : string)
  : list (string * string) :=
  [("From", from); ("To", to); ("Subject", subject); ("MIME-Version", "1.0");
   ("Content-Type", "multipart/mixed; boundary=" +:+ boundary)].

(** A header value that stays on its line: no CR and no LF in it. *)
Definition no_line_break (s : string) : Prop :=
  forallb (fun c => negb (Ascii.eqb c CR) && negb (Ascii.eqb c LF))
          (bytes_of s) = true.

Definition top_line (kv : string * string) : string :=
  fst kv +:+ ": " +:+ snd kv +:+ crlf.

(** The same line as a reader has it, without the CR LF. *)
Definition field_line (kv : string * string) : bytes :=
  bytes_of (fst kv +:+ ": " +:+ snd kv).

(** The header block for the entries in the order [order]: one line each,
    then the empty line. *)
Definition header_block (order : list (string * string)) : bytes :=
  flat_map (fun kv => bytes_of (top_line kv)) order ++ CRLF.

(** The bytes of the body part and of an attachment part. *)
Definition body_part (boundary body : string) : bytes :=
  bytes_of ("--" +:+ boundary +:+ crlf)
  ++ bytes_of (Multipart.header_lines
                 [("Content-Type", ["text/plain; charset=utf-8"]);
                  ("Content-Transfer-Encoding", ["quoted-printable"])])
  ++ CRLF
  ++ QP.encode_all (bytes_of body).

Definition attachment_part (boundary : string) (part : string * string * bytes)
  : bytes :=
  let '(fileName, mimeType, payload) := part in
  bytes_of (crlf +:+ "--" +:+ boundary +:+ crlf)
  ++ bytes_of (Multipart.header_lines
                 [("Content-Type", [mimeType]);
                  ("Content-Transfer-Encoding", ["base64"]);
                  ("Content-Disposition",
                   ["attachment; filename=" +:+ dquote +:+ fileName +:+ dquote])])
  ++ CRLF
  ++ Base64.encode payload.

(** The bytes of a delivery: header block, body part, attachment parts. *)
Definition delivery (order : list (string * string)) (boundary body : string)
    (parts : list (string * string * bytes)) : bytes :=
  header_block order ++ body_part boundary body
  ++ flat_map (attachment_part boundary) parts.

(** The boundary token of the message [SendEmail] builds in world [w]. *)
Definition boundary_at (env : Env) (w : World) : string :=
  string_of (Hex.encode (fst (read_rand 30 env w))).

(** *** [SendEmail] step by step *)

(** One attachment part written after [writer]. *)
Definition add_attachment (writer : Multipart.Writer)
    (part : string * string * bytes) : Multipart.Writer :=
  let '(fileName, mimeType, payload) := part in
  Multipart.part_Write (Base64.encode payload)
    (Multipart.CreatePart
       [("Content-Type", [mimeType]);
        ("Content-Transfer-Encoding", ["base64"]);
        ("Content-Disposition",
         ["attachment; filename=" +:+ dquote +:+ fileName +:+ dquote])] writer).

(** The multipart writer as [SendEmail] has it when the SMTP exchange
    starts: opened on the random bytes [rnd], the header block in the order
    picked by [seed], the body part, the attachment parts. *)
Definition compose (rnd : bytes) (seed : nat) (from to subject body : string)
    (parts : list (string * string * bytes)) : Multipart.Writer :=
  let writer := NewWriter rnd in
  let writer :=
    fold_left (fun w kv => buf_WriteString (top_line kv) w)
      (go_range seed (top_headers from to subject (Multipart.Boundary writer)))
      writer in
  let writer := buf_WriteString crlf writer in
  fold_left add_attachment parts (fst (writeBody writer body)).

(** What the attachment loop reads: each buffer is read where the loop
    reaches it and is empty from then on. *)
Fixpoint drained (h : gmap nat bytes) (attachments : list Attachment)
  : list (string * string * bytes) * gmap nat bytes :=
  match attachments with
  | [] => ([], h)
  | a :: rest =>
      let (parts, h') := drained (<[file a := []]> h) rest in
      ((fileName a, mimeType a, default [] (h !! file a)) :: parts, h')
  end.

Definition set_heap (w : World) (h : gmap nat bytes) : World :=
  mkWorld h (rand_pos w) (ranges w) (queries w) (sessions w) (trace w).

Definition add_events (w : World) (events : list Event) : World :=
  mkWorld (heap w) (rand_pos w) (ranges w) (queries w) (sessions w)
          (trace w ++ events).

Definition error_of (failed : option (Stage * error)) : option error :=
  match failed with
  | Some (_, err) => Some err
  | None => None
  end.

(** The SMTP exchange [SendEmail] starts in world [w]. *)
Definition session_of (env : Env) (w : World)
    (smtpServer port username password from to subject body : string)
    (attachments : list Attachment) : Session :=
  mkSession (smtpServer +:+ ":" +:+ port) smtpServer username password from to
    (Multipart.w_out
       (compose (fst (read_rand 30 env w)) (env_range env (ranges w))
                from to subject body (fst (drained (heap w) attachments)))).

(** * Concrete environments and inputs

    The worlds, tables and configurations at which the theorems below are
    instantiated and at which the code is run. *)

(** A plain rendering of a workbook, standing in for the XLSX writer where
    a concrete environment is needed. *)
Definition render_cell (kv : Z * Z * string) : string :=
  itoa (fst (fst kv)) +:+ "," +:+ itoa (snd (fst kv)) +:+ "=" +:+ snd kv.

Definition plain_bytes (f : File) : bytes :=
  bytes_of (String.concat ";"
    (map render_cell (map_to_list (cells (f_sheets f) "Sheet1")))).

Definition plain_xlsx (f : File) : Result bytes := Ok (plain_bytes f).

(** An environment in which the database opens, the library writes and the
    mail server accepts; queries are answered from [tables], the random
    source is the byte sequence [rnd], the n-th map range takes the order
    [order n]. *)
Definition calm_env (tables : string -> Result SQL.Rows) (rnd : nat -> ascii)
    (order : nat -> nat) : Env :=
  mkEnv rnd order (fun _ => None) (fun _ => None) (fun _ q => tables q)
        plain_xlsx (fun _ => None) (fun _ _ => None)
        (fun _ => Err "open: no such file") (fun _ => None).

Definition zero_rnd : nat -> ascii := fun _ => "000"%char.

Definition counting_rnd : nat -> ascii := fun n => ascii_of_nat n.

Definition dm_handle : SQL.DB := SQL.mkDB "dm://SYSDBA:pw@dbhost:5236".

(** ** Tables *)

(** Two columns, two rows, one NULL. *)
Definition small_data : list (list SQL.RawBytes) :=
  [[Some (bytes_of "1"); None]; [Some (bytes_of "2"); Some (bytes_of "bob")]].

Definition small_table : SQL.Rows :=
  SQL.mkRows (Ok ["ID"; "NAME"]) (map Ok small_data) None.

Definition small_doc : File :=
  match workbook ["ID"; "NAME"] (SQL.rows_next small_table) with
  | Ok doc => doc
  | Err _ => NewFile
  end.

Definition small_env : Env :=
  calm_env (fun _ => Ok small_table) zero_rnd (fun n => n).

Definition small_export : Result nat * World :=
  exportTableToExcel small_env (SQL.mkDB "dm") "TEST_01" initial.

(** Two columns, no rows. *)
Definition two_columns : SQL.Rows := SQL.mkRows (Ok ["ID"; "NAME"]) [] None.

(** A table whose second row cannot be scanned. *)
Definition broken_table : SQL.Rows :=
  SQL.mkRows (Ok ["ID"; "NAME"])
             [Ok [Some (bytes_of "1"); None]; Err "driver: bad connection";
              Ok [Some (bytes_of "3"); Some (bytes_of "c")]]
             None.

(** One column, [TotalRows] rows: one row more than fits under the header. *)
Definition long_data : list (list SQL.RawBytes) :=
  replicate (Z.to_nat TotalRows) [Some (bytes_of "x")].

Definition long_table : SQL.Rows :=
  SQL.mkRows (Ok ["A"]) (map Ok long_data) None.

(** One more column than a sheet can hold, no rows. *)
Definition wide_columns : list string :=
  map (fun i => "C" +:+ itoa (Z.of_nat i)) (seq 1 (Z.to_nat (MaxColumns + 1))).

Definition wide_table : SQL.Rows := SQL.mkRows (Ok wide_columns) [] None.

(** ** Mail *)

(** A world with one buffer, holding the bytes of a document. *)
Definition one_buffer : World :=
  mkWorld {[ 7%nat := bytes_of "PK-document" ]} 0 0 0 0 [].

Definition quiet_env : Env :=
  calm_env (fun _ => Err "no such table") zero_rnd (fun _ => 3%nat).

(** A subject that holds a line break and, after it, a header line. *)
Definition subject_with_break : string := "S" +:+ crlf +:+ "To: evil@x".

(** An environment whose n-th [range] takes the n-th order, and the world
    in which one range has happened. *)
Definition counting_env : Env :=
  calm_env (fun _ => Err "no such table") zero_rnd (fun n => n).

Definition after_one_range : World := mkWorld ∅ 0 1 0 0 [].

(** ** Jobs *)

(** The configuration of the README: one post, two tables, two recipients. *)
Definition readme_config : Config :=
  mkConfig (mkEmailConfig "smtp.qq.com" 465 "u" "p")
           (mkDBConfig "dbhost" 5236 "SYSDBA" "pw")
           [mkPostConfig "a@qq.com" ["x@qq.com"; "y@qq.com"] "SUBJECT" "CONTENT"
              [mkTableAttachmentConfig "TEST_01" "01.xlsx";
               mkTableAttachmentConfig "TEST_02" "02.xlsx"]]
           "00 08 * * *".

Definition readme_env : Env :=
  calm_env (fun _ => Ok small_table) counting_rnd (fun n => n).

(** A database in which [T2] cannot be queried, and three posts of which
    the second needs [T2] as the second of its three tables. *)
Definition tables_without_T2 (query : string) : Result SQL.Rows :=
  if String.eqb query "SELECT * FROM T2" then Err "table or view does not exist"
  else Ok small_table.

Definition env_without_T2 : Env :=
  calm_env tables_without_T2 zero_rnd (fun n => n).

Definition first_post : PostConfig :=
  mkPostConfig "a@qq.com" ["x@qq.com"] "FIRST" "CONTENT"
               [mkTableAttachmentConfig "T1" "01.xlsx"].

Definition failing_post : PostConfig :=
  mkPostConfig "a@qq.com" ["x@qq.com"; "y@qq.com"] "SECOND" "CONTENT"
               [mkTableAttachmentConfig "T1" "01.xlsx";
                mkTableAttachmentConfig "T2" "02.xlsx";
                mkTableAttachmentConfig "T3" "03.xlsx"].

Definition last_post : PostConfig :=
  mkPostConfig "a@qq.com" ["z@qq.com"] "THIRD" "CONTENT"
               [mkTableAttachmentConfig "T3" "03.xlsx"].

Definition three_posts : Config :=
  mkConfig (mkEmailConfig "smtp.qq.com" 465 "u" "p")
           (mkDBConfig "dbhost" 5236 "SYSDBA" "pw")
           [first_post; failing_post; last_post]
           "00 08 * * *".

Definition after_first_post : World :=
  snd (task_posts env_without_T2 dm_handle three_posts [first_post]
                  (add_events initial [EvOpenDB "dm://SYSDBA:pw@dbhost:5236"])).



(** The quoted-printable writer on a whole string, and a string of [n]
    copies of [c], for the cases at the end. *)
Definition qp (s : string) : string := string_of (QP.encode_all (bytes_of s)).

Definition times (n : nat) (c : string) : string :=
  String.concat EmptyString (replicate n c).

(** * Vocabulary of the further properties *)

(** ** What a trace tells *)

(** The handles opened and the handles closed, the tables exported and the
    recipients of the exchanges that went through, in the order of the
    events. *)
Definition opened_handles (events : list Event) : list string :=
  flat_map (fun e => match e with EvOpenDB dsn => [dsn] | _ => [] end) events.

Definition closed_handles (events : list Event) : list string :=
  flat_map (fun e => match e with EvCloseDB dsn => [dsn] | _ => [] end) events.

Definition exported_tables (events : list Event) : list string :=
  flat_map (fun e => match e with EvExport t => [t] | _ => [] end) events.

Definition delivered_to (events : list Event) : list string :=
  flat_map (fun e => match e with EvSession s None => [s_to s] | _ => [] end)
           events.

(** The events the loops of [task] leave: exports, messages, exchanges and
    the two failures. *)
Definition loop_event (e : Event) : bool :=
  match e with
  | EvExport _ | EvBuild _ _ | EvSession _ _ | EvExportFailed _ _
  | EvSendFailed _ _ => true
  | _ => false
  end.

(** The data source name [createDMDB] builds. *)
Definition dsn_of (username password host port : string) : string :=
  "dm://" +:+ username +:+ ":" +:+ password +:+ "@" +:+ host +:+ ":" +:+ port.

(** A mail server that refuses the recipient of the second exchange. *)
Definition env_second_refused : Env :=
  mkEnv counting_rnd (fun n => n) (fun _ => None) (fun _ => None)
        (fun _ _ => Ok small_table) plain_xlsx (fun _ => None)
        (fun n _ => if (n =? 1)%nat then Some (StRcpt, "550 no such user")
                    else None)
        (fun _ => Err "open: no such file or directory")
        (fun _ => None).

(** Two posts, the first with two recipients. *)
Definition two_posts : Config :=
  mkConfig (mkEmailConfig "smtp.qq.com" 465 "u" "p")
           (mkDBConfig "dbhost" 5236 "SYSDBA" "pw")
           [failing_post; last_post]
           "00 08 * * *".

(** The run of [two_posts] against that server: the world once the three
    tables of the first post are exported, the attachments made of them,
    and the world once the first recipient is served. *)
Definition after_exports : World :=
  snd (task_attachments env_second_refused dm_handle
         (Attachment_ failing_post) []
         (add_events initial [EvOpenDB "dm://SYSDBA:pw@dbhost:5236"])).

Definition exported_attachments : list Attachment :=
  default []
    (fst (task_attachments env_second_refused dm_handle
            (Attachment_ failing_post) []
            (add_events initial [EvOpenDB "dm://SYSDBA:pw@dbhost:5236"]))).

Definition after_first_recipient : World :=
  snd (task_recipients env_second_refused two_posts failing_post
         exported_attachments ["x@qq.com"] after_exports).

(** The parts a list of attachments gives when every buffer is empty. *)
Definition empty_parts (attachments : list Attachment)
  : list (string * string * bytes) :=
  map (fun a => (fileName a, mimeType a, [])) attachments.

(** ** The exporter *)

(** The ways the spreadsheet library can fail an export with error [e]
    once the database has delivered everything: [file.Write] fails, or it
    writes the document [d] and [file.Close] fails. *)
Inductive LibraryFailure (env : Env) (w : World) (tableName : string)
  : error -> Prop :=
| WriteFailed rows columns doc e :
    env_query env (queries w) ("SELECT * FROM " +:+ tableName) = Ok rows ->
    SQL.rows_columns rows = Ok columns ->
    workbook columns (SQL.rows_next rows) = Ok doc ->
    SQL.rows_err rows = None ->
    env_xlsx_write env doc = Err e ->
    LibraryFailure env w tableName e
| CloseFailed rows columns doc d e :
    env_query env (queries w) ("SELECT * FROM " +:+ tableName) = Ok rows ->
    SQL.rows_columns rows = Ok columns ->
    workbook columns (SQL.rows_next rows) = Ok doc ->
    SQL.rows_err rows = None ->
    env_xlsx_write env doc = Ok d ->
    env_xlsx_close env doc = Some e ->
    LibraryFailure env w tableName e.

(** A scanned row in which every SQL NULL is replaced by the four
    characters of the text NULL. *)
Definition spell_null (v : SQL.RawBytes) : SQL.RawBytes :=
  match v with
  | None => Some (bytes_of "NULL")
  | Some b => Some b
  end.

Definition spell_nulls (row : Result (list SQL.RawBytes))
  : Result (list SQL.RawBytes) :=
  match row with
  | Ok cells => Ok (map spell_null cells)
  | Err e => Err e
  end.

(** A spreadsheet library whose [file.Close] fails. *)
Definition env_close_fails : Env :=
  mkEnv zero_rnd (fun n => n) (fun _ => None) (fun _ => None)
        (fun _ _ => Ok small_table) plain_xlsx
        (fun _ => Some "close: bad file descriptor")
        (fun _ _ => None)
        (fun _ => Err "open: no such file or directory")
        (fun _ => None).

(** A value of 32768 characters, one more than a cell takes, in a table of
    one column and one row. *)
Definition long_value : bytes := replicate (Z.to_nat 32768) "a"%char.

(** ** The body part *)

(** What a reader of the body part gets for the text [p]: every byte of
    [p], with each line break written as CR LF. [cr] says that the last
    line break came from a CR, so that an LF completing it adds nothing;
    the flag outlasts bytes the writer escapes, as [Writer.cr] does. *)
Fixpoint text_mode (cr : bool) (p : bytes) : bytes :=
  match p with
  | [] => []
  | b :: rest =>
      if Ascii.eqb b LF then
        if cr then text_mode false rest else CR :: LF :: text_mode false rest
      else if Ascii.eqb b CR then CR :: LF :: text_mode true rest
      else if QP.literal b then b :: text_mode false rest
      else b :: text_mode cr rest
  end.

(** Every LF as CR LF. *)
Definition lf_to_crlf (p : bytes) : bytes :=
  flat_map (fun b => if Ascii.eqb b LF then CRLF else [b]) p.

(** A text whose line breaks are all CR LF: no CR without an LF after it,
    no LF without a CR before it. *)
Fixpoint canonical_breaks (p : bytes) : bool :=
  match p with
  | [] => true
  | b :: rest =>
      if Ascii.eqb b CR then
        match rest with
        | c :: rest' => Ascii.eqb c LF && canonical_breaks rest'
        | [] => false
        end
      else negb (Ascii.eqb b LF) && canonical_breaks rest
  end.

(** A printable ASCII character or a tab. *)
Definition printable_char (c : ascii) : Prop :=
  c = "009"%char \/ (32 <= byte_val c <= 126)%N.

(** A line as RFC 2045 wants it in quoted-printable text: at most 76
    characters, all printable, the last one neither space nor tab. *)
Definition qp_line_ok (l : bytes) : Prop :=
  (length l <= 76)%nat /\ Forall printable_char l /\
  forall c, last l = Some c -> QP.isWhitespace c = false.

(** *** The writer's output, token by token

    A token is a byte written as itself or a byte written as [=XY]; a line
    is a run of tokens that ends in a soft break ([=] before the CR LF) or
    in a line break of the text. *)
Inductive Token :=
| Lit (b : ascii)
| Esc (b : ascii).

Definition token_text (t : Token) : bytes :=
  match t with
  | Lit b => [b]
  | Esc b => "="%char :: Hex.encode_byte Hex.upperhex b
  end.

Definition token_byte (t : Token) : ascii :=
  match t with
  | Lit b => b
  | Esc b => b
  end.

Definition line_text (l : list Token * bool) : bytes :=
  flat_map token_text (fst l) ++ (if snd l then ["="%char] else []).

Definition line_bytes (l : list Token * bool) : bytes := line_text l ++ CRLF.

Definition line_value (l : list Token * bool) : bytes :=
  map token_byte (fst l) ++ (if snd l then [] else CRLF).

Definition text_of_tokens (lines : list (list Token * bool))
    (cur : list Token) : bytes :=
  flat_map line_value lines ++ map token_byte cur.

(** The bytes the writer passes through: literal and no line break. *)
Definition plain_byte (b : ascii) : bool :=
  QP.literal b && negb (Ascii.eqb b LF) && negb (Ascii.eqb b CR).

Definition good_token (t : Token) : Prop :=
  match t with
  | Lit b => plain_byte b = true
  | Esc _ => True
  end.

Definition good_line (l : list Token * bool) : Prop :=
  Forall good_token (fst l) /\ qp_line_ok (line_text l).

(** The writer [w] has flushed the lines [lines] and holds the tokens
    [cur] in its line buffer. *)
Definition Rep (w : QP.Writer) (lines : list (list Token * bool))
    (cur : list Token) : Prop :=
  QP.qp_out w = flat_map line_bytes lines /\
  QP.qp_line w = flat_map token_text cur /\
  Forall good_line lines /\
  Forall good_token cur /\
  (length (QP.qp_line w) <= 75)%nat.

(** Two lines of text, the first with a space at its end, separated by LF
    and by CR LF. *)
Definition two_lines : string := "one " +:+ String LF "two".

Definition two_lines_crlf : string := "one " +:+ crlf +:+ "two".

(** *** Where a marker can stand

    [keeps needle text read]: what the quoted-printable text [text] shows
    of runs of plain bytes, the bytes it is read as, [read], show too. A
    run of plain bytes that [text] starts with, [read] starts with; and if
    [needle] occurs in [text], it occurs in [read]. *)
Definition keeps (needle text read : bytes) : Prop :=
  (forall n, Forall (fun c => plain_byte c = true) n ->
             has_prefix n text = true -> has_prefix n read = true) /\
  (contains needle text = true -> contains needle read = true).

(** A body that holds two hyphens nowhere. *)
Definition no_hyphens : string := "plain text = no marker".

(** *** Plain text

    Lines put together with a separator between them, and a line the
    writer has no reason to touch: at most 75 bytes, all of them passed
    through as they are, the last one neither space nor tab. *)
Fixpoint join_lines (sep : bytes) (ls : list bytes) : bytes :=
  match ls with
  | [] => []
  | l :: ls' =>
      match ls' with
      | [] => l
      | _ :: _ => l ++ sep ++ join_lines sep ls'
      end
  end.

Definition plain_line (l : bytes) : Prop :=
  Forall (fun c => plain_byte c = true) l /\
  (length l <= 75)%nat /\
  forall c, last l = Some c -> QP.isWhitespace c = false.

(** Three lines of plain text, the second one empty. *)
Definition three_plain_lines : list bytes :=
  [bytes_of "Dear all,"; []; bytes_of "the tables of today are attached."].

Definition plain_body : string := string_of (join_lines [LF] three_plain_lines).

(** ** The message on the wire *)

(** The lines that open the body part and an attachment part: the
    delimiter line, the part's headers in the order [CreatePart] writes
    them, the empty line. *)
Definition body_head (boundary : string) : string :=
  "--" +:+ boundary +:+ crlf
  +:+ "Content-Transfer-Encoding: quoted-printable" +:+ crlf
  +:+ "Content-Type: text/plain; charset=utf-8" +:+ crlf
  +:+ crlf.

Definition attachment_head (boundary fileName mimeType : string) : string :=
  crlf +:+ "--" +:+ boundary +:+ crlf
  +:+ "Content-Disposition: attachment; filename=" +:+ dquote +:+ fileName
  +:+ dquote +:+ crlf
  +:+ "Content-Transfer-Encoding: base64" +:+ crlf
  +:+ "Content-Type: " +:+ mimeType +:+ crlf
  +:+ crlf.
(** * Facts about the encoders *)

(** ** Base64 decodes to what was encoded *)

Section Base64Facts.

Local Open Scope N_scope.

Lemma land_shifted_low x y k : y < 2 ^ k -> N.land (x * 2 ^ k) y = 0.
Proof.
  intros Hy. apply N.bits_inj_0. intros n. rewrite N.land_spec.
  destruct (N.lt_ge_cases n k) as [Hn|Hn].
  - by rewrite N.mul_pow2_bits_low.
  - rewrite <- (N.mod_small y (2 ^ k)) by done.
    rewrite N.mod_pow2_bits_high by done. apply andb_false_r.
Qed.

Lemma lor_low x y k c : c = 2 ^ k -> y < c -> N.lor (x * c) y = x * c + y.
Proof.
  intros -> Hy.
  rewrite N.add_nocarry_lxor, N.lxor_lor; auto using land_shifted_low.
Qed.

Lemma quantum_value x y z t :
  x < 64 -> y < 64 -> z < 64 -> t < 64 ->
  Base64.quantum x y z t = x * 262144 + y * 4096 + z * 64 + t.
Proof.
  intros Hx Hy Hz Ht. unfold Base64.quantum. rewrite !N.shiftl_mul_pow2.
  change (2 ^ 18) with 262144. change (2 ^ 12) with 4096.
  change (2 ^ 6) with 64.
  rewrite (lor_low x (y * 4096) 18 262144) by (reflexivity || lia).
  replace (x * 262144 + y * 4096) with ((x * 64 + y) * 4096) by lia.
  rewrite (lor_low _ (z * 64) 12 4096) by (reflexivity || lia).
  replace ((x * 64 + y) * 4096 + z * 64) with ((x * 4096 + y * 64 + z) * 64)
    by lia.
  rewrite (lor_low _ t 6 64) by (reflexivity || lia). lia.
Qed.

Lemma group_value a b c :
  a < 256 -> b < 256 -> c < 256 ->
  N.lor (N.lor (N.shiftl a 16) (N.shiftl b 8)) c = a * 65536 + b * 256 + c.
Proof.
  intros Ha Hb Hc. rewrite !N.shiftl_mul_pow2.
  change (2 ^ 16) with 65536. change (2 ^ 8) with 256.
  rewrite (lor_low a (b * 256) 16 65536) by (reflexivity || lia).
  replace (a * 65536 + b * 256) with ((a * 256 + b) * 256) by lia.
  rewrite (lor_low _ c 8 256) by (reflexivity || lia). lia.
Qed.

Local Ltac divmod := zify; Z.to_euclidean_division_equations; lia.

Lemma sextets_of v :
  v < 16777216 ->
  (v / 262144) mod 64 * 262144 + (v / 4096) mod 64 * 4096
  + (v / 64) mod 64 * 64 + v mod 64 = v.
Proof. intros Hv. divmod. Qed.

Lemma dec_enc n :
  n < 64 -> Base64.dec (Base64.enc n) = Some n /\ Base64.enc n <> Base64.padChar.
Proof.
  intros Hn.
  assert (forallb (fun k =>
            match Base64.dec (Base64.enc (N.of_nat k)) with
            | Some m => N.eqb m (N.of_nat k)
            | None => false
            end && negb (Ascii.eqb (Base64.enc (N.of_nat k)) Base64.padChar))
            (seq 0 64) = true) as Hall by (vm_compute; reflexivity).
  rewrite forallb_forall in Hall.
  specialize (Hall (N.to_nat n)). rewrite N2Nat.id in Hall.
  assert (In (N.to_nat n) (seq 0 64)) as Hin by (apply in_seq; lia).
  apply Hall in Hin. apply andb_true_iff in Hin as [H1 H2].
  split.
  - destruct (Base64.dec (Base64.enc n)) as [m|]; [|done].
    apply N.eqb_eq in H1. by subst.
  - intros Heq. rewrite Heq in H2.
    by rewrite (proj2 (Ascii.eqb_eq _ _) eq_refl) in H2.
Qed.

Lemma sextet_back v s :
  Base64.dec (Base64.sextet v s) = Some ((v / 2 ^ s) mod 64) /\
  Ascii.eqb (Base64.sextet v s) Base64.padChar = false.
Proof.
  unfold Base64.sextet. rewrite N.shiftr_div_pow2.
  change 63 with (N.ones 6). rewrite N.land_ones. change (2 ^ 6) with 64.
  assert ((v / 2 ^ s) mod 64 < 64) as Hlt by (apply N.mod_lt; done).
  destruct (dec_enc _ Hlt) as [H1 H2]. split; [done|].
  by apply Ascii.eqb_neq.
Qed.

Lemma byte_at_back v s a :
  (v / 2 ^ s) mod 256 = byte_val a -> Base64.byte_at v s = a.
Proof.
  intros H. unfold Base64.byte_at. rewrite N.shiftr_div_pow2.
  change 255 with (N.ones 8). rewrite N.land_ones. change (2 ^ 8) with 256.
  rewrite H. apply ascii_N_embedding.
Qed.

Lemma byte_val_bounded a : byte_val a < 256.
Proof. apply N_ascii_bounded. Qed.

Lemma encode_nil_inv l : Base64.encode l = [] -> l = [].
Proof. by destruct l as [|a [|b [|c rest]]]. Qed.

Lemma decode_more a b c d e l :
  Base64.decode (a :: b :: c :: d :: e :: l)
  = match Base64.dec a, Base64.dec b, Base64.dec c, Base64.dec d,
          Base64.decode (e :: l) with
    | Some x, Some y, Some z, Some t, Some out =>
        let v := Base64.quantum x y z t in
        Some (Base64.byte_at v 16 :: Base64.byte_at v 8 :: Base64.byte_at v 0
                :: out)
    | _, _, _, _, _ => None
    end.
Proof. reflexivity. Qed.

(** Whatever the attachment holds, decoding the base64 text written for it
    gives its bytes back. *)
Lemma base64_decode_encode (src : bytes) :
  Base64.decode (Base64.encode src) = Some src.
Proof.
  assert (forall n (l : bytes), (length l <= n)%nat ->
            Base64.decode (Base64.encode l) = Some l) as H.
  { induction n as [|n IH]; intros l Hl.
    - destruct l; [done|simpl in Hl; lia].
    - destruct l as [|a [|b [|c rest]]]; [done| | |].
      + cbn [Base64.encode Base64.decode].
        pose proof (byte_val_bounded a).
        set (v := N.shiftl (byte_val a) 16).
        assert (v = byte_val a * 65536) as Hv
          by (subst v; by rewrite N.shiftl_mul_pow2).
        destruct (sextet_back v 18) as [-> _].
        destruct (sextet_back v 12) as [-> _].
        rewrite (proj2 (Ascii.eqb_eq _ _) eq_refl).
        do 2 f_equal. apply byte_at_back.
        rewrite quantum_value by (try apply N.mod_lt; done).
        change (2 ^ 18) with 262144. change (2 ^ 12) with 4096.
        change (2 ^ 16) with 65536. divmod.
      + cbn [Base64.encode Base64.decode].
        pose proof (byte_val_bounded a). pose proof (byte_val_bounded b).
        set (v := N.lor _ _).
        assert (v = byte_val a * 65536 + byte_val b * 256) as Hv.
        { subst v. pose proof (group_value (byte_val a) (byte_val b) 0) as G.
          rewrite N.lor_0_r, N.add_0_r in G. apply G; lia. }
        destruct (sextet_back v 18) as [-> _].
        destruct (sextet_back v 12) as [-> _].
        destruct (sextet_back v 6) as [-> ->].
        rewrite (proj2 (Ascii.eqb_eq _ _) eq_refl).
        rewrite quantum_value by (try apply N.mod_lt; done).
        change (2 ^ 18) with 262144. change (2 ^ 12) with 4096.
        change (2 ^ 6) with 64.
        do 2 f_equal; [|f_equal]; apply byte_at_back;
          change (2 ^ 16) with 65536; change (2 ^ 8) with 256; divmod.
      + cbn [Base64.encode].
        pose proof (byte_val_bounded a). pose proof (byte_val_bounded b).
        pose proof (byte_val_bounded c).
        set (v := N.lor _ _).
        assert (v = byte_val a * 65536 + byte_val b * 256 + byte_val c) as Hv
          by (subst v; by apply group_value).
        assert (Base64.decode (Base64.encode rest) = Some rest) as Hrest.
        { apply IH. simpl in Hl. lia. }
        assert (Base64.byte_at
                  (Base64.quantum ((v / 2 ^ 18) mod 64) ((v / 2 ^ 12) mod 64)
                                  ((v / 2 ^ 6) mod 64) ((v / 2 ^ 0) mod 64)) 16 = a
                /\ Base64.byte_at
                  (Base64.quantum ((v / 2 ^ 18) mod 64) ((v / 2 ^ 12) mod 64)
                                  ((v / 2 ^ 6) mod 64) ((v / 2 ^ 0) mod 64)) 8 = b
                /\ Base64.byte_at
                  (Base64.quantum ((v / 2 ^ 18) mod 64) ((v / 2 ^ 12) mod 64)
                                  ((v / 2 ^ 6) mod 64) ((v / 2 ^ 0) mod 64)) 0 = c)
          as (Ha & Hb & Hc).
        { rewrite quantum_value by (try apply N.mod_lt; done).
          change (2 ^ 18) with 262144. change (2 ^ 12) with 4096.
          change (2 ^ 6) with 64. change (2 ^ 0) with 1.
          repeat split; apply byte_at_back;
            change (2 ^ 16) with 65536; change (2 ^ 8) with 256;
            change (2 ^ 0) with 1; divmod. }
        destruct (Base64.encode rest) as [|e1 erest] eqn:Henc.
        * apply encode_nil_inv in Henc. subst rest.
          cbn [Base64.decode].
          destruct (sextet_back v 18) as [-> _].
          destruct (sextet_back v 12) as [-> _].
          destruct (sextet_back v 6) as [-> _].
          destruct (sextet_back v 0) as [-> ->].
          by rewrite Ha, Hb, Hc.
        * rewrite decode_more.
          destruct (sextet_back v 18) as [-> _].
          destruct (sextet_back v 12) as [-> _].
          destruct (sextet_back v 6) as [-> _].
          destruct (sextet_back v 0) as [-> _].
          rewrite Hrest. cbv zeta. by rewrite Ha, Hb, Hc. }
  by apply (H (length src)).
Qed.

End Base64Facts.

(** * The exporter *)

(** ** The loops, on the cells of the sheet *)

Lemma SetCellValue_sheet1 m a col row v :
  fst (SetCellValue (sheet1 m a) "Sheet1"
         (fst (CoordinatesToCellName col row)) v)
  = sheet1 (put m col row v) a.
Proof.
  unfold CoordinatesToCellName, put, SetCellValue, valid_coordinates,
    TotalRows, MaxColumns.
  destruct (Z.ltb_spec col 1), (Z.ltb_spec row 1), (Z.ltb_spec 1048576 row),
    (Z.ltb_spec 16384 col); simpl;
    repeat match goal with
           | |- context [?a <=? ?b] => destruct (Z.leb_spec a b); simpl
           end; try reflexivity; lia.
Qed.

Lemma export_header_sheet1 m a i columns :
  export_header (sheet1 m a) "Sheet1" i columns
  = sheet1 (write_texts m 1 i columns) a.
Proof.
  revert m i. induction columns as [|c rest IH]; intros m i; simpl; [done|].
  pose proof (SetCellValue_sheet1 m a (i + 1) 1 c) as H.
  destruct (CoordinatesToCellName (i + 1) 1) as [cell e]. simpl in H.
  destruct (SetCellValue (sheet1 m a) "Sheet1" cell c) as [f e'].
  simpl in H. subst f. apply IH.
Qed.

Lemma export_row_sheet1 m a r j values :
  export_row (sheet1 m a) "Sheet1" r j values
  = sheet1 (write_texts m r j (map cell_text values)) a.
Proof.
  revert m j. induction values as [|v rest IH]; intros m j; simpl; [done|].
  pose proof (SetCellValue_sheet1 m a (j + 1) r (cell_text v)) as H.
  destruct (CoordinatesToCellName (j + 1) r) as [cell e]. simpl in H.
  destruct v as [v|]; simpl in H;
    match goal with
    | |- context [SetCellValue ?f ?s ?c ?t] =>
        destruct (SetCellValue f s c t) as [f' e']
    end; simpl in H; subst f'; apply IH.
Qed.

Lemma export_rows_sheet1 m a ncols r data :
  Forall (fun row => length row = ncols) data ->
  export_rows (sheet1 m a) "Sheet1" ncols r (map Ok data)
  = Ok (sheet1 (write_rows m r data) a).
Proof.
  intros H. revert m r. induction H as [|row rest Hrow _ IH]; intros m r;
    simpl; [done|].
  rewrite Hrow, Nat.eqb_refl, export_row_sheet1. apply IH.
Qed.

Lemma export_rows_Ok_inv f ncols r next f' :
  export_rows f "Sheet1" ncols r next = Ok f' ->
  exists data, next = map Ok data /\ Forall (fun row => length row = ncols) data.
Proof.
  revert f r. induction next as [|row rest IH]; intros f r H; simpl in H.
  - exists []. by split.
  - destruct row as [cells|e]; simpl in H; [|done].
    destruct (Nat.eqb_spec (length cells) ncols) as [Hlen|]; [|done].
    apply IH in H as (data & -> & Hall). exists (cells :: data).
    split; [done|]. by constructor.
Qed.

Lemma export_rows_scan_error f ncols r good bad rest e :
  Forall (fun row => length row = ncols) good ->
  SQL.Scan ncols bad = Err e ->
  export_rows f "Sheet1" ncols r (map Ok good ++ bad :: rest) = Err e.
Proof.
  intros Hgood Hbad. revert f r.
  induction Hgood as [|row good Hrow _ IH]; intros f r; simpl.
  - by rewrite Hbad.
  - rewrite Hrow, Nat.eqb_refl. apply IH.
Qed.

Lemma export_rows_all_scanned f ncols r data :
  Forall (fun row => length row = ncols) data ->
  exists f', export_rows f "Sheet1" ncols r (map Ok data) = Ok f'.
Proof.
  intros H. revert f r. induction H as [|row rest Hrow _ IH]; intros f r;
    simpl; [eauto|].
  rewrite Hrow, Nat.eqb_refl. apply IH.
Qed.

Lemma map_Ok_inj {A} (l1 l2 : list A) :
  map Ok l1 = map Ok l2 -> l1 = l2.
Proof.
  revert l2. induction l1 as [|x l1 IH]; intros [|y l2] H; simpl in H;
    try done.
  injection H as -> H. f_equal. by apply IH.
Qed.

Lemma workbook_ok columns data :
  Forall (fun row => length row = length columns) data ->
  workbook columns (map Ok data)
  = Ok (sheet1 (write_rows (write_texts ∅ 1 0 columns) 2 data) 0).
Proof.
  intros H. unfold workbook. change NewFile with (sheet1 ∅ 0).
  rewrite export_header_sheet1, export_rows_sheet1 by done. done.
Qed.

(** ** Where the header loop and the row loop write *)

Lemma put_lookup_ne m col row v k :
  k <> (col, row) -> put m col row v !! k = m !! k.
Proof.
  intros Hk. unfold put. destruct (valid_coordinates col row); [|done].
  by rewrite lookup_insert_ne.
Qed.

Lemma put_lookup_invalid m col row v c r :
  valid_coordinates c r = false -> put m col row v !! (c, r) = m !! (c, r).
Proof.
  intros Hv. unfold put. destruct (valid_coordinates col row) eqn:E; [|done].
  apply lookup_insert_ne. intros [= -> ->]. congruence.
Qed.

Lemma write_texts_lookup_other_row m r j texts c r' :
  r' <> r -> write_texts m r j texts !! (c, r') = m !! (c, r').
Proof.
  intros Hr. revert m j. induction texts as [|t rest IH]; intros m j; simpl;
    [done|].
  rewrite IH. apply put_lookup_ne. congruence.
Qed.

Lemma write_texts_lookup_before m r j texts c r' :
  c <= j -> write_texts m r j texts !! (c, r') = m !! (c, r').
Proof.
  revert m j. induction texts as [|t rest IH]; intros m j Hc; simpl; [done|].
  rewrite IH by lia. apply put_lookup_ne. intros [= -> ->]. lia.
Qed.

Lemma write_texts_lookup_invalid m r j texts c r' :
  valid_coordinates c r' = false ->
  write_texts m r j texts !! (c, r') = m !! (c, r').
Proof.
  intros Hv. revert m j. induction texts as [|t rest IH]; intros m j; simpl;
    [done|].
  rewrite IH. by apply put_lookup_invalid.
Qed.

Lemma write_texts_lookup_after m r j texts c r' :
  j + Z.of_nat (length texts) < c ->
  write_texts m r j texts !! (c, r') = m !! (c, r').
Proof.
  revert m j. induction texts as [|t rest IH]; intros m j Hc; simpl in *;
    [done|].
  rewrite IH by lia. apply put_lookup_ne. intros [= -> ->]. lia.
Qed.

Lemma write_texts_lookup m r j texts k t :
  texts !! k = Some t ->
  valid_coordinates (j + Z.of_nat k + 1) r = true ->
  write_texts m r j texts !! (j + Z.of_nat k + 1, r) = Some (setCellString t).
Proof.
  revert m j k. induction texts as [|t' rest IH]; intros m j k Hk Hv;
    [done|].
  destruct k as [|k].
  - injection Hk as ->. replace (j + Z.of_nat 0 + 1) with (j + 1) in * by lia.
    simpl. rewrite write_texts_lookup_before by lia.
    unfold put. rewrite Hv. apply lookup_insert_eq.
  - replace (j + Z.of_nat (S k) + 1) with ((j + 1) + Z.of_nat k + 1) in * by lia.
    simpl. by apply IH.
Qed.

Lemma write_rows_lookup_before m r data c r' :
  r' < r -> write_rows m r data !! (c, r') = m !! (c, r').
Proof.
  revert m r. induction data as [|values rest IH]; intros m r Hr; simpl;
    [done|].
  rewrite IH by lia. apply write_texts_lookup_other_row. lia.
Qed.

Lemma write_rows_lookup_after m r data c r' :
  r + Z.of_nat (length data) <= r' ->
  write_rows m r data !! (c, r') = m !! (c, r').
Proof.
  revert m r. induction data as [|values rest IH]; intros m r Hr; simpl in *;
    [done|].
  rewrite IH by lia. apply write_texts_lookup_other_row. lia.
Qed.

Lemma write_rows_lookup_invalid m r data c r' :
  valid_coordinates c r' = false ->
  write_rows m r data !! (c, r') = m !! (c, r').
Proof.
  intros Hv. revert m r. induction data as [|values rest IH]; intros m r;
    simpl; [done|].
  rewrite IH. by apply write_texts_lookup_invalid.
Qed.

Lemma write_rows_lookup m r data n values k v :
  data !! n = Some values -> values !! k = Some v ->
  valid_coordinates (Z.of_nat k + 1) (r + Z.of_nat n) = true ->
  write_rows m r data !! (Z.of_nat k + 1, r + Z.of_nat n)
  = Some (setCellString (cell_text v)).
Proof.
  revert m r n. induction data as [|values' rest IH]; intros m r n Hn Hk Hv;
    [done|].
  destruct n as [|n].
  - injection Hn as ->. replace (r + Z.of_nat 0) with r in * by lia.
    simpl. rewrite write_rows_lookup_before by lia.
    apply (write_texts_lookup _ _ 0 _ k); [|done].
    by rewrite list_lookup_fmap, Hk.
  - replace (r + Z.of_nat (S n)) with ((r + 1) + Z.of_nat n) in * by lia.
    simpl. by apply IH.
Qed.

(** ** Cells per row *)

Lemma put_filter_other_row m col row v r' :
  r' <> row -> filter (in_row r') (put m col row v) = filter (in_row r') m.
Proof.
  intros Hr. unfold put. destruct (valid_coordinates col row); [|done].
  apply map_filter_insert_not. intros y. simpl. congruence.
Qed.

Lemma write_texts_filter_other_row m r j texts r' :
  r' <> r ->
  filter (in_row r') (write_texts m r j texts) = filter (in_row r') m.
Proof.
  intros Hr. revert m j. induction texts as [|t rest IH]; intros m j; simpl;
    [done|].
  rewrite IH. by apply put_filter_other_row.
Qed.

Lemma write_texts_row_size m r j texts :
  1 <= r <= TotalRows -> 0 <= j ->
  j + Z.of_nat (length texts) <= MaxColumns ->
  (forall c, j < c -> m !! (c, r) = None) ->
  size (filter (in_row r) (write_texts m r j texts))
  = (size (filter (in_row r) m) + length texts)%nat.
Proof.
  intros Hr. revert m j. induction texts as [|t rest IH]; intros m j Hj Hlen Hm;
    simpl in *; [lia|].
  rewrite IH; try lia.
  - unfold put.
    assert (valid_coordinates (j + 1) r = true) as ->.
    { unfold valid_coordinates, TotalRows, MaxColumns in *.
      repeat (apply andb_true_intro; split); apply Z.leb_le; lia. }
    rewrite map_filter_insert_True by done.
    rewrite map_size_insert_None; [lia|].
    apply map_lookup_filter_None_2. left. apply Hm. lia.
  - intros c Hc. rewrite put_lookup_ne; [apply Hm; lia|].
    intros [= -> ]. lia.
Qed.

Lemma write_rows_filter_before m r data r' :
  r' < r -> filter (in_row r') (write_rows m r data) = filter (in_row r') m.
Proof.
  revert m r. induction data as [|values rest IH]; intros m r Hr; simpl;
    [done|].
  rewrite IH by lia. apply write_texts_filter_other_row. lia.
Qed.

Lemma write_rows_filter_after m r data r' :
  r + Z.of_nat (length data) <= r' ->
  filter (in_row r') (write_rows m r data) = filter (in_row r') m.
Proof.
  revert m r. induction data as [|values rest IH]; intros m r Hr; simpl in *;
    [done|].
  rewrite IH by lia. apply write_texts_filter_other_row. lia.
Qed.

Lemma filter_row_empty (m : gmap (Z * Z) string) r :
  (forall c, m !! (c, r) = None) -> filter (in_row r) m = ∅.
Proof.
  intros Hm. apply map_empty. intros [c r'].
  apply map_lookup_filter_None_2.
  destruct (decide (r' = r)) as [->|Hne]; [left; apply Hm|].
  right. intros x _. simpl. done.
Qed.

Lemma write_rows_row_size m r data n values :
  data !! n = Some values ->
  1 <= r -> r + Z.of_nat n <= TotalRows ->
  Z.of_nat (length values) <= MaxColumns ->
  (forall c, m !! (c, r + Z.of_nat n) = None) ->
  size (filter (in_row (r + Z.of_nat n)) (write_rows m r data))
  = length values.
Proof.
  revert m r n. induction data as [|values' rest IH];
    intros m r n Hn Hr Hmax Hlen Hm; [done|].
  destruct n as [|n].
  - injection Hn as ->. replace (r + Z.of_nat 0) with r in * by lia.
    simpl. rewrite write_rows_filter_before by lia.
    rewrite write_texts_row_size; try lia.
    + rewrite filter_row_empty by done. rewrite map_size_empty, length_map.
      done.
    + rewrite length_map. lia.
    + intros c _. apply Hm.
  - replace (r + Z.of_nat (S n)) with ((r + 1) + Z.of_nat n) in * by lia.
    simpl. apply IH; try done; try lia.
    intros c. rewrite write_texts_lookup_other_row by lia. apply Hm.
Qed.

(** ** The limits of a sheet *)

Lemma setCellString_short s :
  countUTF16String s <= TotalCellChars -> setCellString s = s.
Proof.
  intros H. unfold setCellString.
  destruct (Z.ltb_spec TotalCellChars (countUTF16String s)); [lia|done].
Qed.

Lemma setCellString_cell_text v : setCellString (cell_text v) = rendered v.
Proof. by destruct v. Qed.

Lemma valid_coordinates_intro c r :
  1 <= c <= MaxColumns -> 1 <= r <= TotalRows -> valid_coordinates c r = true.
Proof.
  intros Hc Hr. unfold valid_coordinates.
  repeat (apply andb_true_intro; split); apply Z.leb_le; lia.
Qed.

Lemma valid_coordinates_row_limit c r :
  TotalRows < r -> valid_coordinates c r = false.
Proof.
  intros Hr. unfold valid_coordinates.
  destruct (Z.leb_spec r TotalRows); [lia|].
  by rewrite !andb_false_r.
Qed.

Lemma valid_coordinates_column_limit c r :
  MaxColumns < c -> valid_coordinates c r = false.
Proof.
  intros Hr. unfold valid_coordinates.
  destruct (Z.leb_spec c MaxColumns); [lia|].
  by rewrite andb_false_r.
Qed.

Lemma workbook_beyond_limits columns data doc c r :
  Forall (fun row => length row = length columns) data ->
  workbook columns (map Ok data) = Ok doc ->
  valid_coordinates c r = false ->
  GetCell doc "Sheet1" c r = None.
Proof.
  intros Hlen Hdoc Hv. rewrite workbook_ok in Hdoc by done.
  injection Hdoc as <-. unfold GetCell. simpl.
  rewrite write_rows_lookup_invalid, write_texts_lookup_invalid by done.
  done.
Qed.

Lemma workbook_row_beyond_limit columns data doc r :
  Forall (fun row => length row = length columns) data ->
  workbook columns (map Ok data) = Ok doc ->
  TotalRows < r ->
  row_cells doc "Sheet1" r = ∅.
Proof.
  intros Hlen Hdoc Hr. rewrite workbook_ok in Hdoc by done.
  injection Hdoc as <-. unfold row_cells. simpl.
  apply filter_row_empty. intros c.
  rewrite write_rows_lookup_invalid, write_texts_lookup_invalid;
    auto using valid_coordinates_row_limit.
Qed.

(** ** [exportTableToExcel], path by path *)

Lemma exportTableToExcel_unfold env db tableName w :
  exportTableToExcel env db tableName w =
  match env_query env (queries w) ("SELECT * FROM " +:+ tableName) with
  | Err e => (Err e, after_query w tableName)
  | Ok rows =>
      match SQL.rows_columns rows with
      | Err e => (Err e, after_query w tableName)
      | Ok columns =>
          match workbook columns (SQL.rows_next rows) with
          | Err e => (Err e, after_query w tableName)
          | Ok doc =>
              match SQL.rows_err rows with
              | Some e => (Err e, after_query w tableName)
              | None =>
                  match env_xlsx_write env doc with
                  | Err e => (Err e, after_query w tableName)
                  | Ok d =>
                      match env_xlsx_close env doc with
                      | Some e => (Err e, after_alloc w tableName d)
                      | None => (Ok (fresh (dom (heap w))),
                                 after_alloc w tableName d)
                      end
                  end
              end
          end
      end
  end.
Proof.
  unfold exportTableToExcel, workbook, bind, emit, db_Query, ret, alloc,
    after_query, after_alloc. simpl.
  destruct (env_query env (queries w) _) as [rows|e]; [|done].
  destruct (SQL.rows_columns rows) as [columns|e]; [|done].
  destruct (export_rows _ _ _ _ _) as [f|e]; [|done].
  destruct (SQL.rows_err rows) as [e|]; [done|].
  destruct (env_xlsx_write env _) as [d|e]; [|done]. simpl.
  destruct (env_xlsx_close env _) as [e|]; done.
Qed.

Lemma exportTableToExcel_ok env db tableName w rows columns doc d :
  env_query env (queries w) ("SELECT * FROM " +:+ tableName) = Ok rows ->
  SQL.rows_columns rows = Ok columns ->
  workbook columns (SQL.rows_next rows) = Ok doc ->
  SQL.rows_err rows = None ->
  env_xlsx_write env doc = Ok d ->
  env_xlsx_close env doc = None ->
  exportTableToExcel env db tableName w
  = (Ok (fresh (dom (heap w))), after_alloc w tableName d).
Proof.
  intros Hq Hc Hdoc He Hw Hcl.
  by rewrite exportTableToExcel_unfold, Hq, Hc, Hdoc, He, Hw, Hcl.
Qed.

Lemma exportTableToExcel_exports env db tableName w d :
  exports env (queries w) tableName d ->
  exportTableToExcel env db tableName w
  = (Ok (fresh (dom (heap w))), after_alloc w tableName d).
Proof.
  intros (rows & columns & doc & Hq & Hc & Hdoc & He & Hw & Hcl).
  by eapply exportTableToExcel_ok.
Qed.

Lemma exportTableToExcel_trace env db tableName w :
  trace (snd (exportTableToExcel env db tableName w))
  = trace w ++ [EvExport tableName].
Proof.
  rewrite exportTableToExcel_unfold.
  repeat match goal with
         | |- context [match ?x with _ => _ end] => destruct x
         end; reflexivity.
Qed.

Lemma pair_of_fst {A B} (x : A * B) (a : A) : fst x = a -> x = (a, snd x).
Proof. intros <-. by destruct x. Qed.

Lemma calm_env_write tables rnd order f :
  env_xlsx_write (calm_env tables rnd order) f = Ok (plain_bytes f).
Proof. reflexivity. Qed.

Lemma calm_env_succeeds tables rnd order :
  library_succeeds (calm_env tables rnd order).
Proof. split; intros f; [by exists (plain_bytes f)|done]. Qed.

Lemma readme_env_exports n tableName :
  exports readme_env n tableName (plain_bytes small_doc).
Proof.
  exists small_table, ["ID"; "NAME"], small_doc.
  repeat split; vm_compute; reflexivity.
Qed.

(** ** The layout of an exported relation (C4) *)

(** X21. Within the limits of a sheet the export lays a relation out as the
    loops are written: for every exported relation with at most 16384
    columns, at most 1048575 data rows and column names of at most 32767
    UTF-16 code units, row 1 of the sheet holds the column names in the
    order the source reports them, and nothing else; data row N occupies
    sheet row N+1 (numbered from 2 without gaps, and no row follows the
    last) and has exactly as many cells as there are columns; the cell of
    a value that scans as [nil], as an SQL NULL does, holds the text
    [NULL], the cell of any other value what the library stores for its
    bytes ([rendered]: the text, cut where it exceeds the length a cell
    takes). *)
Theorem export_layout_within_limits env db tableName w rows columns data p w' :
  env_query env (queries w) ("SELECT * FROM " +:+ tableName) = Ok rows ->
  SQL.rows_columns rows = Ok columns ->
  SQL.rows_next rows = map Ok data ->
  exportTableToExcel env db tableName w = (Ok p, w') ->
  Z.of_nat (length columns) <= MaxColumns ->
  Z.of_nat (length data) < TotalRows ->
  Forall (fun name => countUTF16String name <= TotalCellChars) columns ->
  exists doc d,
    workbook columns (SQL.rows_next rows) = Ok doc /\
    env_xlsx_write env doc = Ok d /\
    heap w' !! p = Some d /\
    (forall i name, columns !! i = Some name ->
       GetCell doc "Sheet1" (Z.of_nat i + 1) 1 = Some name) /\
    size (row_cells doc "Sheet1" 1) = length columns /\
    (forall n values, data !! n = Some values ->
       size (row_cells doc "Sheet1" (Z.of_nat (S n) + 1)) = length columns /\
       forall k v, values !! k = Some v ->
         GetCell doc "Sheet1" (Z.of_nat k + 1) (Z.of_nat (S n) + 1)
         = Some (rendered v)) /\
    (forall r, Z.of_nat (length data) + 1 < r -> row_cells doc "Sheet1" r = ∅).
Proof.
  intros Hq Hc Hn Hrun Hcols Hrows Hnames.
  rewrite exportTableToExcel_unfold, Hq, Hc in Hrun.
  destruct (workbook columns (SQL.rows_next rows)) as [doc|e] eqn:Hdoc; [|done].
  destruct (SQL.rows_err rows); [done|].
  destruct (env_xlsx_write env doc) as [d|e] eqn:Hd; [|done].
  destruct (env_xlsx_close env doc); [done|].
  injection Hrun as <- <-.
  exists doc, d. split; [done|]. split; [done|].
  split; [apply lookup_insert_eq|].
  assert (Forall (fun row => length row = length columns) data) as Hlen.
  { unfold workbook in Hdoc.
    destruct (export_rows _ _ _ _ _) as [f|] eqn:Hf; [|done].
    apply export_rows_Ok_inv in Hf as (data' & Heq & Hall).
    rewrite Hn in Heq. apply map_Ok_inj in Heq. by subst. }
  rewrite Hn, workbook_ok in Hdoc by done. injection Hdoc as <-.
  unfold GetCell, row_cells. simpl.
  assert (forall c r, 2 <= r -> write_texts ∅ 1 0 columns !! (c, r) = None) as Hempty.
  { intros c r Hr. rewrite write_texts_lookup_other_row by lia. done. }
  repeat split.
  - intros i name Hi.
    rewrite write_rows_lookup_before by lia.
    assert (Z.of_nat i < Z.of_nat (length columns)).
    { apply lookup_lt_Some in Hi. lia. }
    rewrite (write_texts_lookup _ _ 0 _ i name Hi).
    + f_equal. apply setCellString_short.
      rewrite Forall_forall in Hnames. apply Hnames.
      by eapply list_elem_of_lookup_2.
    + apply valid_coordinates_intro; unfold TotalRows; lia.
  - rewrite write_rows_filter_before by lia.
    rewrite write_texts_row_size; unfold TotalRows; try lia.
    + by rewrite map_filter_empty, map_size_empty.
    + intros c _. done.
  - assert (Z.of_nat n < Z.of_nat (length data)).
    { apply lookup_lt_Some in H. lia. }
    replace (Z.of_nat (S n) + 1) with (2 + Z.of_nat n) by lia.
    rewrite (write_rows_row_size _ _ _ _ values); try done; try lia.
    + rewrite Forall_forall in Hlen. apply Hlen.
      by eapply list_elem_of_lookup_2.
    + rewrite Forall_forall in Hlen. rewrite Hlen; [done|].
      by eapply list_elem_of_lookup_2.
    + intros c. apply Hempty. lia.
  - intros k v Hk.
    assert (Z.of_nat n < Z.of_nat (length data)).
    { apply lookup_lt_Some in H. lia. }
    assert (length values = length columns) as Hv.
    { rewrite Forall_forall in Hlen. apply Hlen.
      by eapply list_elem_of_lookup_2. }
    assert (Z.of_nat k < Z.of_nat (length values)).
    { apply lookup_lt_Some in Hk. lia. }
    replace (Z.of_nat (S n) + 1) with (2 + Z.of_nat n) by lia.
    rewrite (write_rows_lookup _ _ _ n values k v); try done.
    + by rewrite setCellString_cell_text.
    + apply valid_coordinates_intro; lia.
  - intros r Hr. apply filter_row_empty. intros c.
    rewrite write_rows_lookup_after by lia. apply Hempty. lia.
Qed.

(** The layout at [small_table]. *)
Lemma export_layout_within_limits_witness :
  exists doc d,
    workbook ["ID"; "NAME"] (SQL.rows_next small_table) = Ok doc /\
    env_xlsx_write small_env doc = Ok d /\
    heap (snd small_export) !! fresh (dom (heap initial)) = Some d /\
    (forall i name, ["ID"; "NAME"] !! i = Some name ->
       GetCell doc "Sheet1" (Z.of_nat i + 1) 1 = Some name) /\
    size (row_cells doc "Sheet1" 1) = length ["ID"; "NAME"] /\
    (forall n values, small_data !! n = Some values ->
       size (row_cells doc "Sheet1" (Z.of_nat (S n) + 1)) = length ["ID"; "NAME"] /\
       forall k v, values !! k = Some v ->
         GetCell doc "Sheet1" (Z.of_nat k + 1) (Z.of_nat (S n) + 1)
         = Some (rendered v)) /\
    (forall r, Z.of_nat (length small_data) + 1 < r ->
       row_cells doc "Sheet1" r = ∅).
Proof.
  apply (export_layout_within_limits small_env (SQL.mkDB "dm") "TEST_01"
           initial small_table ["ID"; "NAME"] small_data
           (fresh (dom (heap initial))) (snd small_export)).
  - reflexivity.
  - reflexivity.
  - reflexivity.
  - apply pair_of_fst. vm_compute. reflexivity.
  - vm_compute. discriminate.
  - vm_compute. reflexivity.
  - repeat constructor; vm_compute; discriminate.
Defined.

Lemma replicate_width {A} (n m : nat) (x : list A) :
  length x = m -> Forall (fun row : list A => length row = m) (replicate n x).
Proof.
  intros H. apply Forall_forall. intros row Hrow.
  apply elem_of_replicate in Hrow as [-> _]. done.
Qed.

Lemma long_data_width :
  Forall (fun row : list SQL.RawBytes => length row = length ["A"]) long_data.
Proof.
  exact (replicate_width (Z.to_nat TotalRows) 1 [Some (bytes_of "x")] eq_refl).
Qed.

Lemma long_data_last :
  long_data !! Z.to_nat (TotalRows - 1) = Some [Some (bytes_of "x")].
Proof.
  assert (Z.to_nat (TotalRows - 1) < Z.to_nat TotalRows)%nat as H.
  { apply Z2Nat.inj_lt; unfold TotalRows; lia. }
  exact (lookup_replicate_2 _ _ _ H).
Qed.

(** C4, at a relation of 1048576 data rows. [long_table] has one column and
    1048576 rows, each holding the text x. The export returns a buffer and
    no error, yet row 1048577 of the sheet, where claim C4 places data row
    1048576, holds no cell at all, instead of one cell per column:
    [CoordinatesToCellName] refuses the row, [SetCellValue] refuses the
    name it is given, and the row loop assigns both errors to the blank
    identifier, in a function that returns every other error. *)
Theorem export_layout_fails_past_last_row :
  exists p w' doc,
    exportTableToExcel
      (calm_env (fun _ => Ok long_table) zero_rnd (fun _ => 0%nat))
      (SQL.mkDB "dm") "BIG" initial = (Ok p, w') /\
    workbook ["A"] (map Ok long_data) = Ok doc /\
    long_data !! Z.to_nat (TotalRows - 1) = Some [Some (bytes_of "x")] /\
    row_cells doc "Sheet1" (TotalRows + 1) = ∅ /\
    size (row_cells doc "Sheet1" (TotalRows + 1)) <> length ["A"].
Proof.
  pose proof long_data_width as Hlen.
  pose proof (workbook_ok ["A"] long_data Hlen) as Hdoc.
  assert (TotalRows < TotalRows + 1) as Hlt by lia.
  pose proof (workbook_row_beyond_limit ["A"] long_data _ _ Hlen Hdoc Hlt)
    as Hrow.
  eexists _, _, _. split; [|split; [exact Hdoc|]].
  - eapply (exportTableToExcel_ok _ _ _ _ long_table ["A"]);
      [reflexivity|reflexivity|exact Hdoc|reflexivity
      |apply calm_env_write|reflexivity].
  - split; [exact long_data_last|]. split; [exact Hrow|].
    rewrite Hrow, map_size_empty. discriminate.
Qed.

(** ** Failures of the database (C5) *)

(** C5. For every export call, if the query, the read of the column names,
    the scan of a row or the iteration fails with an error, then
    [exportTableToExcel] returns that error and no buffer; it has issued the
    one query and has made no buffer at all: the heap is as it was. *)
Theorem export_database_failure env db tableName w e :
  DatabaseFailure env w tableName e ->
  exists w',
    exportTableToExcel env db tableName w = (Err e, w') /\
    heap w' = heap w /\
    queries w' = S (queries w) /\
    trace w' = trace w ++ [EvExport tableName].
Proof.
  intros H. exists (after_query w tableName).
  split; [|done].
  rewrite exportTableToExcel_unfold.
  destruct H as [e Hq|rows e Hq Hc|rows columns good bad rest e Hq Hc Hn Hg Hb
                 |rows columns data e Hq Hc Hn Hd He].
  - by rewrite Hq.
  - by rewrite Hq, Hc.
  - rewrite Hq, Hc, Hn. unfold workbook.
    by rewrite (export_rows_scan_error _ _ _ good bad rest e).
  - rewrite Hq, Hc, Hn. unfold workbook.
    destruct (export_rows_all_scanned (export_header NewFile "Sheet1" 0 columns)
                (length columns) 2 data Hd) as [f' ->].
    by rewrite He.
Qed.

(** The failure theorem at [broken_table], whose second row does not scan. *)
Lemma export_database_failure_witness :
  exists w',
    exportTableToExcel
      (calm_env (fun _ => Ok broken_table) zero_rnd (fun _ => 0%nat))
      (SQL.mkDB "dm") "T" initial = (Err "driver: bad connection", w') /\
    heap w' = heap initial /\
    queries w' = S (queries initial) /\
    trace w' = trace initial ++ [EvExport "T"].
Proof.
  apply export_database_failure.
  apply (ScanFailed _ _ _ broken_table ["ID"; "NAME"]
           [[Some (bytes_of "1"); None]] (Err "driver: bad connection")
           [Ok [Some (bytes_of "3"); Some (bytes_of "c")]]);
    try reflexivity.
  repeat constructor.
Defined.

(** ** A relation without rows (C9) *)

(** C9. For every relation with zero data rows that fits a sheet (at most
    16384 columns, column names of at most 32767 UTF-16 code units, the
    limits of the XLSX format), when the query, the read of the column
    names and the library's write and close go through,
    [exportTableToExcel] returns no error and a buffer holding the
    serialisation of a header-only workbook: row 1 holds the column names,
    every other row is empty. *)
Theorem export_empty_relation env db tableName w rows columns :
  env_query env (queries w) ("SELECT * FROM " +:+ tableName) = Ok rows ->
  SQL.rows_columns rows = Ok columns ->
  SQL.rows_next rows = [] ->
  SQL.rows_err rows = None ->
  library_succeeds env ->
  Z.of_nat (length columns) <= MaxColumns ->
  Forall (fun name => countUTF16String name <= TotalCellChars) columns ->
  exists p w' doc d,
    exportTableToExcel env db tableName w = (Ok p, w') /\
    workbook columns [] = Ok doc /\
    env_xlsx_write env doc = Ok d /\
    heap w' !! p = Some d /\
    (forall i name, columns !! i = Some name ->
       GetCell doc "Sheet1" (Z.of_nat i + 1) 1 = Some name) /\
    size (row_cells doc "Sheet1" 1) = length columns /\
    (forall r, r <> 1 -> row_cells doc "Sheet1" r = ∅).
Proof.
  intros Hq Hc Hn He [Hwrite Hclose] Hcols Hnames.
  pose proof (workbook_ok columns [] (Forall_nil_2 _)) as Hdoc. simpl in Hdoc.
  destruct (Hwrite (sheet1 (write_texts ∅ 1 0 columns) 0)) as [d Hd].
  eexists _, _, _, d. split.
  { eapply exportTableToExcel_ok; eauto. by rewrite Hn. }
  split; [exact Hdoc|]. split; [exact Hd|].
  split; [apply lookup_insert_eq|].
  unfold GetCell, row_cells. simpl. repeat split.
  - intros i name Hi.
    assert (Z.of_nat i < Z.of_nat (length columns)).
    { apply lookup_lt_Some in Hi. lia. }
    rewrite (write_texts_lookup _ _ 0 _ i name Hi).
    + f_equal. apply setCellString_short.
      rewrite Forall_forall in Hnames. apply Hnames.
      by eapply list_elem_of_lookup_2.
    + apply valid_coordinates_intro; unfold TotalRows; lia.
  - rewrite write_texts_row_size; unfold TotalRows; try lia.
    + by rewrite map_filter_empty, map_size_empty.
    + intros c _. done.
  - intros r Hr. apply filter_row_empty. intros c.
    by rewrite write_texts_lookup_other_row.
Qed.

(** The theorem at [two_columns]. *)
Lemma export_empty_relation_witness :
  exists p w' doc d,
    let env := calm_env (fun _ => Ok two_columns) zero_rnd (fun _ => 0%nat) in
    exportTableToExcel env (SQL.mkDB "dm") "EMPTY" initial = (Ok p, w') /\
    workbook ["ID"; "NAME"] [] = Ok doc /\
    env_xlsx_write env doc = Ok d /\
    heap w' !! p = Some d /\
    (forall i name, ["ID"; "NAME"] !! i = Some name ->
       GetCell doc "Sheet1" (Z.of_nat i + 1) 1 = Some name) /\
    size (row_cells doc "Sheet1" 1) = length ["ID"; "NAME"] /\
    (forall r, r <> 1 -> row_cells doc "Sheet1" r = ∅).
Proof.
  apply (export_empty_relation
           (calm_env (fun _ => Ok two_columns) zero_rnd (fun _ => 0%nat))
           (SQL.mkDB "dm") "EMPTY" initial two_columns ["ID"; "NAME"]);
    try reflexivity.
  - apply calm_env_succeeds.
  - vm_compute. discriminate.
  - repeat constructor; vm_compute; discriminate.
Defined.

Lemma lookup_map_seq_last {A} (f : nat -> A) (start n : nat) :
  map f (seq start (S n)) !! n = Some (f (start + n)%nat).
Proof.
  change (map f (seq start (S n))) with (f <$> seq start (S n)).
  rewrite list_lookup_fmap, lookup_seq_lt by lia. done.
Qed.

Lemma wide_columns_last :
  exists name, wide_columns !! Z.to_nat MaxColumns = Some name.
Proof.
  eexists. unfold wide_columns.
  replace (Z.to_nat (MaxColumns + 1)) with (S (Z.to_nat MaxColumns)).
  - apply lookup_map_seq_last.
  - rewrite <- Z2Nat.inj_succ; [f_equal|]; unfold MaxColumns; lia.
Qed.

(** Beyond the limits: the header loop drops the errors of
    [CoordinatesToCellName] and [SetCellValue] as the row loop does.
    [wide_table] has 16385 columns and no rows; it is exported without an
    error, and the name of its last column is in no cell of row 1. *)
Lemma export_header_past_last_column :
  exists p w' doc name,
    exportTableToExcel
      (calm_env (fun _ => Ok wide_table) zero_rnd (fun _ => 0%nat))
      (SQL.mkDB "dm") "WIDE" initial = (Ok p, w') /\
    workbook wide_columns [] = Ok doc /\
    wide_columns !! Z.to_nat MaxColumns = Some name /\
    GetCell doc "Sheet1" (Z.of_nat (Z.to_nat MaxColumns) + 1) 1 = None.
Proof.
  pose proof (workbook_ok wide_columns [] (Forall_nil_2 _)) as Hdoc.
  destruct wide_columns_last as [name Hname].
  assert (valid_coordinates (Z.of_nat (Z.to_nat MaxColumns) + 1) 1 = false)
    as Hv.
  { apply valid_coordinates_column_limit. rewrite Z2Nat.id; unfold MaxColumns; lia. }
  pose proof (workbook_beyond_limits wide_columns [] _ _ _ (Forall_nil_2 _) Hdoc Hv)
    as Hcell.
  eexists _, _, _, name. split; [|split; [exact Hdoc|split; [exact Hname|exact Hcell]]].
  eapply (exportTableToExcel_ok _ _ _ _ wide_table wide_columns);
    [reflexivity|reflexivity|exact Hdoc|reflexivity
    |apply calm_env_write|reflexivity].
Qed.

(** * The mail *)

(** ** [SendEmail], step by step *)

Lemma SendEmail_attachments_spec writer attachments w :
  SendEmail_attachments writer attachments w
  = ((fold_left add_attachment (fst (drained (heap w) attachments)) writer, None),
     set_heap w (snd (drained (heap w) attachments))).
Proof.
  revert writer w. induction attachments as [|a rest IH]; intros writer w.
  - by destruct w.
  - cbn [SendEmail_attachments]. unfold writeAttachment, drain, contents, bind, ret.
    cbv beta iota. cbn [drained]. rewrite IH. cbn [heap].
    destruct (drained (<[file a:=[]]> (heap w)) rest) as [parts h'].
    reflexivity.
Qed.

Lemma SendEmail_run_spec env smtpServer port username password from to subject
    body attachments w :
  let s := session_of env w smtpServer port username password from to subject
                      body attachments in
  let failed := env_smtp env (sessions w) s in
  SendEmail_run env smtpServer port username password from to subject body
                attachments w
  = ((error_of failed,
      compose (fst (read_rand 30 env w)) (env_range env (ranges w))
              from to subject body (fst (drained (heap w) attachments))),
     mkWorld (snd (drained (heap w) attachments)) (rand_pos w + 30)%nat
             (S (ranges w)) (queries w) (S (sessions w))
             (trace w ++ [EvBuild to (boundary_at env w); EvSession s failed])).
Proof.
  intros s failed. unfold SendEmail_run, bind, read_rand, emit, next_range, ret.
  cbv beta iota.
  cbn [heap rand_pos ranges queries sessions trace fst snd].
  unfold writeBody. cbv beta iota zeta. rewrite SendEmail_attachments_spec.
  cbv beta iota.
  cbn [heap rand_pos ranges queries sessions trace fst snd set_heap].
  unfold smtp_exchange.
  cbn [heap rand_pos ranges queries sessions trace fst snd set_heap].
  fold s. fold failed. subst s failed.
  rewrite <- app_assoc. simpl app.
  destruct (env_smtp _ _ _) as [[st err]|]; reflexivity.
Qed.

Lemma SendEmail_spec env smtpServer port username password from to subject
    body attachments w :
  let s := session_of env w smtpServer port username password from to subject
                      body attachments in
  let failed := env_smtp env (sessions w) s in
  SendEmail env smtpServer port username password from to subject body
            attachments w
  = (error_of failed,
     mkWorld (snd (drained (heap w) attachments)) (rand_pos w + 30)%nat
             (S (ranges w)) (queries w) (S (sessions w))
             (trace w ++ [EvBuild to (boundary_at env w); EvSession s failed])).
Proof.
  intros s failed. unfold SendEmail, bind, ret.
  rewrite SendEmail_run_spec. reflexivity.
Qed.

(** ** The attachment buffers after the loop *)

Lemma drained_other h attachments p :
  Forall (fun a => file a <> p) attachments ->
  snd (drained h attachments) !! p = h !! p.
Proof.
  revert h. induction attachments as [|a rest IH]; intros h Hp; [done|].
  inversion Hp as [|? ? Ha Hrest]; subst. cbn [drained].
  specialize (IH (<[file a := []]> h) Hrest).
  destruct (drained (<[file a := []]> h) rest) as [parts h']. cbn [snd] in *.
  rewrite IH. by apply lookup_insert_ne.
Qed.

Lemma drained_empty_at h attachments p :
  Exists (fun a => file a = p) attachments ->
  snd (drained h attachments) !! p = Some [].
Proof.
  revert h. induction attachments as [|a rest IH]; intros h Hp.
  - by apply Exists_nil in Hp.
  - cbn [drained].
    destruct (decide (Exists (fun b => file b = p) rest)) as [Hex|Hno].
    + specialize (IH (<[file a := []]> h) Hex).
      by destruct (drained (<[file a := []]> h) rest).
    + apply Exists_cons in Hp as [Hp|Hp]; [|done].
      apply not_Exists_Forall in Hno; [|intros ?; apply _].
      pose proof (drained_other (<[file a := []]> h) rest p Hno) as H.
      destruct (drained (<[file a := []]> h) rest). cbn [snd] in *.
      rewrite H, <- Hp. apply lookup_insert_eq.
Qed.

Lemma drained_empty h attachments a :
  a ∈ attachments -> snd (drained h attachments) !! file a = Some [].
Proof.
  intros Ha. apply drained_empty_at. apply Exists_exists. by exists a.
Qed.

Lemma drained_parts_NoDup h attachments :
  NoDup (map file attachments) ->
  fst (drained h attachments)
  = map (fun a => (fileName a, mimeType a, default [] (h !! file a))) attachments.
Proof.
  revert h. induction attachments as [|a rest IH]; intros h Hnd; [done|].
  apply NoDup_cons in Hnd as [Ha Hnd]. cbn [drained].
  specialize (IH (<[file a := []]> h) Hnd).
  destruct (drained (<[file a := []]> h) rest) as [parts h']. cbn [fst] in *.
  simpl. f_equal. rewrite IH. apply map_ext_in. intros b Hb.
  rewrite lookup_insert_ne; [done|].
  intros Heq. apply Ha. rewrite Heq. apply list_elem_of_In.
  apply in_map. done.
Qed.

(** ** The bytes of a message *)

Lemma add_attachments_out parts writer :
  Multipart.w_lastpart writer = true ->
  Multipart.w_out (fold_left add_attachment parts writer)
  = Multipart.w_out writer
    ++ flat_map (attachment_part (Multipart.w_boundary writer)) parts
  /\ Multipart.w_boundary (fold_left add_attachment parts writer)
     = Multipart.w_boundary writer.
Proof.
  revert writer. induction parts as [|[[f m] p] rest IH]; intros writer Hlast.
  - simpl. by rewrite app_nil_r.
  - cbn [fold_left flat_map].
    destruct (IH (add_attachment writer (f, m, p)) eq_refl) as [-> ->].
    unfold add_attachment, Multipart.part_Write, Multipart.CreatePart.
    cbn [Multipart.w_out Multipart.w_boundary Multipart.w_lastpart].
    rewrite Hlast. unfold attachment_part. split; [|done].
    by rewrite <- !app_assoc.
Qed.

Lemma top_lines_out order writer :
  Multipart.w_out
    (fold_left (fun w kv => buf_WriteString (top_line kv) w) order writer)
  = Multipart.w_out writer ++ flat_map (fun kv => bytes_of (top_line kv)) order
  /\ Multipart.w_boundary
       (fold_left (fun w kv => buf_WriteString (top_line kv) w) order writer)
     = Multipart.w_boundary writer
  /\ Multipart.w_lastpart
       (fold_left (fun w kv => buf_WriteString (top_line kv) w) order writer)
     = Multipart.w_lastpart writer.
Proof.
  revert writer. induction order as [|kv rest IH]; intros writer.
  - simpl. by rewrite app_nil_r.
  - cbn [fold_left flat_map].
    destruct (IH (buf_WriteString (top_line kv) writer)) as (-> & -> & ->).
    unfold buf_WriteString.
    cbn [Multipart.w_out Multipart.w_boundary Multipart.w_lastpart].
    by rewrite <- !app_assoc.
Qed.

Lemma compose_out rnd seed from to subject body parts :
  let boundary := string_of (Hex.encode rnd) in
  Multipart.w_out (compose rnd seed from to subject body parts)
  = header_block (go_range seed (top_headers from to subject boundary))
    ++ body_part boundary body
    ++ flat_map (attachment_part boundary) parts
  /\ Multipart.w_boundary (compose rnd seed from to subject body parts)
     = boundary.
Proof.
  intros boundary. unfold compose.
  set (w1 := fold_left _ (go_range _ _) _).
  destruct (add_attachments_out parts
              (fst (writeBody (buf_WriteString crlf w1) body)) eq_refl)
    as [-> ->].
  unfold writeBody, Multipart.part_Write, Multipart.CreatePart, buf_WriteString.
  cbn [fst Multipart.w_out Multipart.w_boundary Multipart.w_lastpart].
  subst w1.
  destruct (top_lines_out
              (go_range seed (top_headers from to subject
                                (Multipart.Boundary (NewWriter rnd))))
              (NewWriter rnd)) as (-> & -> & ->).
  cbn [NewWriter Multipart.Boundary Multipart.w_out Multipart.w_boundary
       Multipart.w_lastpart app].
  fold boundary. split; [|done].
  unfold header_block, body_part, QP.encode_all.
  by rewrite <- !app_assoc.
Qed.

Lemma session_data env w smtpServer port username password from to subject body
    attachments :
  s_data (session_of env w smtpServer port username password from to subject
                     body attachments)
  = delivery (go_range (env_range env (ranges w))
                       (top_headers from to subject (boundary_at env w)))
             (boundary_at env w) body (fst (drained (heap w) attachments)).
Proof.
  unfold session_of. cbn [s_data].
  by destruct (compose_out (fst (read_rand 30 env w)) (env_range env (ranges w))
                 from to subject body (fst (drained (heap w) attachments)))
    as [-> _].
Qed.

Lemma message_starts_with_header_block rnd seed from to subject body parts :
  let boundary := string_of (Hex.encode rnd) in
  exists rest,
    Multipart.w_out (compose rnd seed from to subject body parts)
    = flat_map (fun kv => bytes_of (fst kv +:+ ": " +:+ snd kv +:+ crlf))
               (go_range seed (top_headers from to subject boundary))
      ++ CRLF ++ bytes_of ("--" +:+ boundary +:+ crlf) ++ rest.
Proof.
  intros boundary.
  destruct (compose_out rnd seed from to subject body parts) as [-> _].
  fold boundary. unfold header_block, body_part.
  eexists. rewrite <- !app_assoc. reflexivity.
Qed.

(** ** The order of a [range] *)

Lemma insert_at_Permutation {A} (i : nat) (x : A) (l : list A) :
  Permutation (insert_at i x l) (x :: l).
Proof.
  unfold insert_at. rewrite <- Permutation_middle.
  by rewrite take_drop.
Qed.

Lemma go_range_Permutation {A} (seed : nat) (entries : list A) :
  Permutation (go_range seed entries) entries.
Proof.
  revert seed. induction entries as [|x rest IH]; intros seed; simpl; [done|].
  rewrite insert_at_Permutation. by constructor.
Qed.

(** ** The attachments after a send (C2) *)

(** Whatever the arguments and the outcome of the exchange, once
    [SendEmail] has returned every attachment passed to it is empty. *)
Lemma SendEmail_empties_every_attachment env smtpServer port username password
    from to subject body attachments w :
  Forall (fun a =>
            contents (snd (SendEmail env smtpServer port username password from
                                     to subject body attachments w)) (file a)
            = [])
         attachments.
Proof.
  apply Forall_forall. intros a Ha. rewrite SendEmail_spec.
  unfold contents. cbn [snd heap]. by rewrite drained_empty.
Qed.

(** C2, at a failing input. The claim says that an attachment holds the
    same payload bytes after [SendEmail] as before. Here the attachment
    holds the eleven bytes of its document before the call; [SendEmail]
    returns no error; and the attachment holds no byte afterwards. *)
Theorem SendEmail_empties_attachment :
  let outcome :=
    SendEmail quiet_env "smtp.qq.com" "465" "u" "p" "a@qq.com" "x@qq.com"
              "SUBJECT" "CONTENT" [mkAttachment "01.xlsx" xlsxMime 7]
              one_buffer in
  contents one_buffer 7 = bytes_of "PK-document" /\
  fst outcome = None /\
  contents (snd outcome) 7 = [].
Proof. cbv zeta. repeat split; vm_compute; reflexivity. Qed.

(** ** The message handed to the mail server (C3) *)

(** Whatever the arguments, the bytes given to the SMTP exchange are the
    writer's buffer before [Close]; the closing delimiter is written after
    them, by the deferred call. *)
Lemma SendEmail_sends_before_Close env smtpServer port username password from
    to subject body attachments w :
  let outcome := SendEmail_run env smtpServer port username password from to
                           subject body attachments w in
  let writer := snd (fst outcome) in
  exists s failed,
    trace (snd outcome)
    = trace w ++ [EvBuild to (Multipart.Boundary writer); EvSession s failed] /\
    s_data s = Multipart.w_out writer /\
    Multipart.w_out (Multipart.Close writer)
    = s_data s
      ++ bytes_of (crlf +:+ "--" +:+ Multipart.Boundary writer +:+ "--" +:+ crlf).
Proof.
  intros outcome writer. subst outcome writer. rewrite SendEmail_run_spec.
  cbn [fst snd trace].
  exists (session_of env w smtpServer port username password from to subject
                     body attachments),
         (env_smtp env (sessions w)
            (session_of env w smtpServer port username password from to
                        subject body attachments)).
  split; [|split; reflexivity].
  unfold Multipart.Boundary.
  destruct (compose_out (fst (read_rand 30 env w)) (env_range env (ranges w))
              from to subject body (fst (drained (heap w) attachments)))
    as [_ ->].
  reflexivity.
Qed.

(** C3, at a failing input. The claim says that the bytes [SendEmail]
    builds and sends are a standards-compliant multipart document from
    which a reader recovers the body and the attachments. Here the bytes
    handed to the mail server end with the base64 text of the attachment:
    they hold no close-delimiter, and the reader recovers nothing from
    them. The buffer as the deferred [writer.Close()] completes it, after
    the exchange, does read back as the body and the attachment. *)
Theorem SendEmail_message_unterminated :
  let outcome :=
    SendEmail_run quiet_env "smtp.qq.com" "465" "u" "p" "a@qq.com" "x@qq.com"
                  "SUBJECT" "CONTENT" [mkAttachment "01.xlsx" xlsxMime 7]
                  one_buffer in
  let writer := snd (fst outcome) in
  exists s b,
    trace (snd outcome) = [EvBuild "x@qq.com" b; EvSession s None] /\
    s_data s = Multipart.w_out writer /\
    contains (bytes_of ("--" +:+ b +:+ "--")) (s_data s) = false /\
    Reader.mail (s_data s) = None /\
    Reader.mail (Multipart.w_out (Multipart.Close writer))
    = Some (bytes_of "CONTENT", [("01.xlsx", bytes_of "PK-document")]).
Proof.
  cbv zeta. eexists _, _.
  split; [vm_compute; reflexivity|].
  split; [vm_compute; reflexivity|].
  split; [vm_compute; reflexivity|].
  split; vm_compute; reflexivity.
Qed.

(** ** Tokens and delimiters *)






(** No character of the base64 alphabet is a hyphen. *)
Lemma enc_not_hyphen (n : N) : Base64.enc (N.land n 63) <> "-"%char.
Proof.
  assert (N.land n 63 < 64)%N as Hlt.
  { change 63%N with (N.ones 6). rewrite N.land_ones.
    apply N.mod_lt. done. }
  assert (forallb (fun k => negb (Ascii.eqb (Base64.enc (N.of_nat k)) "-"%char))
                  (seq 0 64) = true) as Hall by (vm_compute; reflexivity).
  rewrite forallb_forall in Hall.
  specialize (Hall (N.to_nat (N.land n 63))).
  rewrite N2Nat.id in Hall.
  intros Heq. rewrite Heq in Hall.
  assert (In (N.to_nat (N.land n 63)) (seq 0 64)) as Hin.
  { apply in_seq. lia. }
  specialize (Hall Hin). discriminate Hall.
Qed.

Lemma base64_no_hyphen (src : bytes) :
  Forall (fun c => c <> "-"%char) (Base64.encode src).
Proof.
  assert (forall n (l : bytes), (length l <= n)%nat ->
            Forall (fun c => c <> "-"%char) (Base64.encode l)) as H.
  { induction n as [|n IH]; intros l Hl.
    - destruct l; [constructor|simpl in Hl; lia].
    - destruct l as [|a [|b [|c rest]]]; cbn [Base64.encode].
      + constructor.
      + repeat constructor; try apply enc_not_hyphen; discriminate.
      + repeat constructor; try apply enc_not_hyphen; discriminate.
      + repeat (constructor; [apply enc_not_hyphen|]).
        apply IH. simpl in Hl. lia. }
  by apply (H (length src)).
Qed.

Lemma has_prefix_head c p l :
  has_prefix (c :: p) l = true -> exists l', l = c :: l'.
Proof.
  destruct l as [|b l]; simpl; [done|].
  destruct (Ascii.eqb_spec c b) as [->|]; [eauto|done].
Qed.

Lemma contains_head c p hay : contains (c :: p) hay = true -> c ∈ hay.
Proof.
  induction hay as [|b hay IH]; cbn [contains]; intros H.
  - by rewrite orb_false_r in H.
  - apply orb_true_iff in H as [H|H].
    + apply has_prefix_head in H as [l' [= -> _]]. apply list_elem_of_here.
    + apply list_elem_of_further. by apply IH.
Qed.

Lemma base64_free_of_delimiter (boundary : string) (payload : bytes) :
  contains (bytes_of ("--" +:+ boundary)) (Base64.encode payload) = false.
Proof.
  destruct (contains _ _) eqn:H; [|done].
  change (bytes_of ("--" +:+ boundary))
    with ("-"%char :: "-"%char :: bytes_of boundary) in H.
  apply contains_head in H.
  pose proof (base64_no_hyphen payload) as Hno.
  rewrite Forall_forall in Hno. by apply Hno in H.
Qed.

(** * The job *)

Lemma createDMDB_Ok_inv env username password host port w db w' :
  createDMDB env username password host port w = (Ok db, w') ->
  w' = add_events w [EvOpenDB (SQL.db_dsn db)] /\
  SQL.db_dsn db
  = "dm://" +:+ username +:+ ":" +:+ password +:+ "@" +:+ host +:+ ":" +:+ port.
Proof.
  unfold createDMDB, bind, emit, ret.
  destruct (_ || _); [done|].
  destruct (env_sql_open env _); [done|].
  destruct (env_ping env _); [done|].
  intros [= <- <-]. done.
Qed.

Lemma task_attachments_app env db l1 l2 acc w :
  task_attachments env db (l1 ++ l2) acc w
  = match task_attachments env db l1 acc w with
    | (Some acc', w') => task_attachments env db l2 acc' w'
    | (None, w') => (None, w')
    end.
Proof.
  revert acc w. induction l1 as [|c l1 IH]; intros acc w; [done|].
  cbn [app task_attachments]. unfold bind.
  destruct (exportTableToExcel env db (Table c) w) as [[p|e] w']; [apply IH|].
  reflexivity.
Qed.

Lemma task_attachments_Some_trace env db configs acc w attachments w' :
  task_attachments env db configs acc w = (Some attachments, w') ->
  trace w' = trace w ++ map EvExport (map Table configs).
Proof.
  revert acc w. induction configs as [|c rest IH]; intros acc w H.
  - injection H as _ <-. simpl. by rewrite app_nil_r.
  - cbn [task_attachments] in H. unfold bind in H.
    pose proof (exportTableToExcel_trace env db (Table c) w) as Ht.
    destruct (exportTableToExcel env db (Table c) w) as [[p|e] w1].
    + apply IH in H. rewrite H. cbn [snd] in Ht. rewrite Ht.
      by rewrite <- app_assoc.
    + unfold emit, ret in H. done.
Qed.

Lemma task_attachments_failed env db c rest acc w e w' :
  exportTableToExcel env db (Table c) w = (Err e, w') ->
  task_attachments env db (c :: rest) acc w
  = (None, add_events w' [EvExportFailed (Table c) e]).
Proof.
  intros H. cbn [task_attachments]. unfold bind. rewrite H. reflexivity.
Qed.

Lemma task_posts_app env db config l1 l2 w :
  task_posts env db config (l1 ++ l2) w
  = match task_posts env db config l1 w with
    | (true, w') => task_posts env db config l2 w'
    | (false, w') => (false, w')
    end.
Proof.
  revert w. induction l1 as [|post l1 IH]; intros w; [done|].
  cbn [app task_posts]. unfold bind.
  destruct (task_attachments env db (Attachment_ post) [] w) as [[atts|] w1];
    [|done].
  destruct (task_recipients env config post atts (To post) w1) as [[] w2];
    [apply IH|done].
Qed.

(** ** A failed export ends the run (C6) *)

(** C6. In every run of [task] in which the database opens, the posts
    [finished] are gone through, and the export of table [bad] of the next
    post fails after the exports of [good] went through, the run stops at
    that failure: after the events of the finished posts the trace holds
    the exports of [good], the export of [bad], the failure, and the closing
    of the database. No message is built and no SMTP exchange is started
    for the post, its remaining tables are not exported, and the posts
    after it leave no event. *)
Theorem task_stops_at_failed_export env config w db w0 finished post later
    good bad rest attachments w1 w2 e w3 :
  createDMDB env (db_Username (DB config)) (db_Password (DB config))
             (db_Host (DB config)) (itoa (db_Port (DB config))) w
  = (Ok db, w0) ->
  Post config = finished ++ post :: later ->
  task_posts env db config finished w0 = (true, w1) ->
  Attachment_ post = good ++ bad :: rest ->
  task_attachments env db good [] w1 = (Some attachments, w2) ->
  exportTableToExcel env db (Table bad) w2 = (Err e, w3) ->
  trace (snd (task env config w))
  = trace w1 ++ map EvExport (map Table good)
    ++ [EvExport (Table bad); EvExportFailed (Table bad) e;
        EvCloseDB (SQL.db_dsn db)].
Proof.
  intros Hdb Hposts Hdone Hatts Hgood Hbad.
  unfold task, bind. rewrite Hdb, Hposts, task_posts_app, Hdone.
  cbn [task_posts]. unfold bind.
  rewrite Hatts, task_attachments_app, Hgood.
  rewrite (task_attachments_failed _ _ _ _ _ _ _ _ Hbad).
  unfold ret, emit. cbn [snd trace add_events].
  apply task_attachments_Some_trace in Hgood.
  pose proof (exportTableToExcel_trace env db (Table bad) w2) as Ht.
  rewrite Hbad in Ht. cbn [snd] in Ht.
  rewrite Ht, Hgood. by rewrite <- !app_assoc.
Qed.

(** The theorem at [three_posts], with a database that fails on the second
    of the three tables of the second post. *)
Lemma task_stops_at_failed_export_witness :
  trace (snd (task env_without_T2 three_posts initial))
  = trace after_first_post
    ++ map EvExport (map Table [mkTableAttachmentConfig "T1" "01.xlsx"])
    ++ [EvExport "T2";
        EvExportFailed "T2" "table or view does not exist";
        EvCloseDB "dm://SYSDBA:pw@dbhost:5236"].
Proof.
  eapply (task_stops_at_failed_export env_without_T2 three_posts initial
            dm_handle
            (add_events initial [EvOpenDB "dm://SYSDBA:pw@dbhost:5236"])
            [first_post] failing_post [last_post]
            [mkTableAttachmentConfig "T1" "01.xlsx"]
            (mkTableAttachmentConfig "T2" "02.xlsx")
            [mkTableAttachmentConfig "T3" "03.xlsx"]).
  - vm_compute. reflexivity.
  - reflexivity.
  - unfold after_first_post. apply pair_of_fst. vm_compute. reflexivity.
  - reflexivity.
  - apply pair_of_fst. vm_compute. reflexivity.
  - apply pair_of_fst. vm_compute. reflexivity.
Defined.

(** ** Start-up (C7) *)




(** ** One post, two attachments, two recipients (C1) *)

(** C1 (amended). For a configuration with one post, two attachment specs
    and two recipients, a run of [task] in which the database opens, both
    exports go through and both SMTP exchanges succeed leaves this trace:
    the database is opened, exactly 2 tables are exported, then for each of
    the 2 recipients one message is built (with its own boundary token and
    To header) and one SMTP exchange is carried out, the run completes and
    the database is closed. Each delivery carries the configured subject
    and body and two attachment parts with the 2 original file names, in
    order; the parts of the first delivery hold the two exported
    documents. *)
Theorem task_two_attachments_two_recipients env email db from r1 r2 subject
    body t1 f1 t2 f2 time w handle w0 d1 d2 :
  let config :=
    mkConfig email db
      [mkPostConfig from [r1; r2] subject body
         [mkTableAttachmentConfig t1 f1; mkTableAttachmentConfig t2 f2]]
      time in
  createDMDB env (db_Username db) (db_Password db) (db_Host db)
             (itoa (db_Port db)) w = (Ok handle, w0) ->
  exports env (queries w) t1 d1 ->
  exports env (S (queries w)) t2 d2 ->
  (forall s, env_smtp env (sessions w) s = None) ->
  (forall s, env_smtp env (S (sessions w)) s = None) ->
  exists b1 b2 o1 o2 s1 s2 q1 q2,
    trace (snd (task env config w))
    = trace w ++ [EvOpenDB (SQL.db_dsn handle); EvExport t1; EvExport t2;
                  EvBuild r1 b1; EvSession s1 None;
                  EvBuild r2 b2; EvSession s2 None;
                  EvCompleted; EvCloseDB (SQL.db_dsn handle)] /\
    s_to s1 = r1 /\ s_to s2 = r2 /\
    Permutation o1 (top_headers from r1 subject b1) /\
    Permutation o2 (top_headers from r2 subject b2) /\
    s_data s1 = delivery o1 b1 body [(f1, xlsxMime, d1); (f2, xlsxMime, d2)] /\
    s_data s2 = delivery o2 b2 body [(f1, xlsxMime, q1); (f2, xlsxMime, q2)].
Proof.
  intros config Hdb H1 H2 Hs1 Hs2.
  apply createDMDB_Ok_inv in Hdb as Hw0. destruct Hw0 as [-> _].
  set (w0 := add_events w [EvOpenDB (SQL.db_dsn handle)]).
  set (p1 := fresh (dom (heap w0))).
  set (w1 := after_alloc w0 t1 d1).
  set (p2 := fresh (dom (heap w1))).
  set (w2 := after_alloc w1 t2 d2).
  set (a1 := mkAttachment f1 xlsxMime p1).
  set (a2 := mkAttachment f2 xlsxMime p2).
  assert (p1 <> p2) as Hne.
  { intros Heq. pose proof (is_fresh (dom (heap w1))) as Hf.
    fold p2 in Hf. rewrite <- Heq in Hf. apply Hf.
    subst w1. unfold after_alloc. cbn [heap]. fold p1.
    rewrite dom_insert_L. apply elem_of_union_l, elem_of_singleton. done. }
  assert (NoDup (map file [a1; a2])) as Hnd.
  { simpl. apply NoDup_cons. split; [|apply NoDup_singleton].
    intros Hin. apply list_elem_of_singleton in Hin. done. }
  assert (task_attachments env handle
            [mkTableAttachmentConfig t1 f1; mkTableAttachmentConfig t2 f2] [] w0
          = (Some [a1; a2], w2)) as Hatts.
  { cbn [task_attachments]. unfold bind. cbn [Table Excel].
    rewrite (exportTableToExcel_exports env handle t1 w0 d1 H1).
    fold p1 w1.
    rewrite (exportTableToExcel_exports env handle t2 w1 d2 H2).
    reflexivity. }
  set (s1 := session_of env w2 (email_Host email) (itoa (email_Port email))
               (email_Username email) (email_Password email) from r1 subject
               body [a1; a2]).
  set (w3 := mkWorld (snd (drained (heap w2) [a1; a2])) (rand_pos w2 + 30)%nat
               (S (ranges w2)) (queries w2) (S (sessions w2))
               (trace w2 ++ [EvBuild r1 (boundary_at env w2); EvSession s1 None])).
  set (s2 := session_of env w3 (email_Host email) (itoa (email_Port email))
               (email_Username email) (email_Password email) from r2 subject
               body [a1; a2]).
  exists (boundary_at env w2), (boundary_at env w3),
    (go_range (env_range env (ranges w2))
              (top_headers from r1 subject (boundary_at env w2))),
    (go_range (env_range env (ranges w3))
              (top_headers from r2 subject (boundary_at env w3))),
    s1, s2,
    (default [] (heap w3 !! p1)), (default [] (heap w3 !! p2)).
  split; [|split; [reflexivity|split; [reflexivity|]]].
  - unfold task, bind. cbn [DB Post config].
    rewrite Hdb. fold w0. cbn [task_posts Attachment_]. unfold bind.
    rewrite Hatts.
    cbn [To task_recipients]. unfold bind. cbn [Email config From Subject Body].
    rewrite SendEmail_spec. fold s1.
    assert (env_smtp env (sessions w2) s1 = None) as -> by apply Hs1.
    cbn [error_of]. fold w3.
    rewrite SendEmail_spec. fold s2.
    assert (env_smtp env (sessions w3) s2 = None) as -> by apply Hs2.
    cbn [error_of].
    unfold ret, emit. cbn [snd trace w3 w2 w1 w0 after_alloc add_events].
    rewrite <- !app_assoc. reflexivity.
  - split; [apply go_range_Permutation|]. split; [apply go_range_Permutation|].
    split.
    + subst s1. rewrite session_data. f_equal.
      rewrite drained_parts_NoDup by exact Hnd.
      cbn [map fileName mimeType file a1 a2].
      assert (heap w1 !! p1 = Some d1) as Hl1 by apply lookup_insert_eq.
      assert (heap w2 !! p2 = Some d2) as -> by apply lookup_insert_eq.
      assert (heap w2 !! p1 = Some d1) as ->.
      { change (heap w2) with (<[p2 := d2]> (heap w1)).
        rewrite lookup_insert_ne by (intros ?; by apply Hne). exact Hl1. }
      reflexivity.
    + subst s2. rewrite session_data. f_equal.
      by rewrite drained_parts_NoDup by exact Hnd.
Qed.

(** The theorem at the configuration of the README. *)
Lemma task_two_attachments_two_recipients_witness :
  exists b1 b2 o1 o2 s1 s2 q1 q2,
    trace (snd (task readme_env readme_config initial))
    = trace initial
      ++ [EvOpenDB (SQL.db_dsn dm_handle); EvExport "TEST_01";
          EvExport "TEST_02";
          EvBuild "x@qq.com" b1; EvSession s1 None;
          EvBuild "y@qq.com" b2; EvSession s2 None;
          EvCompleted; EvCloseDB (SQL.db_dsn dm_handle)] /\
    s_to s1 = "x@qq.com" /\ s_to s2 = "y@qq.com" /\
    Permutation o1 (top_headers "a@qq.com" "x@qq.com" "SUBJECT" b1) /\
    Permutation o2 (top_headers "a@qq.com" "y@qq.com" "SUBJECT" b2) /\
    s_data s1
    = delivery o1 b1 "CONTENT"
        [("01.xlsx", xlsxMime, plain_bytes small_doc);
         ("02.xlsx", xlsxMime, plain_bytes small_doc)] /\
    s_data s2
    = delivery o2 b2 "CONTENT"
        [("01.xlsx", xlsxMime, q1); ("02.xlsx", xlsxMime, q2)].
Proof.
  apply (task_two_attachments_two_recipients readme_env
           (mkEmailConfig "smtp.qq.com" 465 "u" "p")
           (mkDBConfig "dbhost" 5236 "SYSDBA" "pw")
           "a@qq.com" "x@qq.com" "y@qq.com" "SUBJECT" "CONTENT"
           "TEST_01" "01.xlsx" "TEST_02" "02.xlsx" "00 08 * * *"
           initial dm_handle
           (add_events initial [EvOpenDB "dm://SYSDBA:pw@dbhost:5236"])).
  - vm_compute. reflexivity.
  - apply readme_env_exports.
  - apply readme_env_exports.
  - reflexivity.
  - reflexivity.
Defined.

(** C1, as stated, fails. In the run of the README's configuration two
    messages are built, one per recipient, with different boundary tokens
    and different bytes; and the second delivery carries the two attachment
    parts with nothing in them, although the exported documents are not
    empty. *)
Lemma task_builds_a_message_per_recipient :
  exists b1 b2 s1 s2,
    trace (snd (task readme_env readme_config initial))
    = [EvOpenDB "dm://SYSDBA:pw@dbhost:5236"; EvExport "TEST_01";
       EvExport "TEST_02";
       EvBuild "x@qq.com" b1; EvSession s1 None;
       EvBuild "y@qq.com" b2; EvSession s2 None;
       EvCompleted; EvCloseDB "dm://SYSDBA:pw@dbhost:5236"] /\
    b1 <> b2 /\
    s_data s1 <> s_data s2 /\
    plain_bytes small_doc <> [] /\
    s_data s2
    = delivery (go_range 1 (top_headers "a@qq.com" "y@qq.com" "SUBJECT" b2))
               b2 "CONTENT"
               [("01.xlsx", xlsxMime, []); ("02.xlsx", xlsxMime, [])].
Proof.
  eexists _, _, _, _.
  split; [vm_compute; reflexivity|].
  split; [discriminate|].
  split; [vm_compute; discriminate|].
  split; [vm_compute; discriminate|].
  vm_compute. reflexivity.
Qed.
(** * Further properties of the program *)

(** ** The database handle *)

Lemma itoa_not_empty (n : Z) : itoa n <> EmptyString.
Proof.
  unfold itoa. destruct n as [|p|p]; cbn; [done| |done].
  pose proof (DecimalPos.Unsigned.to_uint_nonnil p) as Hp.
  destruct (Pos.to_uint p); done.
Qed.

Lemma eqb_empty_false (s : string) :
  s <> EmptyString -> String.eqb s EmptyString = false.
Proof. intros H. by apply String.eqb_neq. Qed.

(** X1. The port check of [createDMDB] never fires for [task]: the port is the
    decimal form of a number, which is never empty, so with user, password and
    host given every port, also 0 or a negative one, goes to the driver and
    the outcome is the driver's. *)
Theorem createDMDB_accepts_any_port env username password host (port : Z) w :
  username <> EmptyString -> password <> EmptyString -> host <> EmptyString ->
  let dsn := dsn_of username password host (itoa port) in
  fst (createDMDB env username password host (itoa port) w)
  = match env_sql_open env dsn, env_ping env dsn with
    | Some err, _ => Err err
    | None, Some err => Err err
    | None, None => Ok (SQL.mkDB dsn)
    end.
Proof.
  intros Hu Hp Hh dsn. unfold createDMDB.
  rewrite (eqb_empty_false _ Hu), (eqb_empty_false _ Hp),
    (eqb_empty_false _ Hh), (eqb_empty_false _ (itoa_not_empty port)).
  cbn [orb]. fold (dsn_of username password host (itoa port)). fold dsn.
  destruct (env_sql_open env dsn); [done|].
  unfold bind, emit, ret. by destruct (env_ping env dsn).
Qed.

(** The theorem at port 0, the value a configuration without a port
    decodes to. *)
Lemma createDMDB_accepts_any_port_witness :
  fst (createDMDB readme_env "SYSDBA" "pw" "dbhost" (itoa 0) initial)
  = Ok (SQL.mkDB "dm://SYSDBA:pw@dbhost:0").
Proof.
  apply (createDMDB_accepts_any_port readme_env "SYSDBA" "pw" "dbhost" 0
           initial);
    discriminate.
Defined.

(** ** What the loops of [task] leave *)

Lemma loop_events_no_handle evs :
  Forall (fun e => loop_event e = true) evs ->
  opened_handles evs = [] /\ closed_handles evs = [] /\ ~ In EvCompleted evs.
Proof.
  induction 1 as [|e evs He _ (IH1 & IH2 & IH3)]; [by repeat split; auto|].
  destruct e; try discriminate He; cbn; repeat split; try done;
    intros [H|H]; try discriminate H; by apply IH3.
Qed.

Lemma task_attachments_events env db configs acc w :
  exists evs,
    trace (snd (task_attachments env db configs acc w)) = trace w ++ evs /\
    Forall (fun e => loop_event e = true) evs /\
    delivered_to evs = [] /\
    (forall atts, fst (task_attachments env db configs acc w) = Some atts ->
                  exported_tables evs = map Table configs).
Proof.
  revert acc w. induction configs as [|c rest IH]; intros acc w.
  - exists []. cbn. rewrite app_nil_r. by repeat split.
  - cbn [task_attachments]. unfold bind.
    pose proof (exportTableToExcel_trace env db (Table c) w) as Ht.
    destruct (exportTableToExcel env db (Table c) w) as [[p|e] w1];
      cbn [snd] in Ht.
    + destruct (IH (acc ++ [mkAttachment (Excel c) xlsxMime p]) w1)
        as (evs & Hevs & Hall & Hdel & Hexp).
      exists (EvExport (Table c) :: evs).
      rewrite Hevs, Ht, <- app_assoc. split; [done|].
      split; [by constructor|]. split; [done|].
      intros atts Hatts. cbn. f_equal. by apply (Hexp atts).
    + exists [EvExport (Table c); EvExportFailed (Table c) e].
      unfold emit, ret. cbn [snd fst trace]. rewrite Ht, <- app_assoc.
      split; [done|]. split; [by repeat constructor|]. by split.
Qed.

Lemma task_recipients_events env config post atts recipients w :
  exists evs,
    trace (snd (task_recipients env config post atts recipients w))
    = trace w ++ evs /\
    Forall (fun e => loop_event e = true) evs /\
    exported_tables evs = [] /\
    (fst (task_recipients env config post atts recipients w) = true ->
     delivered_to evs = recipients).
Proof.
  revert w. induction recipients as [|r rest IH]; intros w.
  - exists []. cbn. rewrite app_nil_r. by repeat split.
  - cbn [task_recipients]. unfold bind. rewrite SendEmail_spec.
    set (s := session_of _ _ _ _ _ _ _ _ _ _ _).
    assert (s_to s = r) as Hto by reflexivity.
    destruct (env_smtp env (sessions w) s) as [[st err]|]; cbn [error_of].
    + eexists [EvBuild r _; EvSession s (Some (st, err)); EvSendFailed r err].
      unfold emit, ret. cbn [snd fst trace]. rewrite <- app_assoc.
      split; [done|]. split; [by repeat constructor|]. by split.
    + match goal with
      | |- context [task_recipients _ _ _ _ rest ?w1] =>
          destruct (IH w1) as (evs & Hevs & Hall & Hexp & Hdel)
      end.
      eexists (EvBuild r _ :: EvSession s None :: evs).
      rewrite Hevs. cbn [trace]. rewrite <- app_assoc.
      split; [done|]. split; [by repeat constructor|]. split; [done|].
      intros Hok. cbn [delivered_to flat_map app]. rewrite Hto.
      f_equal. by apply Hdel.
Qed.

Lemma exported_app evs1 evs2 :
  exported_tables (evs1 ++ evs2) = exported_tables evs1 ++ exported_tables evs2.
Proof. apply flat_map_app. Qed.

Lemma delivered_app evs1 evs2 :
  delivered_to (evs1 ++ evs2) = delivered_to evs1 ++ delivered_to evs2.
Proof. apply flat_map_app. Qed.

Lemma task_posts_events env db config posts w :
  exists evs,
    trace (snd (task_posts env db config posts w)) = trace w ++ evs /\
    Forall (fun e => loop_event e = true) evs /\
    (fst (task_posts env db config posts w) = true ->
     exported_tables evs
       = flat_map (fun post => map Table (Attachment_ post)) posts /\
     delivered_to evs = flat_map To posts).
Proof.
  revert w. induction posts as [|post rest IH]; intros w.
  - exists []. cbn. rewrite app_nil_r. by repeat split.
  - cbn [task_posts]. unfold bind.
    destruct (task_attachments_events env db (Attachment_ post) [] w)
      as (evs1 & Hevs1 & Hall1 & Hdel1 & Hexp1).
    destruct (task_attachments env db (Attachment_ post) [] w) as [[atts|] w1];
      cbn [fst snd] in *.
    + destruct (task_recipients_events env config post atts (To post) w1)
        as (evs2 & Hevs2 & Hall2 & Hexp2 & Hdel2).
      destruct (task_recipients env config post atts (To post) w1) as [[] w2];
        cbn [fst snd] in *.
      * destruct (IH w2) as (evs3 & Hevs3 & Hall3 & Hdone).
        exists (evs1 ++ evs2 ++ evs3).
        rewrite Hevs3, Hevs2, Hevs1, <- !app_assoc. split; [done|].
        split; [by rewrite !Forall_app|].
        intros Hok. destruct (Hdone Hok) as [He Hd].
        rewrite !exported_app, !delivered_app, He, Hd.
        rewrite (Hexp1 atts eq_refl), Hexp2, Hdel1, (Hdel2 eq_refl).
        done.
      * exists (evs1 ++ evs2). unfold ret. cbn [fst snd].
        rewrite Hevs2, Hevs1, <- !app_assoc. split; [done|].
        split; [by rewrite Forall_app|]. done.
    + exists evs1. unfold ret. cbn [fst snd]. by repeat split.
Qed.

(** X2. On every path through [task] the handle that was opened is closed: a
    run opens at most one database handle and closes every handle it opened,
    whether it completes, stops at a failed export or a failed send, or cannot
    connect. *)
Theorem task_closes_the_database env config w :
  exists evs,
    trace (snd (task env config w)) = trace w ++ evs /\
    closed_handles evs = opened_handles evs /\
    (length (opened_handles evs) <= 1)%nat.
Proof.
  unfold task, bind.
  unfold createDMDB.
  destruct (_ || _).
  { exists [EvConnectFailed "invalid database credentials or host information"].
    unfold ret, emit. cbn. by repeat split; auto. }
  fold (dsn_of (db_Username (DB config)) (db_Password (DB config))
               (db_Host (DB config)) (itoa (db_Port (DB config)))).
  set (dsn := dsn_of _ _ _ _).
  destruct (env_sql_open env dsn) as [e|].
  { exists [EvConnectFailed e]. unfold ret, emit. cbn. by repeat split; auto. }
  unfold bind, emit, ret.
  destruct (env_ping env dsn) as [e|].
  { exists [EvOpenDB dsn; EvCloseDB dsn; EvConnectFailed e]. cbn.
    rewrite <- !app_assoc. by repeat split; auto. }
  match goal with
  | |- context [task_posts env ?db config (Post config) ?w0] =>
      destruct (task_posts_events env db config (Post config) w0)
        as (evs & Hevs & Hall & _);
      destruct (task_posts env db config (Post config) w0) as [completed w1]
  end.
  cbn [snd trace SQL.db_dsn] in *.
  destruct (loop_events_no_handle evs Hall) as (Ho & Hc & _).
  exists (EvOpenDB dsn :: evs ++ (if completed then [EvCompleted] else [])
          ++ [EvCloseDB dsn]).
  split.
  { destruct completed; cbn [trace]; rewrite Hevs, <- !app_assoc; reflexivity. }
  unfold closed_handles, opened_handles in *. cbn [flat_map].
  rewrite !flat_map_app, Ho, Hc. by destruct completed.
Qed.

(** X3. [task] logs that it completed only after it has gone through every
    post: when the events of a run hold the completion, its exports are the
    tables of all posts in the order of the configuration, and the exchanges
    that went through are those for all recipients of all posts, in that
    order. *)
Theorem task_completed_after_everything env config w :
  exists evs,
    trace (snd (task env config w)) = trace w ++ evs /\
    (In EvCompleted evs ->
     exported_tables evs
     = flat_map (fun post => map Table (Attachment_ post)) (Post config) /\
     delivered_to evs = flat_map To (Post config)).
Proof.
  unfold task, bind.
  unfold createDMDB.
  destruct (_ || _).
  { eexists [_]. unfold ret, emit. cbn. split; [done|]. intros Hin. cbn in Hin.
    intuition discriminate. }
  set (dsn := (_ +:+ _)%string).
  destruct (env_sql_open env dsn) as [e|].
  { eexists [_]. unfold ret, emit. cbn. split; [done|]. intros Hin. cbn in Hin.
    intuition discriminate. }
  unfold bind, emit, ret.
  destruct (env_ping env dsn) as [e|].
  { eexists [_; _; _]. cbn. rewrite <- !app_assoc. split; [done|].
    intros Hin. cbn in Hin. intuition discriminate. }
  match goal with
  | |- context [task_posts env ?db config (Post config) ?w0] =>
      destruct (task_posts_events env db config (Post config) w0)
        as (evs & Hevs & Hall & Hdone);
      destruct (task_posts env db config (Post config) w0) as [completed w1]
  end.
  cbn [fst snd trace SQL.db_dsn] in *.
  destruct (loop_events_no_handle evs Hall) as (_ & _ & Hnc).
  exists (EvOpenDB dsn :: evs ++ (if completed then [EvCompleted] else [])
          ++ [EvCloseDB dsn]).
  split.
  { destruct completed; cbn [trace]; rewrite Hevs, <- !app_assoc; reflexivity. }
  intros Hin. destruct completed.
  - destruct (Hdone eq_refl) as [He Hd].
    cbn [exported_tables delivered_to flat_map app].
    fold (exported_tables (evs ++ [EvCompleted] ++ [EvCloseDB dsn])).
    fold (delivered_to (evs ++ [EvCompleted] ++ [EvCloseDB dsn])).
    rewrite exported_app, delivered_app, He, Hd. cbn. by rewrite !app_nil_r.
  - exfalso. destruct Hin as [Hin|Hin]; [discriminate Hin|].
    apply in_app_or in Hin. destruct Hin as [Hin|Hin]; [by apply Hnc|].
    cbn in Hin. intuition discriminate.
Qed.

(** ** A failed send ends the run *)

Lemma task_recipients_app env config post atts l1 l2 w :
  task_recipients env config post atts (l1 ++ l2) w
  = match task_recipients env config post atts l1 w with
    | (true, w') => task_recipients env config post atts l2 w'
    | (false, w') => (false, w')
    end.
Proof.
  revert w. induction l1 as [|r l1 IH]; intros w; [done|].
  cbn [app task_recipients]. unfold bind.
  destruct (SendEmail _ _ _ _ _ _ _ _ _ _ _) as [[err|] w1]; [done|apply IH].
Qed.

(** X4. In every run of [task] in which the database opens, the posts
    [finished] are gone through, the tables of the next post are exported, its
    recipients [served] are sent to, and the exchange for the next recipient
    fails at some stage with error [e], the run stops there: the message for
    that recipient is built, the exchange fails, the failure is logged and the
    database is closed. The recipients after it get no message, the posts
    after it are not looked at: no further query is issued and no further
    exchange started. *)
Theorem task_stops_at_failed_send env config w db w0 finished post later
    attachments w1 w2 served recipient waiting w3 stage e :
  createDMDB env (db_Username (DB config)) (db_Password (DB config))
             (db_Host (DB config)) (itoa (db_Port (DB config))) w
  = (Ok db, w0) ->
  Post config = finished ++ post :: later ->
  task_posts env db config finished w0 = (true, w1) ->
  task_attachments env db (Attachment_ post) [] w1 = (Some attachments, w2) ->
  To post = served ++ recipient :: waiting ->
  task_recipients env config post attachments served w2 = (true, w3) ->
  let s := session_of env w3 (email_Host (Email config))
                      (itoa (email_Port (Email config)))
                      (email_Username (Email config))
                      (email_Password (Email config))
                      (From post) recipient (Subject post) (Body post)
                      attachments in
  env_smtp env (sessions w3) s = Some (stage, e) ->
  let final := snd (task env config w) in
  trace final
  = trace w3 ++ [EvBuild recipient (boundary_at env w3);
                 EvSession s (Some (stage, e));
                 EvSendFailed recipient e;
                 EvCloseDB (SQL.db_dsn db)] /\
  queries final = queries w3 /\
  sessions final = S (sessions w3).
Proof.
  intros Hdb Hposts Hdone Hatts Hto Hserved s Hfail final. subst final.
  unfold task, bind. rewrite Hdb, Hposts, task_posts_app, Hdone.
  cbn [task_posts]. unfold bind.
  rewrite Hatts, Hto, task_recipients_app, Hserved.
  cbn [task_recipients]. unfold bind. rewrite SendEmail_spec.
  fold s. rewrite Hfail. cbn [error_of].
  unfold ret, emit. cbn [snd trace queries sessions].
  rewrite <- !app_assoc. done.
Qed.

(** The theorem at [two_posts], with a mail server that refuses the second
    recipient of the first post. *)
Lemma task_stops_at_failed_send_witness :
  let s := session_of env_second_refused after_first_recipient
                      "smtp.qq.com" "465" "u" "p" "a@qq.com" "y@qq.com"
                      "SECOND" "CONTENT" exported_attachments in
  let final := snd (task env_second_refused two_posts initial) in
  trace final
  = trace after_first_recipient
    ++ [EvBuild "y@qq.com"
                (boundary_at env_second_refused after_first_recipient);
        EvSession s (Some (StRcpt, "550 no such user"));
        EvSendFailed "y@qq.com" "550 no such user";
        EvCloseDB "dm://SYSDBA:pw@dbhost:5236"] /\
  queries final = queries after_first_recipient /\
  sessions final = S (sessions after_first_recipient).
Proof.
  apply (task_stops_at_failed_send env_second_refused two_posts initial
           dm_handle
           (add_events initial [EvOpenDB "dm://SYSDBA:pw@dbhost:5236"])
           [] failing_post [last_post]
           exported_attachments
           (add_events initial [EvOpenDB "dm://SYSDBA:pw@dbhost:5236"])
           after_exports ["x@qq.com"] "y@qq.com" [] after_first_recipient
           StRcpt "550 no such user").
  - vm_compute. reflexivity.
  - reflexivity.
  - reflexivity.
  - unfold exported_attachments, after_exports. vm_compute. reflexivity.
  - reflexivity.
  - unfold after_first_recipient. apply pair_of_fst. vm_compute. reflexivity.
  - reflexivity.
Defined.

(** ** The second recipient *)

Lemma drained_of_empty h attachments :
  Forall (fun a => default [] (h !! file a) = []) attachments ->
  fst (drained h attachments) = empty_parts attachments.
Proof.
  revert h. induction attachments as [|a rest IH]; intros h Hall; [done|].
  inversion Hall as [|? ? Ha Hrest]; subst. cbn [drained empty_parts map].
  specialize (IH (<[file a := []]> h)).
  destruct (drained (<[file a := []]> h) rest) as [parts h'].
  cbn [fst] in *. rewrite Ha. f_equal. apply IH.
  apply Forall_forall. intros b Hb.
  destruct (decide (file b = file a)) as [->|Hne].
  - by rewrite lookup_insert_eq.
  - rewrite lookup_insert_ne by done.
    by apply (proj1 (Forall_forall _ _) Hrest).
Qed.

(** X5. [task] passes the same attachments to [SendEmail] for every recipient
    of a post, and the first call reads the buffers to their end. Whatever the
    attachments held, a second [SendEmail] with the same attachments hands the
    mail server a message whose attachment parts have the file names and types
    of the attachments and no content at all. *)
Theorem second_send_carries_empty_attachments env smtpServer port username
    password from to1 to2 subject body attachments w :
  let w1 := snd (SendEmail env smtpServer port username password from to1
                           subject body attachments w) in
  let b := boundary_at env w1 in
  exists s failed,
    trace (snd (SendEmail env smtpServer port username password from to2
                          subject body attachments w1))
    = trace w1 ++ [EvBuild to2 b; EvSession s failed] /\
    s_data s
    = delivery (go_range (env_range env (ranges w1))
                         (top_headers from to2 subject b))
               b body (empty_parts attachments).
Proof.
  intros w1 b. rewrite SendEmail_spec. cbn [snd trace].
  eexists _, _. split; [reflexivity|].
  rewrite session_data. fold b. f_equal.
  apply drained_of_empty.
  pose proof (SendEmail_empties_every_attachment env smtpServer port username
                password from to1 subject body attachments w) as H.
  exact H.
Qed.

(** ** A run in which nothing fails *)

Lemma task_attachments_succeed env db configs acc w :
  (forall n tableName, exists d, exports env n tableName d) ->
  exists attachments w',
    task_attachments env db configs acc w = (Some attachments, w').
Proof.
  intros Hexp. revert acc w. induction configs as [|c rest IH]; intros acc w.
  - by eexists _, _.
  - cbn [task_attachments]. unfold bind.
    destruct (Hexp (queries w) (Table c)) as [d Hd].
    rewrite (exportTableToExcel_exports env db (Table c) w d Hd). apply IH.
Qed.

Lemma task_recipients_succeed env config post attachments recipients w :
  (forall n s, env_smtp env n s = None) ->
  exists w',
    task_recipients env config post attachments recipients w = (true, w').
Proof.
  intros Hsmtp. revert w. induction recipients as [|r rest IH]; intros w.
  - by eexists.
  - cbn [task_recipients]. unfold bind. rewrite SendEmail_spec.
    cbv zeta. rewrite Hsmtp. cbn [error_of]. apply IH.
Qed.

Lemma task_posts_succeed env db config posts w :
  (forall n tableName, exists d, exports env n tableName d) ->
  (forall n s, env_smtp env n s = None) ->
  exists w', task_posts env db config posts w = (true, w').
Proof.
  intros Hexp Hsmtp. revert w. induction posts as [|post rest IH]; intros w.
  - by eexists.
  - cbn [task_posts]. unfold bind.
    destruct (task_attachments_succeed env db (Attachment_ post) [] w Hexp)
      as (atts & w1 & ->).
    destruct (task_recipients_succeed env config post atts (To post) w1 Hsmtp)
      as (w2 & ->).
    apply IH.
Qed.

(** X6. When the database opens and answers every query, the spreadsheet
    library writes every workbook and the mail server accepts every exchange,
    a run of [task] goes through every post and logs that it completed, as the
    last thing before it closes the database. *)
Theorem task_completes_when_nothing_fails env config w db w0 :
  createDMDB env (db_Username (DB config)) (db_Password (DB config))
             (db_Host (DB config)) (itoa (db_Port (DB config))) w
  = (Ok db, w0) ->
  (forall n tableName, exists d, exports env n tableName d) ->
  (forall n s, env_smtp env n s = None) ->
  exists evs,
    trace (snd (task env config w))
    = trace w ++ [EvOpenDB (SQL.db_dsn db)] ++ evs
      ++ [EvCompleted; EvCloseDB (SQL.db_dsn db)] /\
    exported_tables evs
    = flat_map (fun post => map Table (Attachment_ post)) (Post config) /\
    delivered_to evs = flat_map To (Post config).
Proof.
  intros Hdb Hexp Hsmtp. unfold task, bind. rewrite Hdb.
  apply createDMDB_Ok_inv in Hdb as [-> _].
  destruct (task_posts_events env db config (Post config)
              (add_events w [EvOpenDB (SQL.db_dsn db)]))
    as (evs & Hevs & _ & Hdone).
  destruct (task_posts_succeed env db config (Post config)
              (add_events w [EvOpenDB (SQL.db_dsn db)]) Hexp Hsmtp)
    as (w1 & Hposts).
  rewrite Hposts in *. cbn [fst snd] in *.
  exists evs. split; [|by apply Hdone].
  unfold emit. cbn [snd trace]. rewrite Hevs. cbn [add_events trace].
  by rewrite <- !app_assoc.
Qed.

(** The theorem at the configuration of the README. *)
Lemma task_completes_when_nothing_fails_witness :
  exists evs,
    trace (snd (task readme_env readme_config initial))
    = trace initial ++ [EvOpenDB (SQL.db_dsn dm_handle)] ++ evs
      ++ [EvCompleted; EvCloseDB (SQL.db_dsn dm_handle)] /\
    exported_tables evs
    = flat_map (fun post => map Table (Attachment_ post))
      (Post readme_config) /\
    delivered_to evs = flat_map To (Post readme_config).
Proof.
  apply (task_completes_when_nothing_fails readme_env readme_config initial
           dm_handle
           (add_events initial [EvOpenDB "dm://SYSDBA:pw@dbhost:5236"])).
  - vm_compute. reflexivity.
  - intros n tableName. eexists. apply readme_env_exports.
  - reflexivity.
Defined.

(** ** The exporter *)

(** X7. If the spreadsheet library fails to write the workbook, or writes it
    and fails to close it, [exportTableToExcel] returns that error and no
    buffer (in the second case although the document was written in full); it
    has issued its one query, and every buffer that existed before is as it
    was. *)
Theorem export_library_failure env db tableName w e :
  LibraryFailure env w tableName e ->
  exists w',
    exportTableToExcel env db tableName w = (Err e, w') /\
    queries w' = S (queries w) /\
    trace w' = trace w ++ [EvExport tableName] /\
    forall p, p ∈ dom (heap w) -> heap w' !! p = heap w !! p.
Proof.
  intros H. rewrite exportTableToExcel_unfold.
  destruct H as [rows columns doc e Hq Hc Hdoc He Hw
                |rows columns doc d e Hq Hc Hdoc He Hw Hcl].
  - rewrite Hq, Hc, Hdoc, He, Hw. by eexists.
  - rewrite Hq, Hc, Hdoc, He, Hw, Hcl. eexists. split; [done|].
    repeat split. intros p Hp. cbn [after_alloc heap].
    apply lookup_insert_ne. intros <-. by apply is_fresh in Hp.
Qed.

(** The theorem at a library whose [file.Close] fails. *)
Lemma export_library_failure_witness :
  exists w',
    exportTableToExcel env_close_fails dm_handle "T1" initial
    = (Err "close: bad file descriptor", w') /\
    queries w' = S (queries initial) /\
    trace w' = trace initial ++ [EvExport "T1"] /\
    forall p, p ∈ dom (heap initial) -> heap w' !! p = heap initial !! p.
Proof.
  apply (export_library_failure env_close_fails dm_handle "T1" initial).
  apply (CloseFailed _ _ _ small_table ["ID"; "NAME"] small_doc
                     (plain_bytes small_doc));
    vm_compute; reflexivity.
Defined.

Lemma string_of_bytes_of (s : string) : string_of (bytes_of s) = s.
Proof. apply String.string_of_list_ascii_of_string. Qed.

Lemma bytes_of_string_of (b : bytes) : bytes_of (string_of b) = b.
Proof. apply String.list_ascii_of_string_of_list_ascii. Qed.

Lemma export_row_spell_null f sheetName rowNum colNum cells :
  export_row f sheetName rowNum colNum (map spell_null cells)
  = export_row f sheetName rowNum colNum cells.
Proof.
  revert f colNum. induction cells as [|v rest IH]; intros f colNum; [done|].
  cbn [map export_row].
  destruct (CoordinatesToCellName (colNum + 1) rowNum) as [cell err].
  destruct v as [b|]; cbn [spell_null]; rewrite ?string_of_bytes_of;
    destruct (SetCellValue f sheetName cell _) as [f' err']; apply IH.
Qed.

(** X8. The exported cells do not tell an SQL NULL from the text NULL: the row
    loop writes the same workbook, or fails with the same error, when in every
    scanned row each SQL NULL is replaced by a value holding the four
    characters NULL. *)
Theorem export_cannot_tell_null_from_text f sheetName ncols rowNum next :
  export_rows f sheetName ncols rowNum (map spell_nulls next)
  = export_rows f sheetName ncols rowNum next.
Proof.
  revert f rowNum. induction next as [|row rest IH]; intros f rowNum; [done|].
  cbn [map export_rows].
  destruct row as [cells|e]; cbn [spell_nulls SQL.Scan]; [|done].
  rewrite length_map.
  destruct (length cells =? ncols)%nat; [|done].
  rewrite export_row_spell_null. apply IH.
Qed.

(** ** The attachments of a post *)

Lemma exportTableToExcel_Ok_heap env db tableName w p w' :
  exportTableToExcel env db tableName w = (Ok p, w') ->
  p = fresh (dom (heap w)) /\ exists d, heap w' = <[p := d]> (heap w).
Proof.
  rewrite exportTableToExcel_unfold.
  repeat match goal with
         | |- context [match ?x with _ => _ end] => destruct x
         end; try discriminate.
  intros [= <- <-]. split; [done|]. by eexists.
Qed.

Lemma task_attachments_acc env db configs acc w attachments w' :
  task_attachments env db configs acc w = (Some attachments, w') ->
  exists new,
    attachments = acc ++ new /\
    map fileName new = map Excel configs /\
    Forall (fun a => mimeType a = xlsxMime) new /\
    NoDup (map file new) /\
    Forall (fun a => (file a ∉ dom (heap w)) /\ (file a ∈ dom (heap w')))
           new /\
    dom (heap w) ⊆ dom (heap w') /\
    forall p, p ∈ dom (heap w) -> heap w' !! p = heap w !! p.
Proof.
  revert acc w. induction configs as [|c rest IH]; intros acc w H.
  - injection H as <- <-. exists []. rewrite app_nil_r.
    repeat split; try done; constructor.
  - cbn [task_attachments] in H. unfold bind in H.
    destruct (exportTableToExcel env db (Table c) w) as [[p|e] w1] eqn:Hexp;
      [|done].
    apply exportTableToExcel_Ok_heap in Hexp as [Hp [d Hheap]].
    apply IH in H as (new & -> & Hnames & Hmime & Hnd & Hfresh & Hsub & Hframe).
    assert (p ∉ dom (heap w)) as Hpw by (rewrite Hp; apply is_fresh).
    assert (p ∈ dom (heap w1)) as Hpw1.
    { rewrite Hheap, dom_insert. set_solver. }
    assert (dom (heap w) ⊆ dom (heap w1)) as Hsub1.
    { rewrite Hheap, dom_insert. set_solver. }
    exists (mkAttachment (Excel c) xlsxMime p :: new).
    rewrite <- app_assoc. split; [done|]. cbn [map fileName file].
    split; [by f_equal|]. split; [by constructor|].
    split.
    { apply NoDup_cons. split; [|done].
      intros Hin. apply list_elem_of_fmap in Hin as (a & Ha & Hin).
      apply (proj1 (Forall_forall _ _) Hfresh) in Hin as [Hin _].
      cbn in Ha. by rewrite <- Ha in Hin. }
    split.
    { constructor.
      - cbn [file]. split; [done|]. by apply Hsub.
      - apply Forall_forall. intros a Ha.
        apply (proj1 (Forall_forall _ _) Hfresh) in Ha as [Ha1 Ha2].
        split; [|done]. intros Hin. apply Ha1. by apply Hsub1. }
    split; [set_solver|].
    intros q Hq. rewrite Hframe by (by apply Hsub1). rewrite Hheap.
    apply lookup_insert_ne. by intros <-.
Qed.

(** X9. When the exports of a post all go through, the attachments [task] has
    collected carry the configured file names in the order of the
    configuration and the XLSX type; each holds a buffer of its own, made by
    its export and different from every other and from every buffer that
    existed before; and no earlier buffer has been touched. *)
Theorem task_attachments_named_and_distinct env db configs w attachments w' :
  task_attachments env db configs [] w = (Some attachments, w') ->
  map fileName attachments = map Excel configs /\
  Forall (fun a => mimeType a = xlsxMime) attachments /\
  NoDup (map file attachments) /\
  Forall (fun a => (file a ∉ dom (heap w)) /\ (file a ∈ dom (heap w')))
         attachments /\
  forall p, p ∈ dom (heap w) -> heap w' !! p = heap w !! p.
Proof.
  intros H.
  apply task_attachments_acc in H
    as (new & -> & Hnames & Hmime & Hnd & Hfresh & _ & Hframe).
  done.
Qed.

(** The theorem at the three tables of [failing_post]. *)
Lemma task_attachments_named_and_distinct_witness :
  let w := add_events initial [EvOpenDB "dm://SYSDBA:pw@dbhost:5236"] in
  map fileName exported_attachments = map Excel (Attachment_ failing_post) /\
  Forall (fun a => mimeType a = xlsxMime) exported_attachments /\
  NoDup (map file exported_attachments) /\
  Forall (fun a => (file a ∉ dom (heap w))
    /\ (file a ∈ dom (heap after_exports)))
         exported_attachments /\
  forall p, p ∈ dom (heap w) -> heap after_exports !! p = heap w !! p.
Proof.
  apply (task_attachments_named_and_distinct env_second_refused dm_handle
           (Attachment_ failing_post)
           (add_events initial [EvOpenDB "dm://SYSDBA:pw@dbhost:5236"])
           exported_attachments after_exports).
  unfold exported_attachments, after_exports. vm_compute. reflexivity.
Defined.

(** ** Values longer than a cell *)

Lemma count_loop_from (cnt : Z) (l : list (bytes * bool)) :
  count_loop cnt l = cnt + count_loop 0 l.
Proof.
  unfold count_loop. revert cnt.
  induction l as [|r l IH]; intros cnt; cbn [fold_left]; [lia|].
  rewrite IH, (IH (0 + _)). lia.
Qed.

Lemma count_loop_cons (r : bytes * bool) (l : list (bytes * bool)) :
  count_loop 0 (r :: l) = utf16_units (snd r) + count_loop 0 l.
Proof.
  unfold count_loop at 1. cbn [fold_left].
  exact (count_loop_from (0 + utf16_units (snd r)) l).
Qed.

(** The cut is made before the first rune that does not fit. *)
Lemma truncate_loop_cut (cnt limit : Z) (l : list (bytes * bool)) :
  limit < cnt + count_loop 0 l ->
  cnt <= limit ->
  exists kept r dropped,
    l = kept ++ r :: dropped /\
    truncate_loop cnt limit l = concat (map fst kept) /\
    cnt + count_loop 0 kept <= limit < cnt + count_loop 0 kept
                                       + utf16_units (snd r).
Proof.
  revert cnt. induction l as [|[r astral] l IH]; intros cnt Hlong Hcnt.
  - unfold count_loop in Hlong. cbn in Hlong. lia.
  - rewrite count_loop_cons in Hlong. cbn [snd] in Hlong.
    cbn [truncate_loop].
    destruct (Z.ltb_spec limit (cnt + utf16_units astral)) as [Hcut|Hfit].
    + exists [], (r, astral), l. split; [done|]. split; [done|].
      unfold count_loop. cbn [fold_left snd]. lia.
    + destruct (IH (cnt + utf16_units astral))
        as (kept & r' & dropped & -> & Ht & Hk); [lia|lia|].
      exists ((r, astral) :: kept), r', dropped. split; [done|].
      split; [cbn [map concat fst]; by rewrite Ht|].
      rewrite count_loop_cons. cbn [snd]. lia.
Qed.

(** X10. A value of more than 32767 UTF-16 code units is not exported whole,
    and the export does not say so: for every result set whose rows scan, the
    workbook is built without an error, and a cell within the sheet whose
    value is longer than that holds the longest run of whole characters from
    the start of the value that fits into 32767 code units; the character
    after it and all that follows are lost. *)
Theorem export_cuts_long_values columns data n row k b :
  Forall (fun row => length row = length columns) data ->
  data !! n = Some row ->
  row !! k = Some (Some b) ->
  Z.of_nat k + 1 <= MaxColumns ->
  Z.of_nat n + 2 <= TotalRows ->
  TotalCellChars < countUTF16String (string_of b) ->
  exists doc kept r dropped,
    workbook columns (map Ok data) = Ok doc /\
    Utf8.range_string b = kept ++ r :: dropped /\
    GetCell doc "Sheet1" (Z.of_nat k + 1) (Z.of_nat n + 2)
    = Some (string_of (concat (map fst kept))) /\
    count_loop 0 kept <= TotalCellChars
                      < count_loop 0 kept + utf16_units (snd r).
Proof.
  intros Hall Hn Hk Hcol Hrow Hlong.
  unfold countUTF16String in Hlong. rewrite bytes_of_string_of in Hlong.
  destruct (truncate_loop_cut 0 TotalCellChars (Utf8.range_string b))
    as (kept & r & dropped & Hsplit & Hcut & Hunits);
    [lia|unfold TotalCellChars; lia|].
  rewrite workbook_ok by done. eexists _, kept, r, dropped.
  split; [reflexivity|]. split; [exact Hsplit|]. split; [|lia].
  unfold GetCell, sheet1. cbn [f_sheets cells]. rewrite String.eqb_refl.
  replace (Z.of_nat n + 2) with (2 + Z.of_nat n) by lia.
  rewrite (write_rows_lookup _ 2 data n row k (Some b) Hn Hk).
  - cbn [cell_text]. unfold setCellString, countUTF16String.
    rewrite bytes_of_string_of.
    destruct (Z.ltb_spec TotalCellChars (count_loop 0 (Utf8.range_string b)));
      [|lia].
    unfold truncateUTF16Units. by rewrite bytes_of_string_of, Hcut.
  - apply valid_coordinates_intro; lia.
Qed.

(** The theorem at a table of one column and one row holding
    [long_value]. *)
Lemma export_cuts_long_values_witness :
  exists doc kept r dropped,
    workbook ["TEXT"] (map Ok [[Some long_value]]) = Ok doc /\
    Utf8.range_string long_value = kept ++ r :: dropped /\
    GetCell doc "Sheet1" 1 2 = Some (string_of (concat (map fst kept))) /\
    count_loop 0 kept <= TotalCellChars
                      < count_loop 0 kept + utf16_units (snd r).
Proof.
  apply (export_cuts_long_values ["TEXT"] [[Some long_value]] 0
           [Some long_value]
           0 long_value).
  - by repeat constructor.
  - reflexivity.
  - reflexivity.
  - vm_compute. discriminate.
  - vm_compute. discriminate.
  - vm_compute. reflexivity.
Defined.

(** ** The message on the wire *)

Lemma bytes_of_app (s t : string) :
  bytes_of (s +:+ t) = bytes_of s ++ bytes_of t.
Proof.
  unfold bytes_of. induction s as [|c s IH]; [done|]. simpl. by f_equal.
Qed.

Lemma body_part_head boundary body :
  body_part boundary body
  = bytes_of (body_head boundary) ++ QP.encode_all (bytes_of body).
Proof.
  unfold body_part, body_head. rewrite !bytes_of_app, <- !app_assoc.
  reflexivity.
Qed.

Lemma attachment_part_head boundary fileName mimeType payload :
  attachment_part boundary (fileName, mimeType, payload)
  = bytes_of (attachment_head boundary fileName mimeType)
    ++ Base64.encode payload.
Proof.
  unfold attachment_part, attachment_head.
  change (Multipart.header_lines _)
    with (("Content-Disposition" +:+ ": "
           +:+ ("attachment; filename=" +:+ dquote +:+ fileName +:+ dquote)
           +:+ crlf)
          +:+ ("Content-Transfer-Encoding" +:+ ": " +:+ "base64" +:+ crlf)
          +:+ ("Content-Type" +:+ ": " +:+ mimeType +:+ crlf)).
  rewrite !bytes_of_app, <- !app_assoc. reflexivity.
Qed.

(** X11. When the attachments hold different buffers, the bytes [SendEmail]
    hands to the mail server are, in this order and with nothing between or
    after them: the header block; the body part, opened by the delimiter line
    and its two headers and followed by the quoted-printable text of the body;
    and one part per attachment, in the order of the list, opened by a line
    break, the delimiter line and its three headers (Content-Disposition with
    the file name, then Content-Transfer-Encoding, then Content-Type) and
    followed by the base64 text of what the buffer held. No closing delimiter
    follows. *)
Theorem SendEmail_message_layout env smtpServer port username password from
    to subject body attachments w :
  NoDup (map file attachments) ->
  let b := boundary_at env w in
  let order :=
    go_range (env_range env (ranges w)) (top_headers from to subject b) in
  exists s failed,
    trace (snd (SendEmail env smtpServer port username password from to
                          subject body attachments w))
    = trace w ++ [EvBuild to b; EvSession s failed] /\
    s_data s
    = header_block order
      ++ bytes_of (body_head b) ++ QP.encode_all (bytes_of body)
      ++ flat_map (fun a =>
                     bytes_of (attachment_head b (fileName a) (mimeType a))
                     ++ Base64.encode (contents w (file a)))
                  attachments.
Proof.
  intros Hnd b order. rewrite SendEmail_spec. cbn [snd trace].
  eexists _, _. split; [reflexivity|].
  rewrite session_data. fold b. fold order. unfold delivery.
  rewrite body_part_head, <- !app_assoc. do 3 f_equal.
  rewrite drained_parts_NoDup by done.
  induction attachments as [|a rest IH]; [done|].
  apply NoDup_cons in Hnd as [_ Hnd]. cbn [map flat_map].
  rewrite attachment_part_head. unfold contents at 1. by rewrite IH.
Qed.

(** The theorem at one attachment, in the world [one_buffer]. *)
Lemma SendEmail_message_layout_witness :
  let b := boundary_at quiet_env one_buffer in
  let order :=
    go_range (env_range quiet_env (ranges one_buffer))
             (top_headers "a@qq.com" "x@qq.com" "SUBJECT" b) in
  exists s failed,
    trace (snd (SendEmail quiet_env "smtp.qq.com" "465" "u" "p" "a@qq.com"
                          "x@qq.com" "SUBJECT" "CONTENT"
                          [mkAttachment "01.xlsx" xlsxMime 7] one_buffer))
    = trace one_buffer ++ [EvBuild "x@qq.com" b; EvSession s failed] /\
    s_data s
    = header_block order
      ++ bytes_of (body_head b) ++ QP.encode_all (bytes_of "CONTENT")
      ++ flat_map (fun a =>
                     bytes_of (attachment_head b (fileName a) (mimeType a))
                     ++ Base64.encode (contents one_buffer (file a)))
                  [mkAttachment "01.xlsx" xlsxMime 7].
Proof.
  apply (SendEmail_message_layout quiet_env "smtp.qq.com" "465" "u" "p"
           "a@qq.com" "x@qq.com" "SUBJECT" "CONTENT"
           [mkAttachment "01.xlsx" xlsxMime 7] one_buffer).
  apply NoDup_singleton.
Defined.

(** ** From the tables to the first recipient *)

Lemma task_attachments_exports env db configs ds acc w :
  Forall2 (fun c d => forall n, exports env n (Table c) d) configs ds ->
  exists new w',
    task_attachments env db configs acc w = (Some (acc ++ new), w') /\
    map fileName new = map Excel configs /\
    Forall (fun a => mimeType a = xlsxMime) new /\
    Forall2 (fun a d => heap w' !! file a = Some d) new ds /\
    NoDup (map file new) /\
    Forall (fun a => file a ∉ dom (heap w)) new /\
    (forall p, p ∈ dom (heap w) -> heap w' !! p = heap w !! p) /\
    rand_pos w' = rand_pos w /\ ranges w' = ranges w /\
    sessions w' = sessions w /\
    trace w' = trace w ++ map EvExport (map Table configs).
Proof.
  intros Hexp. revert acc w.
  induction Hexp as [|c d configs ds Hd _ IH]; intros acc w.
  { exists [], w. rewrite !app_nil_r. repeat split; try done; constructor. }
  cbn [task_attachments]. unfold bind.
  rewrite (exportTableToExcel_exports env db (Table c) w d (Hd (queries w))).
  set (p := fresh (dom (heap w))).
  set (a := mkAttachment (Excel c) xlsxMime p).
  destruct (IH (acc ++ [a]) (after_alloc w (Table c) d))
    as (new & w' & Hrun & Hnames & Hmime & Hheld & Hnd & Hfresh & Hframe
        & Hrand & Hranges & Hsessions & Htrace).
  assert (p ∉ dom (heap w)) as Hp by apply is_fresh.
  assert (p ∈ dom (heap (after_alloc w (Table c) d))) as Hp1.
  { apply elem_of_dom. exists d. apply lookup_insert_eq. }
  assert (forall q, q ∈ dom (heap w) ->
                    q ∈ dom (heap (after_alloc w (Table c) d))) as Hsub.
  { intros q Hq. by apply (dom_insert_subseteq (heap w) p d). }
  exists (a :: new), w'. rewrite Hrun, <- app_assoc.
  split; [done|]. split; [cbn [map fileName]; by f_equal|].
  split; [by constructor|]. split.
  { constructor; [|done]. cbn [file a]. rewrite Hframe by done.
    apply lookup_insert_eq. }
  split.
  { cbn [map file a]. apply NoDup_cons. split; [|done].
    intros Hin. apply list_elem_of_fmap in Hin as (a' & Ha' & Hin).
    apply (proj1 (Forall_forall _ _) Hfresh) in Hin.
    apply Hin. by rewrite <- Ha'. }
  split.
  { constructor; [done|]. apply Forall_forall. intros a' Ha'.
    apply (proj1 (Forall_forall _ _) Hfresh) in Ha'.
    intros Hin. by apply Ha', Hsub. }
  split.
  { intros q Hq. rewrite Hframe by (by apply Hsub).
    apply lookup_insert_ne. by intros <-. }
  split; [done|]. split; [done|]. split; [done|].
  rewrite Htrace. cbn [after_alloc trace map]. by rewrite <- app_assoc.
Qed.

Lemma attachment_parts_of_tables b configs ds new (h : gmap nat bytes) :
  map fileName new = map Excel configs ->
  Forall (fun a => mimeType a = xlsxMime) new ->
  Forall2 (fun a d => h !! file a = Some d) new ds ->
  flat_map (attachment_part b)
           (map (fun a => (fileName a, mimeType a, default [] (h !! file a)))
                new)
  = flat_map (fun cd => bytes_of (attachment_head b (Excel (fst cd)) xlsxMime)
                        ++ Base64.encode (snd cd))
             (zip configs ds).
Proof.
  intros Hnames Hmime Hheld. revert configs Hnames Hmime.
  induction Hheld as [|a d new ds Ha _ IH]; intros configs Hnames Hmime.
  { by destruct configs. }
  destruct configs as [|c configs]; [done|].
  injection Hnames as Hname Hnames. inversion Hmime as [|? ? Hm Hmime']; subst.
  cbn [map flat_map zip zip_with fst snd].
  rewrite attachment_part_head, Ha, Hname, Hm. cbn [default]. f_equal.
  by apply IH.
Qed.

(** X12. The tables of a post reach its first recipient: when every table of
    the post is exported (table by table, to the documents [ds]), [task]
    exports them in the order of the configuration and then hands the mail
    server, for the first recipient of the post, a message with the body of
    the post and one attachment part per table, in that order, under the
    configured file name and with the XLSX type, holding the base64 text of
    the document exported for that table. *)
Theorem first_recipient_gets_the_tables env db config post later recipient
    others ds w :
  Forall2 (fun c d => forall n, exports env n (Table c) d)
          (Attachment_ post) ds ->
  To post = recipient :: others ->
  let b := boundary_at env w in
  let order :=
    go_range (env_range env (ranges w))
             (top_headers (From post) recipient (Subject post) b) in
  exists s failed evs,
    trace (snd (task_posts env db config (post :: later) w))
    = trace w ++ map EvExport (map Table (Attachment_ post))
      ++ [EvBuild recipient b; EvSession s failed] ++ evs /\
    s_data s
    = header_block order
      ++ bytes_of (body_head b) ++ QP.encode_all (bytes_of (Body post))
      ++ flat_map (fun cd =>
                     bytes_of (attachment_head b (Excel (fst cd)) xlsxMime)
                     ++ Base64.encode (snd cd))
                  (zip (Attachment_ post) ds).
Proof.
  intros Hexp Hto b order.
  destruct (task_attachments_exports env db (Attachment_ post) ds [] w Hexp)
    as (atts & w1 & Hrun & Hnames & Hmime & Hheld & Hnd & _ & _
        & Hrand & Hranges & Hsessions & Htrace).
  cbn [app] in Hrun.
  assert (boundary_at env w1 = b) as Hb.
  { unfold b, boundary_at, read_rand. cbn [fst]. by rewrite Hrand. }
  cbn [task_posts]. unfold bind. rewrite Hrun, Hto.
  cbn [task_recipients]. unfold bind. rewrite SendEmail_spec.
  set (s := session_of _ _ _ _ _ _ _ _ _ _ _).
  set (failed := env_smtp env (sessions w1) s).
  set (w2 := mkWorld _ _ _ _ _ _).
  assert (trace w2 = trace w ++ map EvExport (map Table (Attachment_ post))
                     ++ [EvBuild recipient b; EvSession s failed]) as Hw2.
  { subst w2. cbn [trace]. by rewrite Htrace, Hb, <- app_assoc. }
  assert (s_data s
          = header_block order
            ++ bytes_of (body_head b) ++ QP.encode_all (bytes_of (Body post))
            ++ flat_map
                 (fun cd =>
                    bytes_of (attachment_head b (Excel (fst cd)) xlsxMime)
                    ++ Base64.encode (snd cd))
                 (zip (Attachment_ post) ds)) as Hdata.
  { subst s. rewrite session_data, Hb, Hranges. fold order. unfold delivery.
    rewrite body_part_head, <- !app_assoc. do 3 f_equal.
    rewrite drained_parts_NoDup by done.
    by apply attachment_parts_of_tables. }
  exists s, failed.
  destruct failed as [[stage err]|]; cbn [error_of].
  - exists [EvSendFailed recipient err]. split; [|done].
    unfold emit, ret. cbn [snd trace]. rewrite Hw2.
    by rewrite <- !app_assoc.
  - match goal with
    | |- context [task_recipients env config post atts others ?w'] =>
        destruct (task_recipients_events env config post atts others w')
          as (evs1 & Hevs1 & _);
        destruct (task_recipients env config post atts others w')
          as [continue w3]
    end.
    cbn [snd] in Hevs1. destruct continue.
    + destruct (task_posts_events env db config later w3)
        as (evs2 & Hevs2 & _).
      exists (evs1 ++ evs2). split; [|done].
      rewrite Hevs2, Hevs1, Hw2. by rewrite <- !app_assoc.
    + exists evs1. split; [|done]. unfold ret. cbn [snd].
      rewrite Hevs1, Hw2. by rewrite <- !app_assoc.
Qed.

(** The theorem at the post of the README's configuration. *)
Lemma first_recipient_gets_the_tables_witness :
  let post :=
    mkPostConfig "a@qq.com" ["x@qq.com"; "y@qq.com"] "SUBJECT" "CONTENT"
                 [mkTableAttachmentConfig "TEST_01" "01.xlsx";
                  mkTableAttachmentConfig "TEST_02" "02.xlsx"] in
  let ds := [plain_bytes small_doc; plain_bytes small_doc] in
  let b := boundary_at readme_env initial in
  let order :=
    go_range (env_range readme_env (ranges initial))
             (top_headers (From post) "x@qq.com" (Subject post) b) in
  exists s failed evs,
    trace (snd (task_posts readme_env dm_handle readme_config [post] initial))
    = trace initial ++ map EvExport (map Table (Attachment_ post))
      ++ [EvBuild "x@qq.com" b; EvSession s failed] ++ evs /\
    s_data s
    = header_block order
      ++ bytes_of (body_head b) ++ QP.encode_all (bytes_of (Body post))
      ++ flat_map (fun cd =>
                     bytes_of (attachment_head b (Excel (fst cd)) xlsxMime)
                     ++ Base64.encode (snd cd))
                  (zip (Attachment_ post) ds).
Proof.
  apply (first_recipient_gets_the_tables readme_env dm_handle readme_config
           (mkPostConfig "a@qq.com" ["x@qq.com"; "y@qq.com"] "SUBJECT"
                         "CONTENT"
                         [mkTableAttachmentConfig "TEST_01" "01.xlsx";
                          mkTableAttachmentConfig "TEST_02" "02.xlsx"])
           [] "x@qq.com" ["y@qq.com"]
           [plain_bytes small_doc; plain_bytes small_doc] initial).
  - repeat constructor; intros n; apply readme_env_exports.
  - reflexivity.
Defined.

(** ** The boundary token *)

Lemma hex_digit_in_table (n : N) :
  (n < 16)%N -> Hex.digit Hex.lowerhex n ∈ Hex.lowerhex.
Proof.
  intros Hn. unfold Hex.digit. apply list_elem_of_In, nth_In.
  change (length Hex.lowerhex) with 16%nat. lia.
Qed.

Lemma hex_encode_byte_digits (b : ascii) :
  Forall (fun c => c ∈ Hex.lowerhex) (Hex.encode_byte Hex.lowerhex b).
Proof.
  assert (byte_val b < 256)%N as Hb by apply N_ascii_bounded.
  unfold Hex.encode_byte.
  apply Forall_cons_2; [|apply Forall_cons_2; [|apply Forall_nil_2]];
    apply hex_digit_in_table.
  - rewrite N.shiftr_div_pow2. change (2 ^ 4)%N with 16%N.
    apply N.Div0.div_lt_upper_bound. lia.
  - change 15%N with (N.ones 4). rewrite N.land_ones. by apply N.mod_lt.
Qed.

Lemma hex_encode_digits (l : bytes) :
  Forall (fun c => c ∈ Hex.lowerhex) (Hex.encode l).
Proof.
  unfold Hex.encode. induction l as [|b l IH]; [constructor|].
  cbn [flat_map]. apply Forall_app. split; [apply hex_encode_byte_digits|done].
Qed.

Lemma hex_encode_length (l : bytes) :
  length (Hex.encode l) = (2 * length l)%nat.
Proof.
  unfold Hex.encode. induction l as [|b l IH]; [done|].
  cbn [flat_map]. rewrite length_app, IH. cbn. lia.
Qed.

Lemma string_of_length (l : bytes) : String.length (string_of l) = length l.
Proof.
  unfold string_of. induction l as [|c l IH]; [done|]. cbn. by f_equal.
Qed.

(** X13. The message [SendEmail] hands to the mail server carries, in its
    Content-Type header and in every delimiter line, a boundary token of
    exactly 60 characters, each a digit or a letter from a to f, whatever the
    random source delivers: a boundary that needs no quoting in the
    header. *)
Theorem boundary_is_sixty_hex_digits env smtpServer port username password
    from to subject body attachments w :
  exists b order s failed,
    trace (snd (SendEmail env smtpServer port username password from to
                          subject body attachments w))
    = trace w ++ [EvBuild to b; EvSession s failed] /\
    Permutation order (top_headers from to subject b) /\
    s_data s = delivery order b body (fst (drained (heap w) attachments)) /\
    String.length b = 60%nat /\
    Forall (fun c => c ∈ Hex.lowerhex) (bytes_of b).
Proof.
  rewrite SendEmail_spec. cbn [snd trace].
  eexists _, _, _, _. split; [reflexivity|].
  split; [|split; [apply session_data|]].
  - apply go_range_Permutation.
  - unfold boundary_at, read_rand. cbn [fst].
    rewrite string_of_length, hex_encode_length, length_map, length_seq.
    split; [done|]. rewrite bytes_of_string_of. apply hex_encode_digits.
Qed.


(** ** The header block (C10) *)

Lemma no_line_break_CR (s : string) : no_line_break s -> CR ∉ bytes_of s.
Proof.
  unfold no_line_break. intros H Hin.
  rewrite forallb_forall in H. apply list_elem_of_In in Hin.
  apply H in Hin. discriminate Hin.
Qed.

Lemma split_at_line (line rest : bytes) :
  CR ∉ line -> Reader.split_at CRLF (line ++ CRLF ++ rest) = Some (line, rest).
Proof.
  induction line as [|c line IH]; intros Hcr.
  - reflexivity.
  - cbn [app Reader.split_at].
    assert (c <> CR) as Hc by (intros ->; apply Hcr, list_elem_of_here).
    assert (has_prefix CRLF (c :: line ++ CRLF ++ rest) = false) as ->.
    { cbn [CRLF has_prefix]. destruct (Ascii.eqb_spec CR c); [congruence|done]. }
    rewrite IH; [done|]. intros Hin. apply Hcr. by apply list_elem_of_further.
Qed.

Lemma header_section_lines (ls : list bytes) (rest : bytes) (fuel : nat) :
  Forall (fun l => l <> [] /\ CR ∉ l) ls ->
  (length ls < fuel)%nat ->
  Reader.header_section fuel (flat_map (fun l => l ++ CRLF) ls ++ CRLF ++ rest)
  = Some (ls, rest).
Proof.
  revert fuel. induction ls as [|l ls IH]; intros fuel Hall Hfuel.
  - destruct fuel as [|fuel]; [simpl in Hfuel; lia|]. reflexivity.
  - destruct fuel as [|fuel]; [simpl in Hfuel; lia|].
    apply Forall_cons in Hall as [[Hne Hcr] Hall].
    cbn [flat_map Reader.header_section]. rewrite <- !app_assoc.
    rewrite (split_at_line l _ Hcr).
    rewrite IH; [|done|simpl in Hfuel; lia].
    destruct l; [done|reflexivity].
Qed.

Lemma header_section_fuel (ls : list bytes) (rest : bytes) :
  (length ls < length (flat_map (fun l => l ++ CRLF) ls ++ CRLF ++ rest))%nat.
Proof.
  induction ls as [|l ls IH]; cbn [flat_map length app CRLF]; [lia|].
  rewrite <- app_assoc, !length_app in *. cbn [length] in *. lia.
Qed.

Lemma not_CR_in_app (l1 l2 : bytes) : CR ∉ l1 -> CR ∉ l2 -> CR ∉ l1 ++ l2.
Proof. intros H1 H2 Hin. apply elem_of_app in Hin as [?|?]; tauto. Qed.

Lemma boundary_without_CR env w : CR ∉ bytes_of (boundary_at env w).
Proof.
  unfold boundary_at. rewrite bytes_of_string_of. intros Hin.
  apply (proj1 (Forall_forall _ _) (hex_encode_digits _)) in Hin.
  unfold Hex.lowerhex in Hin. cbn in Hin.
  repeat (apply elem_of_cons in Hin as [Hin|Hin]; [discriminate Hin|]).
  by apply elem_of_nil in Hin.
Qed.

Lemma top_headers_lines env w from to subject :
  no_line_break from -> no_line_break to -> no_line_break subject ->
  Forall (fun kv => field_line kv <> [] /\ CR ∉ field_line kv)
         (top_headers from to subject (boundary_at env w)).
Proof.
  intros Hf Ht Hs. unfold top_headers, field_line.
  apply no_line_break_CR in Hf, Ht, Hs.
  assert (forall name value : string,
            CR ∉ bytes_of name -> name <> EmptyString -> CR ∉ bytes_of value ->
            bytes_of (name +:+ ": " +:+ value) <> []
            /\ CR ∉ bytes_of (name +:+ ": " +:+ value)) as H.
  { intros name value Hn Hne Hv. split.
    - destruct name; [done|]. discriminate.
    - rewrite !bytes_of_app. apply not_CR_in_app; [done|].
      apply not_CR_in_app; [|done].
      intros Hin. cbn in Hin.
      repeat (apply elem_of_cons in Hin as [Hin|Hin]; [discriminate Hin|]).
      by apply elem_of_nil in Hin. }
  assert (forall l : bytes, forallb (fun c => negb (Ascii.eqb c CR)) l = true ->
                            CR ∉ l) as Hcheck.
  { intros l Hl Hin. rewrite forallb_forall in Hl.
    apply list_elem_of_In, Hl in Hin. by rewrite Ascii.eqb_refl in Hin. }
  repeat apply Forall_cons_2; try apply Forall_nil_2; cbn [fst snd];
    apply H; try done; try (by apply Hcheck).
  rewrite bytes_of_app. apply not_CR_in_app; [by apply Hcheck|].
  apply boundary_without_CR.
Qed.

Lemma header_lines_flat (order : list (string * string)) :
  flat_map (fun kv => bytes_of (fst kv +:+ ": " +:+ snd kv +:+ crlf)) order
  = flat_map (fun l => l ++ CRLF) (map field_line order).
Proof.
  induction order as [|kv order IH]; [done|].
  cbn [flat_map map]. rewrite IH. f_equal.
  unfold field_line. rewrite !bytes_of_app, <- !app_assoc. reflexivity.
Qed.

(** C10 (amended). For every call of [SendEmail] whose sender, recipient and
    subject hold no CR and no LF, the bytes handed to the mail server begin
    with a header section that a reader splits into exactly five lines, each
    ended by CR LF: the lines [key: value] of From, To, Subject, MIME-Version
    and Content-Type, each exactly once, in the order the map range takes.
    One empty line ends the section, and what follows it is the first
    delimiter line. The order is not fixed: the same arguments give
    different header blocks in two worlds that differ only in the order
    their map range takes. *)
Theorem header_block_each_once_without_line_breaks env smtpServer port
    username password from to subject body attachments w :
  no_line_break from -> no_line_break to -> no_line_break subject ->
  let b := boundary_at env w in
  let entries := top_headers from to subject b in
  let order := go_range (env_range env (ranges w)) entries in
  (Permutation order entries /\
   Permutation (map fst order)
               ["From"; "To"; "Subject"; "MIME-Version"; "Content-Type"]) /\
  (exists s failed rest,
     trace (snd (SendEmail env smtpServer port username password from to
                           subject body attachments w))
     = trace w ++ [EvBuild to b; EvSession s failed] /\
     Reader.header_section (length (s_data s)) (s_data s)
     = Some (map field_line order, bytes_of ("--" +:+ b +:+ crlf) ++ rest)) /\
  (boundary_at counting_env initial = boundary_at counting_env after_one_range /\
   header_block
     (go_range (env_range counting_env (ranges initial))
               (top_headers from to subject (boundary_at counting_env initial)))
   <> header_block
        (go_range (env_range counting_env (ranges after_one_range))
                  (top_headers from to subject
                               (boundary_at counting_env after_one_range)))).
Proof.
  intros Hf Ht Hs b entries order.
  assert (Permutation order entries) as Hperm by apply go_range_Permutation.
  split; [split; [exact Hperm|]|split].
  - change ["From"; "To"; "Subject"; "MIME-Version"; "Content-Type"]
      with (map fst entries).
    by apply Permutation_map.
  - rewrite SendEmail_spec. cbn [snd trace].
    destruct (message_starts_with_header_block
                (fst (read_rand 30 env w)) (env_range env (ranges w))
                from to subject body (fst (drained (heap w) attachments)))
      as [rest Hrest].
    eexists _, _, rest. split; [reflexivity|].
    unfold session_of. cbn [s_data]. rewrite Hrest.
    fold (boundary_at env w). fold b. fold entries. fold order.
    rewrite header_lines_flat.
    apply header_section_lines; [|apply header_section_fuel].
    apply Forall_map.
    apply (Permutation_Forall (x := entries)); [by symmetry|].
    by apply top_headers_lines.
  - split; [reflexivity|].
    intros H. discriminate H.
Qed.

(** The theorem at a message from a@qq.com to x@qq.com. *)
Lemma header_block_each_once_without_line_breaks_witness :
  let b := boundary_at quiet_env initial in
  let entries := top_headers "a@qq.com" "x@qq.com" "SUBJECT" b in
  let order := go_range (env_range quiet_env (ranges initial)) entries in
  (Permutation order entries /\
   Permutation (map fst order)
               ["From"; "To"; "Subject"; "MIME-Version"; "Content-Type"]) /\
  (exists s failed rest,
     trace (snd (SendEmail quiet_env "smtp.qq.com" "465" "u" "p" "a@qq.com"
                           "x@qq.com" "SUBJECT" "CONTENT" [] initial))
     = trace initial ++ [EvBuild "x@qq.com" b; EvSession s failed] /\
     Reader.header_section (length (s_data s)) (s_data s)
     = Some (map field_line order, bytes_of ("--" +:+ b +:+ crlf) ++ rest)) /\
  (boundary_at counting_env initial = boundary_at counting_env after_one_range /\
   header_block
     (go_range (env_range counting_env (ranges initial))
               (top_headers "a@qq.com" "x@qq.com" "SUBJECT"
                            (boundary_at counting_env initial)))
   <> header_block
        (go_range (env_range counting_env (ranges after_one_range))
                  (top_headers "a@qq.com" "x@qq.com" "SUBJECT"
                               (boundary_at counting_env after_one_range)))).
Proof.
  apply (header_block_each_once_without_line_breaks quiet_env "smtp.qq.com"
           "465" "u" "p" "a@qq.com" "x@qq.com" "SUBJECT" "CONTENT" [] initial);
    reflexivity.
Defined.

(** C10, as stated, fails. With the subject [subject_with_break], a string
    the configuration file can hold, the header section of the message has
    six lines, and two of them are To lines: the value is written into the
    block as it is, and its line break ends the Subject line. *)
Lemma header_block_repeats_To_after_line_break :
  exists b s failed lines rest,
    trace (snd (SendEmail quiet_env "smtp.qq.com" "465" "u" "p" "a@qq.com"
                          "x@qq.com" subject_with_break "CONTENT" [] initial))
    = [EvBuild "x@qq.com" b; EvSession s failed] /\
    Reader.header_section (length (s_data s)) (s_data s) = Some (lines, rest) /\
    map string_of lines
    = ["To: x@qq.com"; "Subject: S"; "To: evil@x"; "MIME-Version: 1.0";
       "From: a@qq.com"; "Content-Type: multipart/mixed; boundary=" +:+ b] /\
    List.filter (Reader.is_field "To") lines
    = [bytes_of "To: x@qq.com"; bytes_of "To: evil@x"].
Proof.
  eexists _, _, _, _, _.
  split; [vm_compute; reflexivity|].
  split; [vm_compute; reflexivity|].
  split; vm_compute; reflexivity.
Qed.

(** ** The body part *)

Lemma upperhex_digit_in_table (n : N) :
  (n < 16)%N -> Hex.digit Hex.upperhex n ∈ Hex.upperhex.
Proof.
  intros Hn. unfold Hex.digit. apply list_elem_of_In, nth_In.
  change (length Hex.upperhex) with 16%nat. lia.
Qed.

Lemma upperhex_encode_byte (b : ascii) :
  exists hi lo,
    Hex.encode_byte Hex.upperhex b = [hi; lo] /\
    hi ∈ Hex.upperhex /\ lo ∈ Hex.upperhex /\
    Hex.decode_byte hi lo = Some b.
Proof.
  eexists _, _. split; [reflexivity|].
  assert (byte_val b < 256)%N as Hb by apply N_ascii_bounded.
  split; [|split].
  - apply upperhex_digit_in_table. rewrite N.shiftr_div_pow2.
    change (2 ^ 4)%N with 16%N. apply N.Div0.div_lt_upper_bound. lia.
  - apply upperhex_digit_in_table. change 15%N with (N.ones 4).
    rewrite N.land_ones. by apply N.mod_lt.
  - destruct b as [[] [] [] [] [] [] [] []]; reflexivity.
Qed.

Lemma upperhex_facts (c : ascii) :
  c ∈ Hex.upperhex ->
  printable_char c /\ QP.isWhitespace c = false /\ c <> CR /\ c <> LF
  /\ c <> "="%char.
Proof.
  intros Hc. unfold Hex.upperhex in Hc. cbn in Hc.
  repeat (apply elem_of_cons in Hc as [->|Hc];
          [by repeat split; try discriminate; right; vm_compute|]).
  by apply elem_of_nil in Hc.
Qed.

(** *** Decoding token by token *)

Lemma decode_literal (b : ascii) (rest : bytes) :
  b <> "="%char ->
  QP.decode (b :: rest)
  = match QP.decode rest with Some out => Some (b :: out) | None => None end.
Proof.
  intros Hb. cbn [QP.decode].
  by destruct (Ascii.eqb_spec b "="%char).
Qed.

Lemma decode_escape (b : ascii) (rest : bytes) :
  QP.decode (("="%char :: Hex.encode_byte Hex.upperhex b) ++ rest)
  = match QP.decode rest with Some out => Some (b :: out) | None => None end.
Proof.
  destruct (upperhex_encode_byte b) as (hi & lo & -> & Hhi & Hlo & Hdec).
  apply upperhex_facts in Hhi as (_ & _ & Hcr & Hlf & _).
  cbn [app QP.decode]. rewrite Ascii.eqb_refl.
  destruct (Ascii.eqb_spec hi CR) as [|_]; [done|].
  destruct (Ascii.eqb_spec hi LF) as [|_]; [done|].
  cbn [andb]. by rewrite Hdec.
Qed.

Lemma decode_soft_break (rest : bytes) :
  QP.decode ("="%char :: CR :: LF :: rest) = QP.decode rest.
Proof. reflexivity. Qed.

Lemma decode_line_break (rest : bytes) :
  QP.decode (CR :: LF :: rest)
  = match QP.decode rest with Some out => Some (CR :: LF ::
    out) | None => None end.
Proof.
  rewrite decode_literal by discriminate.
    rewrite decode_literal by discriminate.
  by destruct (QP.decode rest).
Qed.

Lemma plain_not_equals (b : ascii) : plain_byte b = true -> b <> "="%char.
Proof. intros H ->. discriminate H. Qed.

Lemma decode_tokens (toks : list Token) (rest out : bytes) :
  Forall good_token toks ->
  QP.decode rest = Some out ->
  QP.decode (flat_map token_text toks ++ rest) = Some (map token_byte toks
    ++ out).
Proof.
  intros Hall Hrest. induction Hall as [|t toks Ht _ IH]; [done|].
  cbn [flat_map map]. rewrite <- !app_assoc. destruct t as [b|b];
    cbn [token_text token_byte].
  - cbn [app]. rewrite decode_literal by (by apply plain_not_equals).
    by rewrite IH.
  - rewrite decode_escape. by rewrite IH.
Qed.

Lemma decode_lines (lines : list (list Token * bool)) (rest out : bytes) :
  Forall good_line lines ->
  QP.decode rest = Some out ->
  QP.decode (flat_map line_bytes lines ++ rest)
  = Some (flat_map line_value lines ++ out).
Proof.
  intros Hall Hrest. induction Hall as [|[toks soft] lines [Ht _] _ IH];
    [done|].
  cbn [flat_map].
  assert (line_bytes (toks, soft)
          = flat_map token_text toks ++ (if soft then "="%char ::
            CRLF else CRLF))
    as ->.
  { unfold line_bytes, line_text. cbn [fst snd]. rewrite <- app_assoc.
    by destruct soft. }
  assert (line_value (toks, soft)
          = map token_byte toks ++ (if soft then [] else CRLF)) as -> by done.
  cbn [fst] in Ht. rewrite <- !app_assoc.
  apply decode_tokens; [done|]. destruct soft; unfold CRLF; cbn [app].
  - by rewrite decode_soft_break.
  - by rewrite decode_line_break, IH.
Qed.

Lemma decode_rendering lines cur :
  Forall good_line lines -> Forall good_token cur ->
  QP.decode (flat_map line_bytes lines ++ flat_map token_text cur)
  = Some (text_of_tokens lines cur).
Proof.
  intros Hlines Hcur. unfold text_of_tokens. apply decode_lines; [done|].
  rewrite <- (app_nil_r (flat_map token_text cur)),
    <- (app_nil_r (map token_byte cur)).
  by apply decode_tokens.
Qed.

(** *** The writer, step by step *)

Lemma printable_equals : printable_char "="%char.
Proof. right. by vm_compute. Qed.

Lemma plain_printable (b : ascii) : plain_byte b = true -> printable_char b.
Proof.
  intros H. destruct b as [[] [] [] [] [] [] [] []]; try discriminate H;
    (by left) || (right; by vm_compute).
Qed.

Lemma token_text_printable (t : Token) :
  good_token t -> Forall printable_char (token_text t).
Proof.
  destruct t as [b|b]; cbn [good_token token_text]; intros H.
  - apply Forall_cons_2; [by apply plain_printable|apply Forall_nil_2].
  - destruct (upperhex_encode_byte b) as (hi & lo & -> & Hhi & Hlo & _).
    apply upperhex_facts in Hhi as (Hhi & _). apply upperhex_facts in Hlo
      as (Hlo & _).
    repeat (apply Forall_cons_2; [done || apply printable_equals|]).
    apply Forall_nil_2.
Qed.

Lemma tokens_printable (cur : list Token) :
  Forall good_token cur -> Forall printable_char (flat_map token_text cur).
Proof.
  induction 1 as [|t cur Ht _ IH]; [constructor|].
  cbn [flat_map]. apply Forall_app. split; [by apply token_text_printable|done].
Qed.

Lemma render_length (t : Token) : (length (token_text t) <= 3)%nat.
Proof.
  destruct t as [b|b]; cbn [token_text]; [cbn; lia|].
  destruct (upperhex_encode_byte b) as (hi & lo & -> & _). cbn. lia.
Qed.

Lemma escape_length (b : ascii) : length (token_text (Esc b)) = 3%nat.
Proof.
  cbn [token_text]. destruct (upperhex_encode_byte b) as (hi & lo & -> & _).
    done.
Qed.

Lemma escape_last (b : ascii) (l : bytes) c :
  last (l ++ token_text (Esc b)) = Some c -> QP.isWhitespace c = false.
Proof.
  cbn [token_text]. destruct (upperhex_encode_byte b) as (hi & lo &
    -> & _ & Hlo & _).
  change (l ++ ["="%char; hi; lo]) with (l ++ ["="%char; hi] ++ [lo]).
  rewrite app_assoc, last_snoc. intros [= <-].
  by apply upperhex_facts in Hlo as (_ & Hlo & _).
Qed.

Lemma tokens_last (cur : list Token) (c : ascii) :
  last (flat_map token_text cur) = Some c -> QP.isWhitespace c = true ->
  exists cur0, cur = cur0 ++ [Lit c].
Proof.
  intros Hlast Hws. destruct cur as [|t cur] using rev_ind; [done|].
  rewrite flat_map_app in Hlast. cbn [flat_map] in Hlast.
  rewrite app_nil_r in Hlast. destruct t as [b|b].
  - cbn [token_text] in Hlast. rewrite last_snoc in Hlast.
    injection Hlast as ->. by exists cur.
  - apply escape_last in Hlast. congruence.
Qed.

Lemma text_of_tokens_snoc lines cur t :
  text_of_tokens lines (cur ++ [t]) = text_of_tokens lines cur
    ++ [token_byte t].
Proof. unfold text_of_tokens. by rewrite map_app, app_assoc. Qed.

Lemma text_of_tokens_soft lines cur :
  text_of_tokens (lines ++ [(cur, true)]) [] = text_of_tokens lines cur.
Proof.
  unfold text_of_tokens. rewrite flat_map_app. cbn [flat_map].
  unfold line_value at 2. cbn [fst snd map]. by rewrite !app_nil_r.
Qed.

Lemma text_of_tokens_hard lines cur :
  text_of_tokens (lines ++ [(cur, false)]) [] = text_of_tokens lines cur
    ++ CRLF.
Proof.
  unfold text_of_tokens. rewrite flat_map_app. cbn [flat_map].
  unfold line_value at 2. cbn [fst snd map]. by rewrite !app_nil_r, app_assoc.
Qed.

Lemma rep_soft_break w lines cur :
  Rep w lines cur -> Rep (QP.insertSoftLineBreak w) (lines ++ [(cur, true)]) [].
Proof.
  intros (Hout & Hline & Hlines & Hcur & Hlen).
  unfold QP.insertSoftLineBreak, QP.insertCRLF, QP.flush, Rep.
  cbn [QP.qp_out QP.qp_line QP.qp_cr].
  split.
  { rewrite flat_map_app. cbn [flat_map]. rewrite app_nil_r.
    unfold line_bytes, line_text. cbn [fst snd]. by rewrite Hout, Hline. }
  split; [done|]. split; [|split; [constructor|cbn; lia]].
  apply Forall_app. split; [done|]. apply Forall_cons_2; [|apply Forall_nil_2].
  split; [done|]. unfold line_text. cbn [fst snd]. rewrite <- Hline.
  split; [rewrite length_app; cbn; lia|]. split.
  - apply Forall_app. split; [rewrite Hline; by apply tokens_printable|].
    apply Forall_cons_2; [apply printable_equals|apply Forall_nil_2].
  - rewrite last_snoc. by intros c [= <-].
Qed.

Lemma rep_hard_break w lines cur :
  Rep w lines cur ->
  (forall c, last (QP.qp_line w) = Some c -> QP.isWhitespace c = false) ->
  Rep (QP.insertCRLF w) (lines ++ [(cur, false)]) [].
Proof.
  intros (Hout & Hline & Hlines & Hcur & Hlen) Hlast.
  unfold QP.insertCRLF, QP.flush, Rep. cbn [QP.qp_out QP.qp_line QP.qp_cr].
  split.
  { rewrite flat_map_app. cbn [flat_map]. rewrite app_nil_r.
    unfold line_bytes, line_text. cbn [fst snd].
    by rewrite Hout, Hline, app_nil_r. }
  split; [done|]. split; [|split; [constructor|cbn; lia]].
  apply Forall_app. split; [done|]. apply Forall_cons_2; [|apply Forall_nil_2].
  split; [done|]. unfold line_text. cbn [fst snd]. rewrite app_nil_r, <- Hline.
  split; [lia|]. split; [|done].
  rewrite Hline. by apply tokens_printable.
Qed.

Lemma rep_push w lines cur t :
  Rep w lines cur -> good_token t ->
  (length (QP.qp_line w) + length (token_text t) <= 75)%nat ->
  forall cr,
    Rep (QP.mkWriter (QP.qp_line w ++ token_text t) cr (QP.qp_out w)) lines
        (cur ++ [t]).
Proof.
  intros (Hout & Hline & Hlines & Hcur & Hlen) Ht Hroom cr.
  unfold Rep. cbn [QP.qp_out QP.qp_line].
  split; [done|]. split.
  { rewrite flat_map_app, Hline. cbn [flat_map]. by rewrite app_nil_r. }
  split; [done|]. split; [apply Forall_app; split; [done|by constructor]|].
  rewrite length_app. lia.
Qed.

Lemma rep_encode b w lines cur :
  Rep w lines cur ->
  exists lines' cur',
    Rep (QP.encode b w) lines' cur' /\
    text_of_tokens lines' cur' = text_of_tokens lines cur ++ [b] /\
    QP.qp_cr (QP.encode b w) = QP.qp_cr w /\
    forall c, last (QP.qp_line (QP.encode b w)) = Some c ->
              QP.isWhitespace c = false.
Proof.
  intros Hrep. unfold QP.encode.
  change ("="%char :: Hex.encode_byte Hex.upperhex b) with (token_text (Esc b)).
  destruct (Nat.ltb_spec (QP.lineMaxLen - 1 - length (QP.qp_line w)) 3)
    as [Hfull|Hroom].
  - pose proof (rep_soft_break w lines cur Hrep) as Hrep'.
    exists (lines ++ [(cur, true)]), ([] ++ [Esc b]).
    split.
    { apply (rep_push _ _ _ (Esc b) Hrep' I). rewrite escape_length.
      cbn. lia. }
    split; [by rewrite text_of_tokens_snoc, text_of_tokens_soft|]. split;
      [done|].
    intros c. apply escape_last.
  - exists lines, (cur ++ [Esc b]).
    split.
    { apply (rep_push _ _ _ (Esc b) Hrep I). rewrite escape_length.
      unfold QP.lineMaxLen in Hroom. lia. }
    split; [by rewrite text_of_tokens_snoc|]. split; [done|].
    intros c. apply escape_last.
Qed.

Lemma plain_not_break (b : ascii) :
  plain_byte b = true -> Ascii.eqb b LF || Ascii.eqb b CR = false.
Proof.
  unfold plain_byte. intros H. apply andb_true_iff in H as [H Hcr].
  apply andb_true_iff in H as [_ Hlf].
  by destruct (Ascii.eqb b LF), (Ascii.eqb b CR).
Qed.

Lemma plain_byte_facts (c : ascii) :
  plain_byte c = true ->
  c <> "="%char /\ c <> CR /\ c <> LF /\ QP.literal c = true.
Proof.
  intros H. repeat split; try (intros ->; discriminate H).
  unfold plain_byte in H. apply andb_true_iff in H as [H _].
  by apply andb_true_iff in H as [H _].
Qed.

Lemma rep_plain b w lines cur :
  plain_byte b = true -> Rep w lines cur ->
  exists lines' cur',
    Rep (QP.write1 b w) lines' cur' /\
    text_of_tokens lines' cur' = text_of_tokens lines cur ++ [b] /\
    QP.qp_cr (QP.write1 b w) = false.
Proof.
  intros Hb Hrep. unfold QP.write1. rewrite (plain_not_break b Hb).
  change [b] with (token_text (Lit b)).
  destruct (Nat.eqb_spec (length (QP.qp_line w)) (QP.lineMaxLen - 1))
    as [Hfull|Hroom].
  - pose proof (rep_soft_break w lines cur Hrep) as Hrep'.
    exists (lines ++ [(cur, true)]), ([] ++ [Lit b]).
    split; [apply (rep_push _ _ _ (Lit b) Hrep' Hb); cbn; lia|].
    split; [by rewrite text_of_tokens_snoc, text_of_tokens_soft|done].
  - exists lines, (cur ++ [Lit b]).
    split.
    { apply (rep_push _ _ _ (Lit b) Hrep Hb).
      destruct Hrep as (_ & _ & _ & _ & Hlen).
      unfold QP.lineMaxLen in Hroom. cbn. lia. }
    split; [by rewrite text_of_tokens_snoc|done].
Qed.

Lemma rep_check w lines cur :
  Rep w lines cur ->
  exists lines' cur',
    Rep (QP.checkLastByte w) lines' cur' /\
    text_of_tokens lines' cur' = text_of_tokens lines cur /\
    QP.qp_cr (QP.checkLastByte w) = QP.qp_cr w /\
    forall c, last (QP.qp_line (QP.checkLastByte w)) = Some c ->
              QP.isWhitespace c = false.
Proof.
  intros Hrep. unfold QP.checkLastByte.
  destruct (last (QP.qp_line w)) as [b|] eqn:Hlast.
  - destruct (QP.isWhitespace b) eqn:Hws.
    + destruct Hrep as (Hout & Hline & Hlines & Hcur & Hlen).
      rewrite Hline in Hlast.
      destruct (tokens_last cur b Hlast Hws) as [cur0 ->].
      rewrite flat_map_app in Hline. cbn [flat_map token_text] in Hline.
      rewrite app_nil_r in Hline.
      assert (Rep (QP.mkWriter (removelast (QP.qp_line w)) (QP.qp_cr w)
                               (QP.qp_out w)) lines cur0) as Hrep0.
      { unfold Rep. cbn [QP.qp_out QP.qp_line]. rewrite Hline, removelast_last.
        split; [done|]. split; [done|]. split; [done|].
        apply Forall_app in Hcur as [Hcur _]. split; [done|].
        rewrite Hline, length_app in Hlen. lia. }
      destruct (rep_encode b _ lines cur0 Hrep0)
        as (lines' & cur' & Hrep' & Hval & Hcr & Hl).
      exists lines', cur'. split; [done|].
      split; [by rewrite Hval, text_of_tokens_snoc|]. by split.
    + exists lines, cur. split; [done|]. split; [done|]. split; [done|].
      intros c Hc. rewrite Hlast in Hc. by injection Hc as <-.
  - exists lines, cur. split; [done|]. split; [done|]. split; [done|].
    intros c Hc. by rewrite Hlast in Hc.
Qed.

Lemma rep_cr w lines cur cr :
  Rep w lines cur
    -> Rep (QP.mkWriter (QP.qp_line w) cr (QP.qp_out w)) lines cur.
Proof. intros H. exact H. Qed.

Lemma literal_false_not_break (b : ascii) :
  QP.literal b = false -> Ascii.eqb b LF = false /\ Ascii.eqb b CR = false.
Proof.
  unfold QP.literal. intros H.
  apply orb_false_iff in H as [H Hcr]. apply orb_false_iff in H as [_ Hlf].
  done.
Qed.

Lemma rep_write p w lines cur :
  Rep w lines cur ->
  exists lines' cur',
    Rep (QP.Write p w) lines' cur' /\
    text_of_tokens lines' cur' = text_of_tokens lines cur
      ++ text_mode (QP.qp_cr w) p.
Proof.
  revert w lines cur. induction p as [|b rest IH]; intros w lines cur Hrep.
  { exists lines, cur. split; [done|]. cbn. by rewrite app_nil_r. }
  unfold QP.Write in *. cbn [fold_left text_mode].
  destruct (QP.literal b) eqn:Hlit.
  - destruct (Ascii.eqb_spec b LF) as [->|Hlf].
    + unfold QP.write1. cbn [Ascii.eqb Bool.eqb orb andb LF CR].
      destruct (QP.qp_cr w) eqn:Hcr; cbn [andb].
      * destruct (IH _ lines cur (rep_cr w lines cur false Hrep))
          as (lines' & cur' & Hrep' & Hval).
        exists lines', cur'. split; [done|]. exact Hval.
      * destruct (rep_check w lines cur Hrep)
          as (lines1 & cur1 & Hrep1 & Hval1 & Hcr1 & Hlast1).
        pose proof (rep_hard_break _ lines1 cur1 Hrep1 Hlast1) as Hrep2.
        destruct (IH _ _ _ Hrep2) as (lines' & cur' & Hrep' & Hval).
        exists lines', cur'. split; [done|].
        rewrite Hval, text_of_tokens_hard, Hval1.
          cbn [QP.insertCRLF QP.flush QP.qp_cr].
        rewrite Hcr1, Hcr. by rewrite <- app_assoc.
    + destruct (Ascii.eqb_spec b CR) as [->|Hcr].
      * unfold QP.write1. cbn [Ascii.eqb Bool.eqb orb andb LF CR].
        rewrite andb_false_r.
        pose proof (rep_cr w lines cur true Hrep) as Hrep0.
        destruct (rep_check _ lines cur Hrep0)
          as (lines1 & cur1 & Hrep1 & Hval1 & Hcr1 & Hlast1).
        pose proof (rep_hard_break _ lines1 cur1 Hrep1 Hlast1) as Hrep2.
        destruct (IH _ _ _ Hrep2) as (lines' & cur' & Hrep' & Hval).
        exists lines', cur'. split; [done|].
        rewrite Hval, text_of_tokens_hard, Hval1.
          cbn [QP.insertCRLF QP.flush QP.qp_cr].
        rewrite Hcr1. cbn [QP.qp_cr]. by rewrite <- app_assoc.
      * assert (plain_byte b = true) as Hplain.
        { unfold plain_byte. rewrite Hlit.
          by destruct (Ascii.eqb_spec b LF), (Ascii.eqb_spec b CR). }
        destruct (rep_plain b w lines cur Hplain Hrep)
          as (lines1 & cur1 & Hrep1 & Hval1 & Hcr1).
        destruct (IH _ _ _ Hrep1) as (lines' & cur' & Hrep' & Hval).
        exists lines', cur'. split; [done|].
        rewrite Hval, Hval1, Hcr1. by rewrite <- app_assoc.
  - destruct (literal_false_not_break b Hlit) as [-> ->].
    destruct (rep_encode b w lines cur Hrep)
      as (lines1 & cur1 & Hrep1 & Hval1 & Hcr1 & _).
    destruct (IH _ _ _ Hrep1) as (lines' & cur' & Hrep' & Hval).
    exists lines', cur'. split; [done|].
    rewrite Hval, Hval1, Hcr1. by rewrite <- app_assoc.
Qed.

(** Everything the writer emits for [p]: flushed lines and a last line,
    all well formed, standing for [p] in text mode. *)
Lemma encode_all_rendering (p : bytes) :
  exists lines cur,
    QP.encode_all p = flat_map line_bytes lines ++ flat_map token_text cur /\
    Forall good_line lines /\ Forall good_token cur /\
    qp_line_ok (flat_map token_text cur) /\
    text_of_tokens lines cur = text_mode false p.
Proof.
  assert (Rep QP.NewWriter [] []) as Hnew.
  { unfold Rep. cbn. repeat split; try constructor. lia. }
  destruct (rep_write p _ _ _ Hnew) as (lines1 & cur1 & Hrep1 & Hval1).
  destruct (rep_check _ _ _ Hrep1)
    as (lines & cur & (Hout & Hline & Hlines & Hcur & Hlen) & Hval & _ & Hlast).
  exists lines, cur. unfold QP.encode_all, QP.Close, QP.flush.
  cbn [QP.qp_out]. rewrite Hout, Hline. split; [done|].
  split; [done|]. split; [done|]. split.
  - rewrite <- Hline. split; [lia|]. split; [|done].
    rewrite Hline. by apply tokens_printable.
  - by rewrite Hval, Hval1.
Qed.

Lemma encode_all_decodes (p : bytes) :
  QP.decode (QP.encode_all p) = Some (text_mode false p).
Proof.
  destruct (encode_all_rendering p) as (lines & cur & -> & Hl & Hc & _ & <-).
  by apply decode_rendering.
Qed.

Lemma text_mode_without_cr (p : bytes) :
  CR ∉ p -> text_mode false p = lf_to_crlf p.
Proof.
  induction p as [|b rest IH]; intros Hcr; [done|].
  apply not_elem_of_cons in Hcr as [Hb Hrest].
  cbn [text_mode lf_to_crlf flat_map].
  fold (lf_to_crlf rest). rewrite <- (IH Hrest).
  destruct (Ascii.eqb_spec b LF); [done|].
  destruct (Ascii.eqb_spec b CR); [done|].
  by destruct (QP.literal b).
Qed.

Lemma text_mode_canonical (p : bytes) :
  canonical_breaks p = true -> text_mode false p = p.
Proof.
  assert (forall n (l : bytes), (length l <= n)%nat -> canonical_breaks l
    = true ->
                                text_mode false l = l) as H.
  { induction n as [|n IH]; intros l Hn Hl.
    - destruct l; [done|cbn in Hn; lia].
    - destruct l as [|b rest]; [done|]. cbn [canonical_breaks] in Hl.
      cbn [text_mode length] in *.
      destruct (Ascii.eqb_spec b CR) as [->|Hcr].
      + destruct rest as [|c rest']; [done|].
        apply andb_true_iff in Hl as [Hc Hl].
        apply Ascii.eqb_eq in Hc as ->.
        cbn [Ascii.eqb Bool.eqb CR LF andb text_mode].
        rewrite IH; [done| |done]. cbn [length] in Hn. lia.
      + apply andb_true_iff in Hl as [Hlf Hl].
        destruct (Ascii.eqb b LF); [done|].
        rewrite IH by (done || lia). by destruct (QP.literal b). }
  by apply (H (length p)).
Qed.

(** X14. For a body without CR, decoding the quoted-printable text that
    [writeBody] writes after the part's header gives the body with every LF
    written as CR LF, and nothing else changed: no byte is lost or altered,
    whatever bytes the body holds and however long its lines are. *)
Theorem writeBody_text_decodes writer body :
  CR ∉ bytes_of body ->
  exists enc,
    writeBody writer body
    = (Multipart.part_Write enc
         (Multipart.CreatePart
            [("Content-Type", ["text/plain; charset=utf-8"]);
             ("Content-Transfer-Encoding", ["quoted-printable"])] writer),
       None) /\
    QP.decode enc = Some (lf_to_crlf (bytes_of body)).
Proof.
  intros Hcr. exists (QP.encode_all (bytes_of body)). split; [reflexivity|].
  by rewrite encode_all_decodes, text_mode_without_cr.
Qed.

(** The theorem at [two_lines]. *)
Lemma writeBody_text_decodes_witness :
  exists enc,
    writeBody (NewWriter []) two_lines
    = (Multipart.part_Write enc
         (Multipart.CreatePart
            [("Content-Type", ["text/plain; charset=utf-8"]);
             ("Content-Transfer-Encoding", ["quoted-printable"])]
            (NewWriter [])),
       None) /\
    QP.decode enc = Some (lf_to_crlf (bytes_of two_lines)).
Proof.
  apply (writeBody_text_decodes (NewWriter []) two_lines).
  intros H. cbn in H.
  repeat (apply elem_of_cons in H as [H|H]; [discriminate H|]).
  by apply elem_of_nil in H.
Defined.

(** X15. For a body whose line breaks are all CR LF, decoding the
    quoted-printable text that [writeBody] writes gives back the body, byte
    for byte. *)
Theorem writeBody_canonical_text_round_trip writer body :
  canonical_breaks (bytes_of body) = true ->
  exists enc,
    writeBody writer body
    = (Multipart.part_Write enc
         (Multipart.CreatePart
            [("Content-Type", ["text/plain; charset=utf-8"]);
             ("Content-Transfer-Encoding", ["quoted-printable"])] writer),
       None) /\
    QP.decode enc = Some (bytes_of body).
Proof.
  intros Hc. exists (QP.encode_all (bytes_of body)). split; [reflexivity|].
  by rewrite encode_all_decodes, text_mode_canonical.
Qed.

(** The theorem at [two_lines_crlf]. *)
Lemma writeBody_canonical_text_round_trip_witness :
  exists enc,
    writeBody (NewWriter []) two_lines_crlf
    = (Multipart.part_Write enc
         (Multipart.CreatePart
            [("Content-Type", ["text/plain; charset=utf-8"]);
             ("Content-Transfer-Encoding", ["quoted-printable"])]
            (NewWriter [])),
       None) /\
    QP.decode enc = Some (bytes_of two_lines_crlf).
Proof.
  apply (writeBody_canonical_text_round_trip (NewWriter []) two_lines_crlf).
  reflexivity.
Defined.

Lemma good_lines_texts (lines : list (list Token * bool)) :
  Forall good_line lines ->
  flat_map line_bytes lines
  = flat_map (fun l => l ++ CRLF) (map line_text lines) /\
  Forall qp_line_ok (map line_text lines).
Proof.
  induction 1 as [|l lines [_ Hl] _ [IH1 IH2]]; [by split; [|constructor]|].
  cbn [flat_map map]. split; [by rewrite IH1|by constructor].
Qed.

(** X16. The quoted-printable text [writeBody] writes for a body, whatever the
    body is, consists of lines of at most 76 characters, each ended by CR LF
    except the last; every character of a line is printable ASCII or a tab,
    and no line ends in a space or a tab. *)
Theorem writeBody_lines_fit writer body :
  exists enc lines final,
    writeBody writer body
    = (Multipart.part_Write enc
         (Multipart.CreatePart
            [("Content-Type", ["text/plain; charset=utf-8"]);
             ("Content-Transfer-Encoding", ["quoted-printable"])] writer),
       None) /\
    enc = flat_map (fun l => l ++ CRLF) lines ++ final /\
    Forall qp_line_ok (lines ++ [final]).
Proof.
  destruct (encode_all_rendering (bytes_of body))
    as (lines & cur & Henc & Hlines & _ & Hfinal & _).
  destruct (good_lines_texts lines Hlines) as [Htexts Hok].
  exists (QP.encode_all (bytes_of body)), (map line_text lines),
    (flat_map token_text cur).
  split; [reflexivity|]. split; [by rewrite Henc, Htexts|].
  apply Forall_app. split; [done|by constructor].
Qed.

(** ** Plain text in the body *)

Lemma Write_app p q w : QP.Write (p ++ q) w = QP.Write q (QP.Write p w).
Proof. unfold QP.Write. apply fold_left_app. Qed.

Lemma Write_plain_bytes l w :
  Forall (fun c => plain_byte c = true) l ->
  (length (QP.qp_line w) + length l <= 75)%nat ->
  QP.Write l w
  = QP.mkWriter (QP.qp_line w ++ l)
                (match l with [] => QP.qp_cr w | _ :: _ => false end)
                (QP.qp_out w).
Proof.
  intros Hl. revert w. induction Hl as [|b l Hb _ IH]; intros w Hlen.
  { rewrite app_nil_r. by destruct w. }
  unfold QP.Write in *. cbn [fold_left].
  destruct (plain_byte_facts b Hb) as (_ & _ & _ & ->).
  unfold QP.write1. rewrite (plain_not_break b Hb).
  cbn [length] in Hlen.
  destruct (Nat.eqb_spec (length (QP.qp_line w)) (QP.lineMaxLen - 1))
    as [Hfull|_]; [unfold QP.lineMaxLen in Hfull; lia|].
  rewrite IH; cbn [QP.qp_line QP.qp_cr QP.qp_out].
  - rewrite <- app_assoc. by destruct l.
  - rewrite length_app. cbn. lia.
Qed.

Lemma checkLastByte_plain_line w :
  (forall c, last (QP.qp_line w) = Some c -> QP.isWhitespace c = false) ->
  QP.checkLastByte w = w.
Proof.
  intros H. unfold QP.checkLastByte.
  destruct (last (QP.qp_line w)) as [c|]; [|done]. by rewrite (H c).
Qed.

Lemma Write_line_break sep l cr out :
  sep = [LF] \/ sep = CRLF ->
  (forall c, last l = Some c -> QP.isWhitespace c = false) ->
  (sep = [LF] -> cr = false) ->
  QP.Write sep (QP.mkWriter l cr out) = QP.mkWriter [] false (out ++ l ++ CRLF).
Proof.
  intros Hsep Hlast Hcr. unfold QP.Write.
  destruct Hsep as [-> | ->].
  - rewrite Hcr by done. cbn [fold_left].
    change (QP.literal LF) with true. cbv beta iota.
    unfold QP.write1. cbn [Ascii.eqb Bool.eqb orb andb LF CR QP.qp_cr].
    rewrite checkLastByte_plain_line by done. reflexivity.
  - cbn [fold_left CRLF].
    change (QP.literal LF) with true. change (QP.literal CR) with true.
    cbv beta iota. unfold QP.write1 at 2.
    cbn [Ascii.eqb Bool.eqb orb andb LF CR QP.qp_cr QP.qp_line QP.qp_out].
    rewrite andb_false_r.
    rewrite checkLastByte_plain_line by done.
    reflexivity.
Qed.

Lemma encode_plain_lines sep ls out :
  sep = [LF] \/ sep = CRLF ->
  Forall plain_line ls ->
  QP.qp_out (QP.Close (QP.Write (join_lines sep ls)
                                (QP.mkWriter [] false out)))
  = out ++ join_lines CRLF ls.
Proof.
  intros Hsep Hls. revert out.
  induction Hls as [|l ls (Hplain & Hlen & Hlast) Hrest IH]; intros out.
  { cbn. by rewrite app_nil_r. }
  cbn [join_lines]. destruct ls as [|l' ls].
  - rewrite (Write_plain_bytes l) by (done || cbn; lia).
    unfold QP.Close. cbn [QP.qp_line app].
    rewrite checkLastByte_plain_line by done. reflexivity.
  - rewrite !Write_app.
    rewrite (Write_plain_bytes l) by (done || cbn; lia).
    cbn [QP.qp_line QP.qp_cr QP.qp_out app].
    rewrite (Write_line_break sep l _ out Hsep Hlast).
    + rewrite IH. by rewrite <- !app_assoc.
    + intros ->. destruct l; [done|done].
Qed.

(** X17. Plain text goes through [writeBody] unchanged: for a body made of
    lines of at most 75 bytes, each byte printable ASCII other than [=] or a
    space or tab, no line ending in a space or tab, the lines separated by CR
    LF, the quoted-printable text written is the body itself; with the lines
    separated by LF it is the body with CR LF in their place. *)
Theorem writeBody_plain_text_unchanged writer body sep lines :
  sep = [LF] \/ sep = CRLF ->
  Forall plain_line lines ->
  bytes_of body = join_lines sep lines ->
  writeBody writer body
  = (Multipart.part_Write (join_lines CRLF lines)
       (Multipart.CreatePart
          [("Content-Type", ["text/plain; charset=utf-8"]);
           ("Content-Transfer-Encoding", ["quoted-printable"])] writer),
     None).
Proof.
  intros Hsep Hlines Hbody. unfold writeBody. cbv zeta. rewrite Hbody.
  change QP.NewWriter with (QP.mkWriter [] false []).
  by rewrite (encode_plain_lines sep lines [] Hsep Hlines).
Qed.

(** The theorem at [plain_body], three lines separated by LF. *)
Lemma writeBody_plain_text_unchanged_witness :
  writeBody (NewWriter []) plain_body
  = (Multipart.part_Write (join_lines CRLF three_plain_lines)
       (Multipart.CreatePart
          [("Content-Type", ["text/plain; charset=utf-8"]);
           ("Content-Transfer-Encoding", ["quoted-printable"])]
          (NewWriter [])),
     None).
Proof.
  apply (writeBody_plain_text_unchanged (NewWriter []) plain_body [LF]
           three_plain_lines).
  - by left.
  - apply Forall_cons_2;
      [|apply Forall_cons_2; [|apply Forall_cons_2; [|apply Forall_nil_2]]];
      (split; [|split]);
      try (cbn; lia);
      try (intros c Hc; vm_compute in Hc; try discriminate Hc;
           injection Hc as <-; reflexivity);
      repeat first [apply Forall_nil_2 | apply Forall_cons_2; [reflexivity|]].
  - vm_compute. reflexivity.
Defined.

(** ** The delimiter line and the body *)

Lemma contains_cons needle b hay :
  contains needle hay = true -> contains needle (b :: hay) = true.
Proof. intros H. cbn [contains]. rewrite H. apply orb_true_r. Qed.

Lemma contains_cons_inv needle b hay :
  contains needle (b :: hay) = true ->
  has_prefix needle (b :: hay) = true \/ contains needle hay = true.
Proof. cbn [contains]. intros H. by apply orb_true_iff in H. Qed.

Lemma has_prefix_contains needle hay :
  has_prefix needle hay = true -> contains needle hay = true.
Proof. intros H. destruct hay; cbn [contains]; by rewrite H. Qed.

Lemma has_prefix_cons_ne c n b l :
  c <> b -> has_prefix (c :: n) (b :: l) = false.
Proof. intros H. cbn. by destruct (Ascii.eqb_spec c b). Qed.

Lemma keeps_nil needle : keeps needle [] [].
Proof. by split. Qed.

Lemma keeps_literal needle b text read :
  Forall (fun c => plain_byte c = true) needle ->
  keeps needle text read -> keeps needle (b :: text) (b :: read).
Proof.
  intros Hneedle [Hpre Hcon].
  assert (forall n, Forall (fun c => plain_byte c = true) n ->
                    has_prefix n (b :: text) = true ->
                    has_prefix n (b :: read) = true) as Hpre'.
  { intros n Hn. destruct n as [|c n]; [done|]. cbn [has_prefix].
    destruct (Ascii.eqb c b); [|done].
    apply Hpre. by inversion Hn. }
  split; [done|]. intros H.
  apply contains_cons_inv in H as [H|H].
  - apply has_prefix_contains. by apply Hpre'.
  - apply contains_cons. by apply Hcon.
Qed.

Lemma contains_after needle pre hay :
  contains needle hay = true -> contains needle (pre ++ hay) = true.
Proof.
  intros H. induction pre as [|b pre IH]; [done|]. by apply contains_cons.
Qed.

Lemma contains_skip_block n0 n' blk text :
  n0 ∉ blk ->
  contains (n0 :: n') (blk ++ text) = true -> contains (n0 :: n') text = true.
Proof.
  induction blk as [|b blk IH]; intros Hno H; [done|].
  apply not_elem_of_cons in Hno as [Hb Hno]. cbn [app] in H.
  apply contains_cons_inv in H as [H|H]; [|by apply IH].
  by rewrite has_prefix_cons_ne in H.
Qed.

(** A block of the text that no run of plain bytes starts with and in which
    the needle does not start. *)
Lemma keeps_block n0 n' b0 blk vblk text read :
  n0 ∉ b0 :: blk ->
  (forall c, plain_byte c = true -> c <> b0) ->
  keeps (n0 :: n') text read ->
  keeps (n0 :: n') (b0 :: blk ++ text) (vblk ++ read).
Proof.
  intros Hno Hplain [_ Hcon]. split.
  - intros n Hn H. destruct n as [|c n]; [by destruct (vblk ++ read)|].
    rewrite has_prefix_cons_ne in H; [done|].
    apply Hplain. by inversion Hn.
  - intros H. apply contains_after, Hcon.
    by apply (contains_skip_block n0 n' (b0 :: blk)).
Qed.

Lemma keeps_tokens n0 n' toks text read :
  Forall (fun c => plain_byte c = true) (n0 :: n') ->
  n0 ∉ Hex.upperhex ->
  keeps (n0 :: n') text read ->
  keeps (n0 :: n') (flat_map token_text toks ++ text)
        (map token_byte toks ++ read).
Proof.
  intros Hneedle Hhex Hkeeps. induction toks as [|t toks IH]; [done|].
  cbn [flat_map map]. rewrite <- !app_assoc. destruct t as [b|b].
  - cbn [token_text token_byte app]. by apply keeps_literal.
  - cbn [token_text token_byte].
    destruct (upperhex_encode_byte b) as (hi & lo & -> & Hhi & Hlo & _).
    apply (keeps_block n0 n' "="%char [hi; lo] [b]);
      [|by intros c [? _]%plain_byte_facts|done].
    inversion Hneedle as [|? ? Hn0 _]; subst.
    apply plain_byte_facts in Hn0 as (Heq & _).
    intros Hin. apply elem_of_cons in Hin as [->|Hin]; [done|].
    apply elem_of_cons in Hin as [->|Hin]; [done|].
    apply elem_of_cons in Hin as [->|Hin]; [done|].
    by apply elem_of_nil in Hin.
Qed.

Lemma keeps_lines n0 n' lines text read :
  Forall (fun c => plain_byte c = true) (n0 :: n') ->
  n0 ∉ Hex.upperhex ->
  keeps (n0 :: n') text read ->
  keeps (n0 :: n') (flat_map line_bytes lines ++ text)
        (flat_map line_value lines ++ read).
Proof.
  intros Hneedle Hhex Hkeeps.
  inversion Hneedle as [|? ? Hn0 _]; subst.
  apply plain_byte_facts in Hn0 as (Heq & Hcr & Hlf & _).
  induction lines as [|[toks soft] lines IH]; [done|].
  cbn [flat_map]. unfold line_bytes at 1, line_text, line_value at 1.
  cbn [fst snd]. rewrite <- !app_assoc.
  apply keeps_tokens; [done|done|]. destruct soft.
  - apply (keeps_block n0 n' "="%char [CR; LF] []);
      [|by intros c [? _]%plain_byte_facts|done].
    intros Hin. apply elem_of_cons in Hin as [->|Hin]; [done|].
    apply elem_of_cons in Hin as [->|Hin]; [done|].
    apply elem_of_cons in Hin as [->|Hin]; [done|].
    by apply elem_of_nil in Hin.
  - cbn [app].
    apply (keeps_block n0 n' CR [LF] CRLF);
      [|by intros c (_ & ? & _)%plain_byte_facts|done].
    intros Hin. apply elem_of_cons in Hin as [->|Hin]; [done|].
    apply elem_of_cons in Hin as [->|Hin]; [done|].
    by apply elem_of_nil in Hin.
Qed.

(** What the text is read as holds the needle only where the bytes
    written do. *)
Lemma has_prefix_text_mode n p :
  Forall (fun c => plain_byte c = true) n ->
  has_prefix n (text_mode false p) = true -> has_prefix n p = true.
Proof.
  intros Hn. revert p. induction Hn as [|c n Hc _ IH]; intros p; [done|].
  apply plain_byte_facts in Hc as (_ & Hcr & Hlf & Hlit).
  destruct p as [|b rest]; [done|]. cbn [text_mode].
  destruct (Ascii.eqb_spec b LF) as [->|_].
  { by rewrite has_prefix_cons_ne. }
  destruct (Ascii.eqb_spec b CR) as [->|_].
  { by rewrite has_prefix_cons_ne. }
  destruct (QP.literal b) eqn:Hb; cbn [has_prefix];
    destruct (Ascii.eqb_spec c b) as [->|_]; try done.
  - apply IH.
  - congruence.
Qed.

Lemma contains_text_mode n0 n' cr p :
  Forall (fun c => plain_byte c = true) (n0 :: n') ->
  contains (n0 :: n') (text_mode cr p) = true -> contains (n0 :: n') p = true.
Proof.
  intros Hneedle. inversion Hneedle as [|? ? Hn0 Hn']; subst.
  apply plain_byte_facts in Hn0 as (_ & Hcr & Hlf & Hlit).
  revert cr. induction p as [|b rest IH]; intros cr; [done|].
  cbn [text_mode].
  assert (forall x, contains (n0 :: n') (CR :: LF :: x) = true ->
                    contains (n0 :: n') x = true) as Hbreak.
  { intros x H. by apply (contains_skip_block n0 n' [CR; LF]) in H;
      [|intros Hin; apply elem_of_cons in Hin as [->|Hin]; [done|];
        apply elem_of_cons in Hin as [->|Hin]; [done|];
        by apply elem_of_nil in Hin]. }
  destruct (Ascii.eqb_spec b LF) as [->|_].
  { destruct cr; intros H; apply contains_cons; [by apply (IH false)|].
    apply (IH false). by apply Hbreak. }
  destruct (Ascii.eqb_spec b CR) as [->|_].
  { intros H. apply contains_cons, (IH true). by apply Hbreak. }
  destruct (QP.literal b) eqn:Hb; intros H;
    apply contains_cons_inv in H as [H|H];
    try (apply contains_cons; by eapply IH).
  - apply has_prefix_contains. cbn [has_prefix] in *.
    destruct (Ascii.eqb n0 b); [|done]. by apply has_prefix_text_mode.
  - cbn [has_prefix] in H. destruct (Ascii.eqb_spec n0 b) as [->|_]; [|done].
    congruence.
Qed.

Lemma lowerhex_plain (c : ascii) :
  c ∈ Hex.lowerhex -> plain_byte c = true /\ c <> "-"%char.
Proof.
  intros Hc. unfold Hex.lowerhex in Hc. cbn in Hc.
  repeat (apply elem_of_cons in Hc as [->|Hc]; [by split|]).
  by apply elem_of_nil in Hc.
Qed.

Lemma contains_encode_all n0 n' p :
  Forall (fun c => plain_byte c = true) (n0 :: n') ->
  n0 ∉ Hex.upperhex ->
  contains (n0 :: n') (QP.encode_all p) = true ->
  contains (n0 :: n') p = true.
Proof.
  intros Hneedle Hhex H.
  destruct (encode_all_rendering p) as (lines & cur & Henc & _ & _ & _ & Hval).
  apply (contains_text_mode n0 n' false); [done|].
  rewrite <- Hval. unfold text_of_tokens. rewrite Henc in H.
  rewrite <- (app_nil_r (flat_map token_text cur)) in H.
  rewrite <- (app_nil_r (map token_byte cur)).
  revert H. apply keeps_lines; [done|done|].
  apply keeps_tokens; [done|done|]. apply keeps_nil.
Qed.

(** X18. The quoted-printable text [writeBody] writes holds the delimiter line
    of the message only if the body itself holds it: for the writer of a
    message [SendEmail] builds, if the two hyphens followed by the boundary
    token occur nowhere in the body, they occur nowhere in the text written
    for it. *)
Theorem writeBody_keeps_delimiter_out env w writer body :
  Multipart.Boundary writer = boundary_at env w ->
  let delimiter := bytes_of ("--" +:+ Multipart.Boundary writer) in
  contains delimiter (bytes_of body) = false ->
  exists enc,
    writeBody writer body
    = (Multipart.part_Write enc
         (Multipart.CreatePart
            [("Content-Type", ["text/plain; charset=utf-8"]);
             ("Content-Transfer-Encoding", ["quoted-printable"])] writer),
       None) /\
    contains delimiter enc = false.
Proof.
  intros Hb delimiter Hbody. exists (QP.encode_all (bytes_of body)).
  split; [reflexivity|].
  destruct (contains delimiter (QP.encode_all (bytes_of body))) eqn:H; [|done].
  rewrite <- Hbody. symmetry. subst delimiter. rewrite Hb in *.
  change (bytes_of ("--" +:+ boundary_at env w))
    with ("-"%char :: "-"%char :: bytes_of (boundary_at env w)) in *.
  apply contains_encode_all; [| |done].
  - apply Forall_cons_2; [done|]. apply Forall_cons_2; [done|].
    unfold boundary_at. rewrite bytes_of_string_of.
    apply Forall_forall. intros c Hc.
    apply (proj1 (Forall_forall _ _) (hex_encode_digits _)) in Hc.
    by apply lowerhex_plain in Hc as [Hc _].
  - intros Hin. unfold Hex.upperhex in Hin. cbn in Hin.
    repeat (apply elem_of_cons in Hin as [Hin|Hin]; [discriminate Hin|]).
    by apply elem_of_nil in Hin.
Qed.

(** The theorem at [no_hyphens], for the first message built. *)
Lemma writeBody_keeps_delimiter_out_witness :
  let writer := NewWriter (fst (read_rand 30 quiet_env initial)) in
  let delimiter := bytes_of ("--" +:+ Multipart.Boundary writer) in
  exists enc,
    writeBody writer no_hyphens
    = (Multipart.part_Write enc
         (Multipart.CreatePart
            [("Content-Type", ["text/plain; charset=utf-8"]);
             ("Content-Transfer-Encoding", ["quoted-printable"])] writer),
       None) /\
    contains delimiter enc = false.
Proof.
  apply (writeBody_keeps_delimiter_out quiet_env initial
           (NewWriter (fst (read_rand 30 quiet_env initial))) no_hyphens).
  - reflexivity.
  - vm_compute. reflexivity.
Defined.

(** ** The attachment parts *)

Lemma sextet_in_alphabet (val shift : N) :
  Base64.sextet val shift ∈ Base64.encodeStd.
Proof.
  unfold Base64.sextet, Base64.enc. apply list_elem_of_In, nth_In.
  assert (N.land (N.shiftr val shift) 63 < 64)%N as Hlt.
  { change 63%N with (N.ones 6). rewrite N.land_ones. by apply N.mod_lt. }
  change (length Base64.encodeStd) with 64%nat. lia.
Qed.

Lemma base64_encode_Forall (P : ascii -> Prop) (src : bytes) :
  Forall P Base64.encodeStd -> P Base64.padChar ->
  Forall P (Base64.encode src).
Proof.
  intros Halpha Hpad.
  assert (forall val shift, P (Base64.sextet val shift)) as Hs.
  { intros val shift. apply (proj1 (Forall_forall _ _) Halpha).
    apply sextet_in_alphabet. }
  assert (forall n (l : bytes), (length l <= n)%nat ->
            Forall P (Base64.encode l)) as H.
  { induction n as [|n IH]; intros l Hl.
    - destruct l; [constructor|simpl in Hl; lia].
    - destruct l as [|a [|b [|c rest]]]; cbn [Base64.encode].
      + constructor.
      + by repeat constructor.
      + by repeat constructor.
      + repeat (constructor; [apply Hs|]). apply IH. simpl in Hl. lia. }
  by apply (H (length src)).
Qed.

Lemma base64_encode_length (src : bytes) :
  length (Base64.encode src) = (4 * ((length src + 2) / 3))%nat.
Proof.
  assert (forall n (l : bytes), (length l <= n)%nat ->
            length (Base64.encode l) = (4 * ((length l + 2) / 3))%nat) as H.
  { induction n as [|n IH]; intros l Hl.
    - destruct l; [done|simpl in Hl; lia].
    - destruct l as [|a [|b [|c rest]]]; cbn [Base64.encode]; try done.
      cbn [length] in *. rewrite IH by lia.
      replace (S (S (S (length rest))) + 2)%nat
        with (length rest + 2 + 1 * 3)%nat by lia.
      rewrite Nat.div_add by done. lia. }
  by apply (H (length src)).
Qed.

(** X19. The bytes [writeAttachment] writes after the part's header are the
    base64 text of the buffer's content: decoding them gives back exactly the
    bytes the buffer held, whatever they were, and the function reports no
    error. *)
Theorem writeAttachment_payload_decodes writer attachment fileName mimeType w :
  let part :=
    Multipart.CreatePart
      [("Content-Type", [mimeType]);
       ("Content-Transfer-Encoding", ["base64"]);
       ("Content-Disposition",
        ["attachment; filename=" +:+ dquote +:+ fileName +:+ dquote])] writer in
  exists enc,
    fst (writeAttachment writer attachment fileName mimeType w)
    = (Multipart.part_Write enc part, None) /\
    Base64.decode enc = Some (contents w attachment).
Proof.
  intros part. exists (Base64.encode (contents w attachment)).
  split; [reflexivity|]. apply base64_decode_encode.
Qed.

(** X20. [writeAttachment] writes the base64 text of an attachment as one
    line, however long the attachment is: four characters of the base64
    alphabet (or padding) for every three bytes, rounded up, and no line break
    anywhere in it. *)
Theorem writeAttachment_body_is_one_line writer attachment fileName mimeType w :
  let part :=
    Multipart.CreatePart
      [("Content-Type", [mimeType]);
       ("Content-Transfer-Encoding", ["base64"]);
       ("Content-Disposition",
        ["attachment; filename=" +:+ dquote +:+ fileName +:+ dquote])] writer in
  exists enc,
    fst (writeAttachment writer attachment fileName mimeType w)
    = (Multipart.part_Write enc part, None) /\
    length enc = (4 * ((length (contents w attachment) + 2) / 3))%nat /\
    Forall (fun c => c ∈ Base64.encodeStd \/ c = Base64.padChar) enc /\
    (CR ∉ enc) /\ (LF ∉ enc).
Proof.
  intros part. exists (Base64.encode (contents w attachment)).
  split; [reflexivity|]. split; [apply base64_encode_length|].
  split.
  { apply base64_encode_Forall; [|by right].
    apply Forall_forall. intros c Hc. by left. }
  assert (forall x : ascii, Forall (fun c => c <> x) Base64.encodeStd ->
                            Base64.padChar <> x ->
                            x ∉ Base64.encode (contents w attachment)) as H.
  { intros x Halpha Hpad Hin.
    pose proof (base64_encode_Forall (fun c => c <> x) (contents w attachment)
                  Halpha Hpad) as Hall.
    by apply (proj1 (Forall_forall _ _) Hall) in Hin. }
  split; apply H; try discriminate; repeat constructor; discriminate.
Qed.

(** X23. The base64 text [writeAttachment] writes holds no hyphen, and so
    never the delimiter line of the message, two hyphens followed by the
    boundary token, whatever the token and whatever the attachment holds. *)
Theorem writeAttachment_keeps_delimiter_out writer attachment fileName
    mimeType w :
  let part :=
    Multipart.CreatePart
      [("Content-Type", [mimeType]);
       ("Content-Transfer-Encoding", ["base64"]);
       ("Content-Disposition",
        ["attachment; filename=" +:+ dquote +:+ fileName +:+ dquote])] writer in
  exists enc,
    fst (writeAttachment writer attachment fileName mimeType w)
    = (Multipart.part_Write enc part, None) /\
    ("-"%char ∉ enc) /\
    contains (bytes_of ("--" +:+ Multipart.Boundary writer)) enc = false.
Proof.
  intros part. exists (Base64.encode (contents w attachment)).
  split; [reflexivity|]. split; [|apply base64_free_of_delimiter].
  intros Hin.
  by apply (proj1 (Forall_forall _ _) (base64_no_hyphen _)) in Hin.
Qed.
(** * The encoders on known inputs

    The quoted-printable cases are rows of the table the Go library tests
    its writer with; the base64 cases are the test vectors of RFC 4648. *)

Example qp_plain : qp "foo bar" = "foo bar".
Proof. vm_compute. reflexivity. Qed.

Example qp_equals : qp "foo bar=" = "foo bar=3D".
Proof. vm_compute. reflexivity. Qed.

Example qp_line_feed : qp ("foo bar" +:+ String LF EmptyString) = "foo bar" +:+ crlf.
Proof. vm_compute. reflexivity. Qed.

Example qp_carriage_returns :
  qp ("foo bar" +:+ String CR (String CR (String LF EmptyString)))
  = "foo bar" +:+ crlf +:+ crlf.
Proof. vm_compute. reflexivity. Qed.

Example qp_trailing_spaces : qp "foo bar  " = "foo bar =20".
Proof. vm_compute. reflexivity. Qed.

Example qp_space_before_break :
  qp ("foo bar  " +:+ String LF " ") = "foo bar =20" +:+ crlf +:+ "=20".
Proof. vm_compute. reflexivity. Qed.

Example qp_utf8 : qp "¡Hola Señor!" = "=C2=A1Hola Se=C3=B1or!".
Proof. vm_compute. reflexivity. Qed.

Example qp_76 : qp (times 76 "a") = times 75 "a" +:+ "=" +:+ crlf +:+ "a".
Proof. vm_compute. reflexivity. Qed.

Example qp_73_equals :
  qp (times 73 "a" +:+ "=") = times 73 "a" +:+ "=" +:+ crlf +:+ "=3D".
Proof. vm_compute. reflexivity. Qed.

Example qp_77_spaces :
  qp (times 77 " ") = times 75 " " +:+ "=" +:+ crlf +:+ " =20".
Proof. vm_compute. reflexivity. Qed.

Example qp_back :
  QP.decode (QP.encode_all (bytes_of "¡Hola Señor! = ok  "))
  = Some (bytes_of "¡Hola Señor! = ok  ").
Proof. vm_compute. reflexivity. Qed.

Example base64_f : string_of (Base64.encode (bytes_of "f")) = "Zg==".
Proof. vm_compute. reflexivity. Qed.

Example base64_fo : string_of (Base64.encode (bytes_of "fo")) = "Zm8=".
Proof. vm_compute. reflexivity. Qed.

Example base64_foo : string_of (Base64.encode (bytes_of "foo")) = "Zm9v".
Proof. vm_compute. reflexivity. Qed.

Example base64_foobar : string_of (Base64.encode (bytes_of "foobar")) = "Zm9vYmFy".
Proof. vm_compute. reflexivity. Qed.

Example hex_Jk : string_of (Hex.encode (bytes_of "Jk")) = "4a6b".
Proof. vm_compute. reflexivity. Qed.

Example boundary_of_zeros :
  Multipart.Boundary (NewWriter (replicate 30 "000"%char))
  = times 60 "0".
Proof. vm_compute. reflexivity. Qed.

Example itoa_port : itoa 5236 = "5236".
Proof. vm_compute. reflexivity. Qed.

Example go_range_orders :
  go_range 0 [1; 2; 3]%nat = [1; 2; 3]%nat /\
  go_range 1 [1; 2; 3]%nat = [2; 1; 3]%nat /\
  go_range 5 [1; 2; 3]%nat = [3; 2; 1]%nat.
Proof. vm_compute. repeat split. Qed.

(** ** The length of a cell

    A cell takes 32767 UTF-16 code units: of 32768 letters the last is
    cut, and of 16384 characters that take two code units each (here
    U+1D11E) the last, which leaves 16383. *)

Example cell_of_letters :
  String.eqb (Excelize.setCellString (times (Z.to_nat 32768) "a"))
             (times (Z.to_nat 32767) "a") = true.
Proof. vm_compute. reflexivity. Qed.

Example cell_of_clefs :
  String.eqb (Excelize.setCellString (times (Z.to_nat 16384) "𝄞"))
             (times (Z.to_nat 16383) "𝄞") = true.
Proof. vm_compute. reflexivity. Qed.

Example cell_within_the_limit :
  String.eqb (Excelize.setCellString (times (Z.to_nat 16383) "𝄞" +:+ "a"))
             (times (Z.to_nat 16383) "𝄞" +:+ "a") = true.
Proof. vm_compute. reflexivity. Qed.
